(** * HSPARC: capture, sealing and analysis core

    A shallow embedding of the parts of the HSPARC sources that the
    specification makes promises about:

    - [PyStr], [PyNum]:  the Python string and number operations used
    - [StudyEncryption]: [hsparc/utils/study_encryption.py]
    - [Db]:              the rows of [hsparc/models/db.py]
    - [Gamepad]:         [hsparc/input/gamepad.py] (v1.0.7)
    - [Calibration]:     [controller_calibration_dialog.py] (v1.0.7)
    - [Capture]:         [RecorderWindow._start] of [hsparc/ui/recorder.py]
                         and [ObserverWindow._start_session] of
                         [observer.py] (v1.0.7)
    - [Numpy]:           the numpy operations of the analysis
    - [Analyzer]:        alignment and pairwise analysis of
                         [hsparc/analysis/comprehensive_analyzer.py] and
                         [hsparc/analysis/convergence.py]
    - [TimeSeries]:      [hsparc/utils/timeseries_converter.py]
    - [SealingFacts], [ReaderFacts], [CaptureFacts], [AlignmentFacts],
      [SeriesFacts], [ConvergenceFacts]: further properties of the same
      sources, and of [encrypt_study_folder], [convert_button_events],
      [get_time_axis], [get_sample_count] and the windows and events of
      [convergence.py]

    Conventions.  Python [str] is [string]; Python [bytes] is a list of
    [Byte.byte]; a Python exception is a value carried by the result
    type of the function that raises it; the file system is a finite map
    from path strings to file contents; the database is the list of its
    rows in commit order; a float is an exact rational and an array is a
    list.  The packages [cryptography], [evdev] and [scipy] are
    parameters of the sections that use them. *)

From Stdlib Require Import ZArith QArith Qround Qabs Lia Lqa List String Ascii.
From Stdlib Require Import Strings.Byte.
From Stdlib Require Import Sorting.Sorted.
From stdpp Require Import gmap strings list pretty.

Abbreviation bytes := (list Byte.byte).

(** ** Python string helpers used by the sources *)

Module PyStr.

Local Open Scope string_scope.

(** [s.startswith(p)] *)
Fixpoint startswith (p s : string) : bool :=
  match p with
  | EmptyString => true
  | String a p' =>
      match s with
      | EmptyString => false
      | String b s' => if Ascii.eqb a b then startswith p' s' else false
      end
  end.

(** Worker of [str.replace]: scan [s] left to right; [skip] counts the
    characters of an occurrence of [old] that was just matched and that
    are still to be passed over. *)
Fixpoint replace_from (old new : string) (skip : nat) (s : string) : string :=
  match s with
  | EmptyString => EmptyString
  | String c s' =>
      match skip with
      | S k => replace_from old new k s'
      | O =>
          if startswith old s
          then new ++ replace_from old new (String.length old - 1) s'
          else String c (replace_from old new 0 s')
      end
  end.

(** [s.replace(old, new)] for a non-empty [old]: every non-overlapping
    occurrence of [old], found left to right, is replaced by [new]. *)
Definition replace (old new s : string) : string := replace_from old new 0 s.

(** ['/' in s] *)
Fixpoint has_slash (s : string) : bool :=
  match s with
  | EmptyString => false
  | String c s' => if Ascii.eqb c "/" then true else has_slash s'
  end.

(** [os.path.basename(p)] (posixpath): the part of [p] after its last
    ['/'], all of [p] when it has none. *)
Fixpoint basename (p : string) : string :=
  match p with
  | EmptyString => EmptyString
  | String c p' =>
      if has_slash p' then basename p'
      else if Ascii.eqb c "/" then p' else p
  end.

(** [s.endswith(suffix)] *)
Fixpoint endswith (suffix s : string) : bool :=
  if String.eqb s suffix then true
  else match s with
       | EmptyString => false
       | String _ s' => endswith suffix s'
       end.

(** [s.endswith('/')] *)
Fixpoint ends_with_slash (s : string) : bool :=
  match s with
  | EmptyString => false
  | String c EmptyString => Ascii.eqb c "/"
  | String _ s' => ends_with_slash s'
  end.

End PyStr.

(** ** Python number conversions; a float is read as an exact rational *)

Module PyNum.

(** [int(x)] on a float: truncation toward zero. *)
Definition py_int (x : Q) : Z := if Qle_bool 0 x then Qfloor x else Qceiling x.

(** [round(x)] on a float: to the nearest integer, ties to the even one. *)
Definition py_round (x : Q) : Z :=
  let f := Qfloor x in
  match ((x - inject_Z f) ?= (1 # 2))%Q with
  | Lt => f
  | Gt => (f + 1)%Z
  | Eq => if Z.even f then f else (f + 1)%Z
  end.

End PyNum.

(** ** [hsparc/utils/study_encryption.py] *)

Module StudyEncryption.

Local Open Scope string_scope.

(** Exceptions that the sealing code can end with. *)
Inductive exn : Type :=
| FileNotFoundError (path : string)
| IsADirectoryError (path : string)
| OSError (path : string)
| MemoryError
| ValueError (msg : string).

Inductive outcome (A : Type) : Type :=
| Return (a : A)
| Raise (e : exn).
Arguments Return {A} a.
Arguments Raise {A} e.

(** What the operating system does to one call: each flag makes the
    named step raise.  [fault_write = Some n] lets [f.write] fail after
    [n] bytes reached the file (a full disk). *)
Record io_env : Type := {
  entropy : bytes;            (* os.urandom and the clock, read by Fernet.encrypt *)
  fault_read : bool;          (* open(path, 'rb') / f.read() raises *)
  fault_seal : bool;          (* fernet.encrypt raises (out of memory) *)
  fault_open_write : bool;    (* open(path, 'wb') raises before creating the file *)
  fault_write : option nat;   (* f.write raises after that many bytes *)
  fault_remove : bool         (* os.remove raises *)
}.

Definition no_faults (r : bytes) : io_env :=
  {| entropy := r; fault_read := false; fault_seal := false;
     fault_open_write := false; fault_write := None; fault_remove := false |}.

(** Computations that read the environment, update the file system and
    may raise. *)
Definition io (A : Type) : Type :=
  io_env -> gmap string bytes -> gmap string bytes * outcome A.

Definition ret {A} (a : A) : io A := fun _ fs => (fs, Return a).

Definition bind {A B} (m : io A) (k : A -> io B) : io B :=
  fun env fs =>
    match m env fs with
    | (fs', Return a) => k a env fs'
    | (fs', Raise e) => (fs', Raise e)
    end.

Definition raise {A} (e : exn) : io A := fun _ fs => (fs, Raise e).

#[export] Instance io_ret : MRet io := @ret.
#[export] Instance io_bind : MBind io := fun A B k m => bind m k.

(** [with open(path, 'rb') as f: data = f.read()] *)
Definition read_file (path : string) : io bytes :=
  fun env fs =>
    if fault_read env then (fs, Raise (OSError path))
    else match fs !! path with
         | Some data => (fs, Return data)
         | None => (fs, Raise (FileNotFoundError path))
         end.

(** [with open(path, 'wb') as f: f.write(data)].  Opening creates or
    truncates the file, so a write that fails leaves what was written so
    far; a path that is empty or names a directory cannot be opened. *)
Definition write_file (path : string) (data : bytes) : io unit :=
  fun env fs =>
    if String.eqb path "" then (fs, Raise (FileNotFoundError path))
    else if PyStr.ends_with_slash path then (fs, Raise (IsADirectoryError path))
    else if fault_open_write env then (fs, Raise (OSError path))
    else match fault_write env with
         | Some n => (<[path := take n data]> fs, Raise (OSError path))
         | None => (<[path := data]> fs, Return tt)
         end.

(** [os.remove(path)] *)
Definition os_remove (path : string) : io unit :=
  fun env fs =>
    if fault_remove env then (fs, Raise (OSError path))
    else match fs !! path with
         | Some _ => (delete path fs, Return tt)
         | None => (fs, Raise (FileNotFoundError path))
         end.

(** The error [decrypt_file] raises when the token does not
    authenticate: the specification's [BadPinOrTampered]. *)
Definition BadPinOrTampered : exn := ValueError "Invalid PIN or corrupted file".

(** A stand-in for the [cryptography] package, used to run the sealing
    code on concrete files: the key is salt and password joined, a token
    is the key followed by the plaintext. *)
Definition demo_pbkdf2 (salt : bytes) (iterations length : N) (password : bytes) : bytes :=
  salt ++ password.
Definition demo_b64encode (b : bytes) : bytes := b.
Definition demo_encrypt (key entropy data : bytes) : bytes := key ++ data.
Fixpoint demo_strip (key token : bytes) : option bytes :=
  match key with
  | [] => Some token
  | a :: key' =>
      match token with
      | [] => None
      | b :: token' => if Byte.eqb a b then demo_strip key' token' else None
      end
  end.
Definition demo_decrypt (key token : bytes) : option bytes := demo_strip key token.

Section Sealing.

(** The [cryptography] package: PBKDF2-HMAC-SHA256, url-safe base64,
    and Fernet's [encrypt] and [decrypt] ([None] is [InvalidToken]). *)
Variable pbkdf2_hmac_sha256 : bytes -> N -> N -> bytes -> bytes.
Variable urlsafe_b64encode : bytes -> bytes.
Variable fernet_encrypt : bytes -> bytes -> bytes -> bytes.
Variable fernet_decrypt : bytes -> bytes -> option bytes.

Definition derive_key_from_pin (study_id pin : string) : bytes :=
  let salt := list_byte_of_string study_id in
  urlsafe_b64encode
    (pbkdf2_hmac_sha256 salt 100000 32 (list_byte_of_string pin)).

(** [fernet.encrypt(data)] *)
Definition seal (key data : bytes) : io bytes :=
  fun env fs =>
    if fault_seal env then (fs, Raise MemoryError)
    else (fs, Return (fernet_encrypt key (entropy env) data)).

(** [try: fernet.decrypt(encrypted) except Exception: raise ValueError(...)] *)
Definition unseal (key token : bytes) : io bytes :=
  match fernet_decrypt key token with
  | Some data => ret data
  | None => raise BadPinOrTampered
  end.

Definition encrypt_file (filepath study_id pin : string) : io string :=
  let key := derive_key_from_pin study_id pin in
  data ← read_file filepath;
  encrypted ← seal key data;
  let encrypted_path := filepath ++ ".enc" in
  _ ← write_file encrypted_path encrypted;
  _ ← os_remove filepath;
  mret encrypted_path.

Definition decrypt_file (encrypted_path study_id pin : string) : io string :=
  let key := derive_key_from_pin study_id pin in
  encrypted ← read_file encrypted_path;
  decrypted ← unseal key encrypted;
  let original_path := PyStr.replace ".enc" "" encrypted_path in
  let temp_path := "/tmp/" ++ PyStr.basename original_path in
  _ ← write_file temp_path decrypted;
  mret temp_path.

(** The specification's wording of failure atomicity for one run of
    [encrypt_file]: if the run raises, the plaintext is as it was and
    there is no file at the sealed path. *)
Definition sealing_atomic_on_error
    (filepath study_id pin : string) (env : io_env) (fs : gmap string bytes) : Prop :=
  forall fs' e,
    encrypt_file filepath study_id pin env fs = (fs', Raise e) ->
    fs' !! filepath = fs !! filepath /\ fs' !! (filepath ++ ".enc") = None.

(** The strings made of copies of [".enc"] and nothing else: those that
    [replace('.enc', '')] empties. *)
Inductive tiled : string -> Prop :=
| tiled_empty : tiled ""
| tiled_more r : tiled r -> tiled (".enc" ++ r).

(** What Fernet promises: a token opens under the key that made it. *)
Hypothesis fernet_decrypt_encrypt :
  forall key r data, fernet_decrypt key (fernet_encrypt key r data) = Some data.

(** *** Facts about the path arithmetic of [decrypt_file] *)

Lemma append_cons c (a b : string) : String c a ++ b = String c (a ++ b).
Proof. reflexivity. Qed.

Lemma append_empty (b : string) : "" ++ b = b.
Proof. reflexivity. Qed.

(** Decide one character comparison of the goal: by computation when
    both characters are known, by cases otherwise. *)
Ltac case_char_eqb :=
  match goal with
  | |- context [Ascii.eqb ?x ?y] =>
      first [ is_var y; destruct (Ascii.eqb x y)
            | is_var x; destruct (Ascii.eqb x y)
            | let v := eval vm_compute in (Ascii.eqb x y) in
              change (Ascii.eqb x y) with v ];
      cbn [PyStr.startswith]
  end.

Lemma startswith_enc_before_slash a b :
  PyStr.startswith ".enc" (a ++ String "/" b) = PyStr.startswith ".enc" a.
Proof.
  destruct a as [|c1 [|c2 [|c3 [|c4 a]]]];
    rewrite ?append_cons, ?append_empty; cbn [PyStr.startswith];
    repeat case_char_eqb; reflexivity.
Qed.

Lemma startswith_enc_length c a :
  PyStr.startswith ".enc" (String c a) = true -> (3 <= String.length a)%nat.
Proof.
  destruct a as [|c2 [|c3 [|c4 a]]];
    cbn [PyStr.startswith String.length];
    repeat case_char_eqb; intros; try discriminate; lia.
Qed.

Lemma replace_from_enc_slash a : forall skip b,
  (skip <= String.length a)%nat ->
  PyStr.replace_from ".enc" "" skip (a ++ String "/" b)
  = PyStr.replace_from ".enc" "" skip a
    ++ String "/" (PyStr.replace_from ".enc" "" 0 b).
Proof.
  induction a as [|c a IH]; intros skip b Hskip.
  - simpl in Hskip. assert (skip = 0%nat) as -> by lia. reflexivity.
  - change (String c a ++ String "/" b) with (String c (a ++ String "/" b)).
    destruct skip as [|k].
    + cbn [PyStr.replace_from].
      change (String c (a ++ String "/" b)) with (String c a ++ String "/" b).
      rewrite startswith_enc_before_slash.
      destruct (PyStr.startswith ".enc" (String c a)) eqn:Hp.
      * apply startswith_enc_length in Hp.
        change (String.length ".enc" - 1)%nat with 3%nat.
        rewrite append_empty. apply IH. exact Hp.
      * rewrite append_cons. f_equal. apply IH. lia.
    + cbn [PyStr.replace_from]. apply IH. simpl in Hskip. lia.
Qed.

Lemma replace_from_enc_no_slash s : forall skip,
  PyStr.has_slash s = false ->
  PyStr.has_slash (PyStr.replace_from ".enc" "" skip s) = false.
Proof.
  induction s as [|c s IH]; intros skip Hs; [reflexivity|].
  simpl in Hs. destruct (Ascii.eqb c "/") eqn:Hc; [discriminate|].
  destruct skip as [|k]; cbn [PyStr.replace_from].
  - destruct (PyStr.startswith ".enc" (String c s)).
    + rewrite append_empty. apply IH, Hs.
    + cbn [PyStr.has_slash]. rewrite Hc. apply IH, Hs.
  - apply IH, Hs.
Qed.

Lemma basename_no_slash s : PyStr.has_slash s = false -> PyStr.basename s = s.
Proof.
  destruct s as [|c s]; [reflexivity|]. simpl.
  destruct (Ascii.eqb c "/"); [discriminate|]. intros ->. reflexivity.
Qed.

Lemma has_slash_app_slash a b : PyStr.has_slash (a ++ String "/" b) = true.
Proof.
  induction a as [|c a IH]; simpl; [reflexivity|].
  destruct (Ascii.eqb c "/"); [reflexivity | exact IH].
Qed.

Lemma basename_app_slash a b :
  PyStr.has_slash b = false -> PyStr.basename (a ++ String "/" b) = b.
Proof.
  intros Hb. induction a as [|c a IH].
  - simpl. rewrite Hb. reflexivity.
  - change (String c a ++ String "/" b) with (String c (a ++ String "/" b)).
    cbn [PyStr.basename]. rewrite has_slash_app_slash. exact IH.
Qed.

Lemma split_last_slash p :
  PyStr.has_slash p = true ->
  exists a b, p = a ++ String "/" b /\ PyStr.has_slash b = false.
Proof.
  induction p as [|c p IH]; [discriminate|].
  intros Hp. destruct (PyStr.has_slash p) eqn:Hq.
  - destruct (IH eq_refl) as (a & b & -> & Hb).
    exists (String c a), b. split; [reflexivity | exact Hb].
  - simpl in Hp. rewrite Hq in Hp.
    destruct (Ascii.eqb_spec c "/") as [-> | ?]; [|discriminate].
    exists "", p. split; [reflexivity | exact Hq].
Qed.

Lemma has_slash_basename p : PyStr.has_slash (PyStr.basename p) = false.
Proof.
  destruct (PyStr.has_slash p) eqn:Hp.
  - destruct (split_last_slash p Hp) as (a & b & -> & Hb).
    rewrite basename_app_slash; assumption.
  - rewrite basename_no_slash; assumption.
Qed.

(** Removing [".enc"] and taking the base name commute, because an
    occurrence of [".enc"] never spans a ['/']. *)
Lemma basename_replace_enc p :
  PyStr.basename (PyStr.replace ".enc" "" p)
  = PyStr.replace ".enc" "" (PyStr.basename p).
Proof.
  unfold PyStr.replace. destruct (PyStr.has_slash p) eqn:Hp.
  - destruct (split_last_slash p Hp) as (a & b & -> & Hb).
    rewrite replace_from_enc_slash by lia.
    rewrite !basename_app_slash; auto using replace_from_enc_no_slash.
  - rewrite (basename_no_slash p Hp).
    apply basename_no_slash, replace_from_enc_no_slash, Hp.
Qed.


Lemma ends_with_slash_cons c s :
  s <> "" -> PyStr.ends_with_slash (String c s) = PyStr.ends_with_slash s.
Proof. destruct s; [congruence | reflexivity]. Qed.


Lemma enc_path_openable filepath :
  String.eqb (filepath ++ ".enc") "" = false
  /\ PyStr.ends_with_slash (filepath ++ ".enc") = false.
Proof.
  split.
  - destruct filepath; reflexivity.
  - induction filepath as [|c p IH]; [reflexivity|].
    rewrite append_cons, ends_with_slash_cons; [exact IH|].
    destruct p; discriminate.
Qed.

Lemma length_append (a b : string) :
  String.length (a ++ b) = (String.length a + String.length b)%nat.
Proof.
  induction a as [|c a IH]; [reflexivity|].
  rewrite append_cons. simpl. rewrite IH. reflexivity.
Qed.

Lemma enc_path_differs filepath : filepath <> filepath ++ ".enc".
Proof.
  intros Heq. apply (f_equal String.length) in Heq.
  rewrite length_append in Heq. simpl in Heq. lia.
Qed.

Lemma startswith_enc_inv s :
  PyStr.startswith ".enc" s = true -> exists r, s = ".enc" ++ r.
Proof.
  destruct s as [|c1 [|c2 [|c3 [|c4 r]]]]; cbn [PyStr.startswith];
    repeat match goal with
           | |- context [Ascii.eqb ?x ?y] => destruct (Ascii.eqb_spec x y); [subst|]
           end; try discriminate.
  intros _. exists r. reflexivity.
Qed.

Lemma replace_enc_empty_tiled : forall (n : nat) s,
  (String.length s <= n)%nat -> PyStr.replace ".enc" "" s = "" -> tiled s.
Proof.
  unfold PyStr.replace.
  induction n as [|n IH]; intros s Hlen Hrep.
  - destruct s; [constructor | simpl in Hlen; lia].
  - destruct s as [|c s]; [constructor|].
    cbn [PyStr.replace_from] in Hrep.
    destruct (PyStr.startswith ".enc" (String c s)) eqn:Hp; [|discriminate].
    destruct (startswith_enc_inv _ Hp) as [r Hr]. rewrite Hr. constructor.
    apply IH.
    + rewrite Hr, length_append in Hlen. simpl in Hlen. lia.
    + injection Hr as -> ->. exact Hrep.
Qed.

Lemma tiled_suffix : forall (n : nat) b,
  (String.length b <= n)%nat -> tiled (b ++ ".enc") -> b = "" \/ exists b', b = b' ++ ".enc".
Proof.
  induction n as [|n IH]; intros b Hlen Ht.
  - destruct b; [left; reflexivity | simpl in Hlen; lia].
  - inversion Ht as [He | r Hr He].
    + destruct b; discriminate.
    + destruct b as [|c1 [|c2 [|c3 [|c4 b]]]]; try (left; reflexivity);
        try discriminate.
      injection He as H1 H2 H3 H4 H5. rewrite append_empty in H5.
      subst c1 c2 c3 c4 r. right.
      destruct (IH b) as [-> | [b' ->]]; [simpl in Hlen; lia | exact Hr | |].
      * exists "". reflexivity.
      * exists (".enc" ++ b'). reflexivity.
Qed.

Lemma endswith_append suffix b : PyStr.endswith suffix (b ++ suffix) = true.
Proof.
  induction b as [|c b IH].
  - rewrite append_empty. destruct suffix; cbn [PyStr.endswith]; rewrite String.eqb_refl;
      reflexivity.
  - change (String c b ++ suffix) with (String c (b ++ suffix)). cbn [PyStr.endswith].
    destruct (String.eqb (String c (b ++ suffix)) suffix); [reflexivity | exact IH].
Qed.

Lemma append_assoc (a b c : string) : (a ++ b) ++ c = a ++ (b ++ c).
Proof.
  induction a as [|x a IH]; [reflexivity|]. rewrite !append_cons, IH. reflexivity.
Qed.

Lemma has_slash_append (a b : string) :
  PyStr.has_slash a = false -> PyStr.has_slash b = false ->
  PyStr.has_slash (a ++ b) = false.
Proof.
  intros Ha Hb. induction a as [|c a IH]; [exact Hb|].
  rewrite append_cons. cbn [PyStr.has_slash] in *.
  destruct (Ascii.eqb c "/"); [discriminate | auto].
Qed.

Lemma basename_append (p s : string) :
  PyStr.has_slash s = false -> PyStr.basename (p ++ s) = PyStr.basename p ++ s.
Proof.
  intros Hs. destruct (PyStr.has_slash p) eqn:Hp.
  - destruct (split_last_slash p Hp) as (a & b & -> & Hb).
    rewrite append_assoc, append_cons.
    rewrite !basename_app_slash; auto using has_slash_append.
  - rewrite (basename_no_slash p Hp).
    apply basename_no_slash, has_slash_append; assumption.
Qed.

(** A file whose name does not end in [".enc"] already (the files
    [encrypt_study_folder] seals, and the recorder's [rec_*.mp4]) gets a
    temporary name that is not empty. *)
Lemma plain_name_has_temp_name filepath :
  PyStr.basename filepath <> "" ->
  PyStr.endswith ".enc" (PyStr.basename filepath) = false ->
  PyStr.basename (PyStr.replace ".enc" "" (filepath ++ ".enc")) <> "".
Proof.
  intros Hname Hplain Hempty.
  rewrite basename_replace_enc, basename_append in Hempty by reflexivity.
  apply (replace_enc_empty_tiled _ _ (le_n _)) in Hempty.
  destruct (tiled_suffix _ _ (le_n _) Hempty) as [Hb | [b' Hb']]; [contradiction|].
  rewrite Hb', endswith_append in Hplain. discriminate.
Qed.

(** *** Running the steps *)

Lemma read_file_ok path data env (fs : gmap string bytes) :
  fault_read env = false -> fs !! path = Some data ->
  read_file path env fs = (fs, Return data).
Proof. intros Hf Hp. unfold read_file. rewrite Hf, Hp. reflexivity. Qed.

Lemma write_file_ok path data r (fs : gmap string bytes) :
  String.eqb path "" = false -> PyStr.ends_with_slash path = false ->
  write_file path data (no_faults r) fs = (<[path := data]> fs, Return tt).
Proof. intros H1 H2. unfold write_file. rewrite H1, H2. reflexivity. Qed.


(** *** The claims *)


(** C4, as amended.  When [encrypt_file] raises, the plaintext is
    still in place with its contents, and no path other than the
    sealed one has changed.  When the failure is neither in writing the
    sealed blob nor in deleting the plaintext, nothing has changed at
    all; when reading, sealing and opening the sealed path all went
    through, so that the failure is in writing or in deleting, there is a
    file at the sealed path. *)
Theorem encrypt_file_failure_keeps_plaintext filepath study_id pin data env
    (fs fs' : gmap string bytes) e :
  fs !! filepath = Some data ->
  encrypt_file filepath study_id pin env fs = (fs', Raise e) ->
  fs' !! filepath = Some data
  /\ (forall q, q <> filepath ++ ".enc" -> fs' !! q = fs !! q)
  /\ (fault_write env = None -> fault_remove env = false -> fs' = fs)
  /\ (fault_read env = false -> fault_seal env = false ->
      fault_open_write env = false -> is_Some (fs' !! (filepath ++ ".enc"))).
Proof.
  intros Hfile.
  destruct (enc_path_openable filepath) as [Hne Hdir].
  pose proof (enc_path_differs filepath) as Hdiff.
  unfold encrypt_file, mbind, io_bind, bind, read_file, seal, write_file, os_remove.
  rewrite Hne, Hdir, Hfile.
  destruct (fault_read env);
    [intros [= <- <-]; repeat split; auto; discriminate|].
  destruct (fault_seal env);
    [intros [= <- <-]; repeat split; auto; discriminate|].
  destruct (fault_open_write env);
    [intros [= <- <-]; repeat split; auto; discriminate|].
  destruct (fault_write env) as [n|].
  - intros [= <- <-]. rewrite lookup_insert_ne by auto.
    split; [assumption|]. split; [|split; [discriminate|]].
    + intros q Hq. apply lookup_insert_ne. auto.
    + intros _ _ _. rewrite lookup_insert_eq. eauto.
  - destruct (fault_remove env).
    + intros [= <- <-]. rewrite lookup_insert_ne by auto.
      split; [assumption|]. split; [|split; [discriminate|]].
      * intros q Hq. apply lookup_insert_ne. auto.
      * intros _ _ _. rewrite lookup_insert_eq. eauto.
    + rewrite lookup_insert_ne by auto. rewrite Hfile. discriminate.
Qed.



End Sealing.

(** *** The sealing code run on a concrete file *)



Definition demo_frames : bytes := list_byte_of_string "frames".

Definition demo_fs : gmap string bytes := {[ "/data/rec1/video.mp4" := demo_frames ]}.

(** The disk fills up after three bytes of the sealed blob. *)
Definition env_disk_full : io_env :=
  {| entropy := []; fault_read := false; fault_seal := false;
     fault_open_write := false; fault_write := Some 3%nat; fault_remove := false |}.

(** The plaintext cannot be unlinked (it is still held open, or the
    directory forbids it). *)
Definition env_remove_denied : io_env :=
  {| entropy := []; fault_read := false; fault_seal := false;
     fault_open_write := false; fault_write := None; fault_remove := true |}.

(** The token [encrypt_file] writes for [demo_frames] under study
    ["study-7"] and PIN ["1234"] with the stand-in library. *)
Definition demo_token : bytes :=
  demo_encrypt (derive_key_from_pin demo_pbkdf2 demo_b64encode "study-7" "1234") [] demo_frames.

(** C4, counterexample.  [os.remove] fails after the sealed blob was
    written: [encrypt_file] raises, and the sealed file is on disk next to
    the plaintext. *)
Lemma encrypt_file_not_atomic_on_error :
  ~ sealing_atomic_on_error demo_pbkdf2 demo_b64encode demo_encrypt
      "/data/rec1/video.mp4" "study-7" "1234" env_remove_denied demo_fs.
Proof.
  intros Hatomic.
  destruct (Hatomic (<["/data/rec1/video.mp4.enc" := demo_token]> demo_fs)
              (OSError "/data/rec1/video.mp4")) as [_ Hnone].
  - vm_compute. reflexivity.
  - vm_compute in Hnone. discriminate.
Qed.

(** Sealing with a disk that fills up: the plaintext stays, three bytes
    of the sealed blob are left behind. *)
Lemma encrypt_file_failure_keeps_plaintext_witness :
  let fs' : gmap string bytes :=
    <["/data/rec1/video.mp4.enc" := take 3 demo_token]> demo_fs in
  demo_fs !! "/data/rec1/video.mp4" = Some demo_frames
  /\ encrypt_file demo_pbkdf2 demo_b64encode demo_encrypt
       "/data/rec1/video.mp4" "study-7" "1234" env_disk_full demo_fs
     = (fs', Raise (OSError "/data/rec1/video.mp4.enc"))
  /\ fs' !! "/data/rec1/video.mp4" = Some demo_frames
  /\ (forall q, q <> "/data/rec1/video.mp4.enc" -> fs' !! q = demo_fs !! q)
  /\ (fault_write env_disk_full = None -> fault_remove env_disk_full = false ->
      fs' = demo_fs)
  /\ (fault_read env_disk_full = false -> fault_seal env_disk_full = false ->
      fault_open_write env_disk_full = false ->
      is_Some (fs' !! "/data/rec1/video.mp4.enc")).
Proof.
  intros fs'.
  assert (demo_fs !! "/data/rec1/video.mp4" = Some demo_frames) as Hfile
    by (vm_compute; reflexivity).
  assert (encrypt_file demo_pbkdf2 demo_b64encode demo_encrypt
            "/data/rec1/video.mp4" "study-7" "1234" env_disk_full demo_fs
          = (fs', Raise (OSError "/data/rec1/video.mp4.enc"))) as Hrun
    by (vm_compute; reflexivity).
  split; [exact Hfile|]. split; [exact Hrun|].
  exact (encrypt_file_failure_keeps_plaintext demo_pbkdf2 demo_b64encode demo_encrypt
           "/data/rec1/video.mp4" "study-7" "1234" demo_frames env_disk_full
           demo_fs fs' _ Hfile Hrun).
Defined.





End StudyEncryption.

(** ** [hsparc/models/db.py]: the rows the capture code writes *)

Module Db.

Local Open Scope string_scope.

(** One entry of [calibration_data["axes"]]. *)
Record axis_entry : Type := {
  ax_min : Z;
  ax_max : Z;
  ax_center : Z;
  ax_label : string
}.

(** The dictionary [CalibrationState.to_dict()] builds: axes by code, and
    the label of each button by code. *)
Record calibration_dict : Type := {
  cal_axes : gmap string axis_entry;
  cal_buttons : gmap string string
}.

Record ObserverSession : Type := {
  os_id : string;
  os_recording_id : string;
  os_label : string;
  recognition_check_required : bool;
  recognition_check_passed : option bool
}.

Record InputStream : Type := {
  is_id : string;
  is_session_id : string;
  is_device_name : string;
  is_profile_id : string;
  is_alias : string;
  is_construct_mapping : gmap string string;
  is_calibration_data : option calibration_dict;
  is_allowed_inputs : option (list string)
}.

Record InputEvent : Type := {
  id : string;
  recording_id : string;
  session_id : string;
  stream_id : string;
  t_ms : Z;
  kind : string;
  code : string;
  value : option Z;
  is_press : option bool
}.

(** The tables, rows in the order of their commits, and the number of
    identifiers [uuid4()] has handed out so far. *)
Record store : Type := {
  sessions : list ObserverSession;
  streams : list InputStream;
  events : list InputEvent;
  uuids_drawn : nat
}.

Definition add_session (s : ObserverSession) (db : store) : store :=
  {| sessions := sessions db ++ [s]; streams := streams db;
     events := events db; uuids_drawn := uuids_drawn db |}.

Definition add_stream (s : InputStream) (db : store) : store :=
  {| sessions := sessions db; streams := streams db ++ [s];
     events := events db; uuids_drawn := uuids_drawn db |}.

Definition add_event (e : InputEvent) (db : store) : store :=
  {| sessions := sessions db; streams := streams db;
     events := events db ++ [e]; uuids_drawn := uuids_drawn db |}.

Definition draw_uuid (db : store) : store :=
  {| sessions := sessions db; streams := streams db;
     events := events db; uuids_drawn := S (uuids_drawn db) |}.


End Db.

(** ** [hsparc/input/gamepad.py] (v1.0.7): the device reader *)

Module Gamepad.

Import Db PyNum.
Local Open Scope string_scope.

(** evdev event types. *)
Definition EV_SYN : Z := 0.
Definition EV_KEY : Z := 1.
Definition EV_ABS : Z := 3.

(** An entry of the tables [ecodes.ABS], [ecodes.BTN], [ecodes.KEY]: one
    name, or several names for one number. *)
Inductive ecode_name : Type :=
| OneName (s : string)
| Names (l : list string).

(** An event as the device delivers it. *)
Record device_event : Type := {
  ev_type : Z;
  ev_code : Z;
  ev_value : Z
}.

(** [AxisCal] of [_Reader._parse_calibrations]. *)
Record AxisCal : Type := {
  min_value : Z;
  max_value : Z
}.

(** Floats are read as exact rationals. *)
Definition normalize (cal : AxisCal) (raw_value : Z) : Q :=
  if (min_value cal =? max_value cal)%Z then 0%Q
  else
    let normalized :=
      (inject_Z (raw_value - min_value cal) / inject_Z (max_value cal - min_value cal))%Q in
    ((normalized * 2) - 1)%Q.

(** The fields of [_Reader] the read loop uses. *)
Record Reader : Type := {
  rd_stream_id : string;
  rd_recording_id : string;
  rd_session_id : string;
  calibration_data : option calibration_dict;
  allowed_inputs : option (list string)
}.

Definition _parse_calibrations (r : Reader) : gmap string AxisCal :=
  match calibration_data r with
  | None => ∅
  | Some d => (fun data => {| min_value := ax_min data; max_value := ax_max data |})
                <$> cal_axes d
  end.

(** [self.allowed_inputs and code not in self.allowed_inputs]: [None] and
    the empty list are both false in a condition. *)
Definition filtered_out (allowed : option (list string)) (code : string) : bool :=
  match allowed with
  | None => false
  | Some [] => false
  | Some l => negb (bool_decide (code ∈ l))
  end.

(** What the device hands to the loop for one event: the event, the clock
    reading [int(self.time_source())] taken for it. *)
Record tick : Type := {
  tick_t_ms : Z;
  tick_event : device_event
}.



Section Reading.

(** [evdev.ecodes] name tables and the identifier generator. *)
Variable ecodes_ABS ecodes_BTN ecodes_KEY : Z -> option ecode_name.
Variable uuid4_hex : nat -> string.

(** The name a table entry yields: the last non-empty string of a tuple,
    a non-empty single string, or nothing. *)
Definition entry_name (nm : option ecode_name) : option string :=
  match nm with
  | Some (Names l) => List.find (fun s => negb (String.eqb s "")) (rev l)
  | Some (OneName s) => if String.eqb s "" then None else Some s
  | None => None
  end.

Definition _code_name_key (code : Z) : string :=
  match entry_name (ecodes_BTN code) with
  | Some s => s
  | None =>
      match entry_name (ecodes_KEY code) with
      | Some s => s
      | None => "KEY_" ++ pretty code
      end
  end.

Definition _code_name_abs (code : Z) : string :=
  match entry_name (ecodes_ABS code) with
  | Some s => s
  | None => "ABS_" ++ pretty code
  end.

(** One turn of the loop of [_Reader.run]: the row it commits for the
    event, if any. *)
Definition handle_event (r : Reader) (uuid : string) (tk : tick) : option InputEvent :=
  let ev := tick_event tk in
  if (ev_type ev =? EV_SYN)%Z then None
  else if (ev_type ev =? EV_ABS)%Z then
    let code := _code_name_abs (ev_code ev) in
    if filtered_out (allowed_inputs r) code then None
    else
      let val :=
        match _parse_calibrations r !! code with
        | Some cal => py_int (normalize cal (ev_value ev) * 1000)%Q
        | None => ev_value ev
        end in
      Some {| id := uuid; recording_id := rd_recording_id r;
              session_id := rd_session_id r; stream_id := rd_stream_id r;
              t_ms := tick_t_ms tk; kind := "axis"; code := code;
              value := Some val; is_press := None |}
  else if (ev_type ev =? EV_KEY)%Z then
    let code := _code_name_key (ev_code ev) in
    if filtered_out (allowed_inputs r) code then None
    else
      let v := ev_value ev in
      let is_press :=
        if (v =? 1)%Z then Some true else if (v =? 0)%Z then Some false else None in
      Some {| id := uuid; recording_id := rd_recording_id r;
              session_id := rd_session_id r; stream_id := rd_stream_id r;
              t_ms := tick_t_ms tk; kind := "button"; code := code;
              value := Some v; is_press := is_press |}
  else None.

(** The loop body with its commit. *)
Definition reader_step (r : Reader) (db : store) (tk : tick) : store :=
  match handle_event r (uuid4_hex (uuids_drawn db)) tk with
  | Some e => add_event e (draw_uuid db)
  | None => db
  end.

(** [_Reader.run] over the events read before the stop flag is seen. *)
Definition run (r : Reader) (ticks : list tick) (db : store) : store :=
  fold_left (reader_step r) ticks db.

(** The readers of a [GamepadPoller] run in threads of their own; their
    commits are serialised by the store.  A schedule lists, in commit
    order, which reader handled which event. *)
Definition poller_run (readers : list Reader) (schedule : list (nat * tick))
    (db : store) : store :=
  fold_left
    (fun db '(i, tk) =>
       match readers !! i with
       | Some r => reader_step r db tk
       | None => db
       end)
    schedule db.

(** The symbolic code of an axis or button event. *)
Definition event_code (ev : device_event) : string :=
  if (ev_type ev =? EV_ABS)%Z then _code_name_abs (ev_code ev)
  else _code_name_key (ev_code ev).

(** The specification's wording of the filter: whenever an allow-list is
    present, an event whose code is not in it leaves the store as it
    was. *)
Definition spec_drops_non_members (r : Reader) (db : store) (tk : tick) : Prop :=
  forall l, allowed_inputs r = Some l ->
            event_code (tick_event tk) ∉ l ->
            reader_step r db tk = db.

(** *** Numbers *)

Lemma py_int_comp (x y : Q) : (x == y)%Q -> py_int x = py_int y.
Proof.
  intros Hxy. unfold py_int.
  assert (Qle_bool 0 x = Qle_bool 0 y) as ->.
  { destruct (Qle_bool 0 x) eqn:Hx, (Qle_bool 0 y) eqn:Hy; try reflexivity.
    - rewrite Qle_bool_iff in Hx. rewrite Hxy, <- Qle_bool_iff in Hx. congruence.
    - rewrite Qle_bool_iff in Hy. rewrite <- Hxy, <- Qle_bool_iff in Hy. congruence. }
  destruct (Qle_bool 0 y); [apply Qfloor_comp | apply Qceiling_comp]; exact Hxy.
Qed.



(** *** The claims *)


(** C6, as amended.  With an allow-list that is present and not empty, an
    axis or button event whose code is not in the list leaves the store
    untouched, and one whose code is in the list is committed; with no
    allow-list, or an empty one, every axis or button event is
    committed. *)
Theorem allowed_inputs_filtering (r : Reader) (db : store) (tk : tick) :
  let ev := tick_event tk in
  ev_type ev = EV_ABS \/ ev_type ev = EV_KEY ->
  match allowed_inputs r with
  | Some (a :: l) =>
      (event_code ev ∉ a :: l -> reader_step r db tk = db)
      /\ (event_code ev ∈ a :: l ->
          exists e, events (reader_step r db tk) = (events db ++ [e])%list
                    /\ Db.code e = event_code ev)
  | _ => exists e, events (reader_step r db tk) = (events db ++ [e])%list
                   /\ Db.code e = event_code ev
  end.
Proof.
  intros ev Htype.
  assert (forall uuid, filtered_out (allowed_inputs r) (event_code ev) = false ->
            exists e, handle_event r uuid tk = Some e /\ Db.code e = event_code ev)
    as Hkeep.
  { intros uuid Hpass. unfold handle_event, event_code in *. fold ev.
    destruct Htype as [Ht | Ht]; rewrite Ht in *;
      [ change (EV_ABS =? EV_SYN)%Z with false;
        change (EV_ABS =? EV_ABS)%Z with true in *
      | change (EV_KEY =? EV_SYN)%Z with false;
        change (EV_KEY =? EV_ABS)%Z with false in *;
        change (EV_KEY =? EV_KEY)%Z with true ];
      cbv iota in *; rewrite Hpass; eexists; split; reflexivity. }
  assert (forall uuid, filtered_out (allowed_inputs r) (event_code ev) = true ->
            handle_event r uuid tk = None) as Hdrop.
  { intros uuid Hout. unfold handle_event, event_code in *. fold ev.
    destruct Htype as [Ht | Ht]; rewrite Ht in *;
      [ change (EV_ABS =? EV_SYN)%Z with false;
        change (EV_ABS =? EV_ABS)%Z with true in *
      | change (EV_KEY =? EV_SYN)%Z with false;
        change (EV_KEY =? EV_ABS)%Z with false in *;
        change (EV_KEY =? EV_KEY)%Z with true ];
      cbv iota in *; rewrite Hout; reflexivity. }
  assert (filtered_out (allowed_inputs r) (event_code ev) = false ->
          exists e, events (reader_step r db tk) = (events db ++ [e])%list
                    /\ Db.code e = event_code ev) as Hcommit.
  { intros Hpass. destruct (Hkeep (uuid4_hex (uuids_drawn db)) Hpass) as (e & He & Hc).
    exists e. unfold reader_step. rewrite He. split; [reflexivity | exact Hc]. }
  destruct (allowed_inputs r) as [[|a l]|] eqn:Hal.
  - apply Hcommit. reflexivity.
  - split.
    + intros Hnot. unfold reader_step. rewrite Hdrop; [reflexivity|].
      cbn [filtered_out]. rewrite bool_decide_eq_false_2 by exact Hnot. reflexivity.
    + intros Hin. apply Hcommit. cbn [filtered_out].
      rewrite bool_decide_eq_true_2 by exact Hin. reflexivity.
  - apply Hcommit. reflexivity.
Qed.

End Reading.

(** *** The reader run on a concrete device *)

Definition demo_ABS (c : Z) : option ecode_name :=
  if (c =? 0)%Z then Some (OneName "ABS_X")
  else if (c =? 1)%Z then Some (OneName "ABS_Y") else None.

Definition demo_BTN (c : Z) : option ecode_name :=
  if (c =? 304)%Z then Some (Names ["BTN_A"; "BTN_GAMEPAD"; "BTN_SOUTH"]) else None.

Definition demo_KEY (c : Z) : option ecode_name := None.

Definition demo_uuid (n : nat) : string := "uuid-" ++ pretty n.

(** One calibrated axis, [ABS_X], learned between [0] and [7]. *)
Definition demo_calibration : calibration_dict :=
  {| cal_axes := {[ "ABS_X" := {| ax_min := 0; ax_max := 7; ax_center := 3;
                                  ax_label := "Arousal" |} ]};
     cal_buttons := ∅ |}.

Definition demo_reader : Reader :=
  {| rd_stream_id := "stream-a"; rd_recording_id := "rec-1"; rd_session_id := "sess-1";
     calibration_data := Some demo_calibration;
     allowed_inputs := Some ["ABS_X"] |}.

(** A reader whose allow-list is present and empty. *)
Definition empty_list_reader : Reader :=
  {| rd_stream_id := "stream-a"; rd_recording_id := "rec-1"; rd_session_id := "sess-1";
     calibration_data := None;
     allowed_inputs := Some [] |}.

Definition abs_tick (t c v : Z) : tick :=
  {| tick_t_ms := t; tick_event := {| ev_type := EV_ABS; ev_code := c; ev_value := v |} |}.

Definition empty_store : store :=
  {| sessions := []; streams := []; events := []; uuids_drawn := 0 |}.



(** C6, counterexample.  The allow-list is present and empty, the event's
    code [ABS_X] is not a member, and the event is committed all the
    same. *)
Lemma empty_allowed_inputs_accepts_everything :
  ~ spec_drops_non_members demo_ABS demo_BTN demo_KEY demo_uuid
      empty_list_reader empty_store (abs_tick 10 0 5).
Proof.
  intros Hdrop.
  specialize (Hdrop [] eq_refl (not_elem_of_nil _)).
  apply (f_equal (fun db => length (events db))) in Hdrop.
  vm_compute in Hdrop. discriminate.
Qed.

(** With the allow-list [["ABS_X"]]: [ABS_Y] is dropped, [ABS_X] is
    committed. *)
Lemma allowed_inputs_filtering_witness :
  reader_step demo_ABS demo_BTN demo_KEY demo_uuid demo_reader empty_store (abs_tick 10 1 5)
  = empty_store
  /\ exists e,
       events (reader_step demo_ABS demo_BTN demo_KEY demo_uuid demo_reader empty_store
                 (abs_tick 10 0 5)) = [e]
       /\ Db.code e = "ABS_X".
Proof.
  split.
  - pose proof (allowed_inputs_filtering demo_ABS demo_BTN demo_KEY demo_uuid
                  demo_reader empty_store (abs_tick 10 1 5) (or_introl eq_refl)) as [Hdrop _].
    apply Hdrop. vm_compute. intros Hin. apply list_elem_of_In in Hin.
    destruct Hin as [Heq | []]. discriminate.
  - pose proof (allowed_inputs_filtering demo_ABS demo_BTN demo_KEY demo_uuid
                  demo_reader empty_store (abs_tick 10 0 5) (or_introl eq_refl)) as [_ Hkeep].
    apply Hkeep. vm_compute. apply list_elem_of_here.
Defined.

End Gamepad.

(** ** [controller_calibration_dialog.py]: what a calibration hands over *)

Module Calibration.

Import Db.
Local Open Scope string_scope.

Record AxisCalibration : Type := {
  ac_min_value : Z;
  ac_max_value : Z;
  ac_center_value : Z;
  ac_label : string
}.

Record ButtonCalibration : Type := {
  bc_label : string
}.

(** Both dictionaries are keyed by the input's code. *)
Record CalibrationState : Type := {
  axes : gmap string AxisCalibration;
  buttons : gmap string ButtonCalibration
}.

Definition to_dict (c : CalibrationState) : calibration_dict :=
  {| cal_axes :=
       (fun a => {| ax_min := ac_min_value a; ax_max := ac_max_value a;
                    ax_center := ac_center_value a; ax_label := ac_label a |})
         <$> axes c;
     cal_buttons := bc_label <$> buttons c |}.

(** The codes of all configured inputs, axes first.  (Within each group
    the order is that of the map, not Python's insertion order; only
    membership is ever asked of this list.) *)
Definition get_allowed_inputs (c : CalibrationState) : list string :=
  ((map_to_list (axes c)).*1 ++ (map_to_list (buttons c)).*1)%list.

Definition nonempty_label (l : string) : option string :=
  if String.eqb l "" then None else Some l.

(** Labels by code, a button's label winning over an axis of the same
    code. *)
Definition get_construct_mapping (c : CalibrationState) : gmap string string :=
  omap (fun b => nonempty_label (bc_label b)) (buttons c)
  ∪ omap (fun a => nonempty_label (ac_label a)) (axes c).

End Calibration.

(** ** Starting a capture: [RecorderWindow._start] (recorder.py) and
       [ObserverWindow._start_session] (observer.py, v1.0.7) *)

Module Capture.

Import Db Calibration Gamepad.
Local Open Scope string_scope.

(** A controller assigned to a slot. *)
Record assignment : Type := {
  as_path : string;
  as_name : option string;
  as_calibration : option CalibrationState
}.

(** The local variables the slot loop builds up, with the store. *)
Record setup : Type := {
  su_db : store;
  assigned_map : list (string * (string * string));
  calibrations : gmap string CalibrationState
}.

(** [d[k] = v] on a dictionary kept in insertion order. *)
Fixpoint dict_set {V : Type} (k : string) (v : V) (d : list (string * V)) : list (string * V) :=
  match d with
  | [] => [(k, v)]
  | (k', v') :: d' =>
      if String.eqb k k' then (k, v) :: d' else (k', v') :: dict_set k v d'
  end.

(** The synthetic marker written when a stream is created. *)
Definition init_event (uuid rec_id sess_id st_id : string) (t : Z) : InputEvent :=
  {| id := uuid; recording_id := rec_id; session_id := sess_id; stream_id := st_id;
     t_ms := t; kind := "button"; code := "INIT"; value := None; is_press := None |}.


(** The state of the observer window that [_start_session] reads. *)
Record ObserverWindow : Type := {
  ow_recording_id : string;
  ow_session_id : option string;
  ow_assigned : gmap string assignment;
  chk_recognition : bool;
  player_position : Z
}.

(** The state of the recorder window that [_start] reads. *)
Record RecorderWindow : Type := {
  _is_recording : bool;
  rw_assigned : gmap string assignment;
  chk_capture_pad : bool
}.

Section Starting.

Variable ecodes_ABS ecodes_BTN ecodes_KEY : Z -> option ecode_name.
Variable uuid4_hex : nat -> string.
(** [str.strip] *)
Variable str_strip : string -> string.

(** [(slotv.get("name") or f"Participant {slot}").strip() or f"Participant {slot}"] *)
Definition participant_alias (slot : string) (slotv : assignment) : string :=
  let fallback := "Participant " ++ slot in
  let named :=
    match as_name slotv with
    | Some n => if String.eqb n "" then fallback else n
    | None => fallback
    end in
  let stripped := str_strip named in
  if String.eqb stripped "" then fallback else stripped.

(** The body of one [with dbm.get_session() as s:] block of the slot
    loop: a fresh stream row, then its [INIT] event, committed together.
    The recorder passes no calibration and [t = 0]; the observer passes
    the slot's calibration and its [t0]. *)
Definition commit_stream (rec_id sess_id device alias : string)
    (cal_state : option CalibrationState) (t : Z) (db : store) : store * string :=
  let st_id := uuid4_hex (uuids_drawn db) in
  let db := draw_uuid db in
  let stream :=
    {| is_id := st_id; is_session_id := sess_id; is_device_name := device;
       is_profile_id := "gamepad.evdev.v1"; is_alias := alias;
       is_construct_mapping :=
         match cal_state with Some c => get_construct_mapping c | None => ∅ end;
       is_calibration_data := to_dict <$> cal_state;
       is_allowed_inputs := get_allowed_inputs <$> cal_state |} in
  let db := add_stream stream db in
  let ev_id := uuid4_hex (uuids_drawn db) in
  let db := draw_uuid db in
  (add_event (init_event ev_id rec_id sess_id st_id t) db, st_id).

(** One turn of [for slot in ("A", "B")] in [ObserverWindow._start_session]. *)
Definition observer_slot (rec_id sess_id : string) (t0 : Z)
    (assigned : gmap string assignment) (acc : setup) (slot : string) : setup :=
  match assigned !! slot with
  | None => acc
  | Some slotv =>
      let alias := participant_alias slot slotv in
      let cal_state := as_calibration slotv in
      let '(db, st_id) :=
        commit_stream rec_id sess_id (as_path slotv) alias cal_state t0 (su_db acc) in
      {| su_db := db;
         assigned_map := dict_set (as_path slotv) (st_id, alias) (assigned_map acc);
         calibrations :=
           match cal_state with
           | Some c => <[st_id := c]> (calibrations acc)
           | None => calibrations acc
           end |}
  end.

(** One turn of the same loop in [RecorderWindow._start]: no calibration,
    and the marker at [t_ms = 0]. *)
Definition recorder_slot (rec_id sess_id : string)
    (assigned : gmap string assignment) (acc : setup) (slot : string) : setup :=
  match assigned !! slot with
  | None => acc
  | Some slotv =>
      let alias := participant_alias slot slotv in
      let '(db, st_id) :=
        commit_stream rec_id sess_id (as_path slotv) alias None 0 (su_db acc) in
      {| su_db := db;
         assigned_map := dict_set (as_path slotv) (st_id, alias) (assigned_map acc);
         calibrations := calibrations acc |}
  end.

(** [GamepadPoller.start]: one reader per entry of the assignment map. *)
Definition poller_readers (rec_id sess_id : string)
    (assigned : list (string * (string * string)))
    (cals : gmap string CalibrationState) : list Reader :=
  map (fun '(path, (st_id, alias)) =>
         let cal_state := cals !! st_id in
         {| rd_stream_id := st_id; rd_recording_id := rec_id; rd_session_id := sess_id;
            calibration_data := to_dict <$> cal_state;
            allowed_inputs := get_allowed_inputs <$> cal_state |})
      assigned.

(** The safeguard at the top of [_start_session]: a session whose
    recognition check failed may not start. *)
Definition blocked (w : ObserverWindow) (db : store) : bool :=
  match ow_session_id w with
  | Some sid =>
      chk_recognition w && negb (String.eqb sid "")
      && match List.find (fun s => String.eqb (os_id s) sid) (sessions db) with
         | Some s => match recognition_check_passed s with
                     | Some false => true
                     | _ => false
                     end
         | None => false
         end
  | None => false
  end.

(** [ObserverWindow._start_session] up to the start of the poller: the
    store it leaves and the readers it starts. *)
Definition _start_session (w : ObserverWindow) (db : store) : store * list Reader :=
  if blocked w db then (db, [])
  else
    let t0 := player_position w in
    let '(db, sess_id) :=
      match ow_session_id w with
      | Some sid =>
          if String.eqb sid "" then
            let sess_id := uuid4_hex (uuids_drawn db) in
            (add_session {| os_id := sess_id; os_recording_id := ow_recording_id w;
                            os_label := "Observer Session";
                            recognition_check_required := chk_recognition w;
                            recognition_check_passed :=
                              if chk_recognition w then Some true else None |}
               (draw_uuid db), sess_id)
          else (db, sid)
      | None =>
          let sess_id := uuid4_hex (uuids_drawn db) in
          (add_session {| os_id := sess_id; os_recording_id := ow_recording_id w;
                          os_label := "Observer Session";
                          recognition_check_required := chk_recognition w;
                          recognition_check_passed :=
                            if chk_recognition w then Some true else None |}
             (draw_uuid db), sess_id)
      end in
    let su :=
      fold_left (observer_slot (ow_recording_id w) sess_id t0 (ow_assigned w))
        ["A"; "B"]
        {| su_db := db; assigned_map := []; calibrations := ∅ |} in
    (su_db su,
     poller_readers (ow_recording_id w) sess_id (assigned_map su) (calibrations su)).

(** The database part of [RecorderWindow._start]: nothing when a recording
    is already running; otherwise the session row, the slot loop when pad
    capture is ticked, and the readers of the poller.  (The [Recording]
    row takes the first identifier.) *)
Definition _start (w : RecorderWindow) (db : store) : store * list Reader :=
  if _is_recording w then (db, [])
  else
    let rec_id := uuid4_hex (uuids_drawn db) in
    let db := draw_uuid db in
    let sess_id := uuid4_hex (uuids_drawn db) in
    let db := add_session {| os_id := sess_id; os_recording_id := rec_id;
                             os_label := "Recording Session";
                             recognition_check_required := false;
                             recognition_check_passed := None |} (draw_uuid db) in
    let su0 := {| su_db := db; assigned_map := []; calibrations := ∅ |} in
    let su :=
      if chk_capture_pad w
      then fold_left (recorder_slot rec_id sess_id (rw_assigned w)) ["A"; "B"] su0
      else su0 in
    (su_db su, poller_readers rec_id sess_id (assigned_map su) ∅).

(** A whole observer session: start, then whatever the readers commit. *)
Definition observer_session (w : ObserverWindow) (schedule : list (nat * tick))
    (db : store) : store :=
  let '(db1, readers) := _start_session w db in
  poller_run ecodes_ABS ecodes_BTN ecodes_KEY uuid4_hex readers schedule db1.

(** A whole recording: start, then whatever the readers commit. *)
Definition recording (w : RecorderWindow) (schedule : list (nat * tick))
    (db : store) : store :=
  let '(db1, readers) := _start w db in
  poller_run ecodes_ABS ecodes_BTN ecodes_KEY uuid4_hex readers schedule db1.

(** The stream rows added between two states of the store. *)
Definition new_streams (before after : store) : list InputStream :=
  drop (length (streams before)) (streams after).



(** *** How the start extends the store *)













(** *** The claim *)


End Starting.

(** *** An observer session started in the middle of the video *)










End Capture.

(** ** The numpy operations the analysis uses

    A float is read as an exact rational; arrays are lists. *)

Module Numpy.

Local Open Scope Q_scope.

Definition Qltb (x y : Q) : bool := negb (Qle_bool y x).

Definition qmax (x y : Q) : Q := if Qle_bool x y then y else x.
Definition qmin (x y : Q) : Q := if Qle_bool x y then x else y.

(** Insertion into an increasing list without repeats. *)
Fixpoint insert_unique (x : Q) (l : list Q) : list Q :=
  match l with
  | [] => [x]
  | y :: l' =>
      if Qeq_bool x y then l
      else if Qle_bool x y then x :: l
      else y :: insert_unique x l'
  end.

(** [np.unique(a)]: the distinct values of [a], increasing. *)
Definition np_unique (a : list Q) : list Q := foldr insert_unique [] a.

(** Linear interpolation at [x] from the sample [(x0, f0)] on, through
    the later samples [rest]. *)
Fixpoint interp_from (x x0 f0 : Q) (rest : list (Q * Q)) : Q :=
  match rest with
  | [] => f0
  | (x1, f1) :: rest' =>
      if Qltb x x1
      then f0 + (x - x0) * ((f1 - f0) / (x1 - x0))
      else interp_from x x1 f1 rest'
  end.

(** [np.interp(x, xp, fp)] at one point, for increasing [xp] of the length
    of [fp]: [fp[0]] left of the samples, [fp[-1]] right of them, and the
    straight line between the two neighbouring samples in between.  The
    result is kept in lowest terms. *)
Definition interp1 (xp fp : list Q) (x : Q) : Q :=
  match zip xp fp with
  | [] => 0
  | (x0, f0) :: rest =>
      if Qltb x x0 then Qred f0 else Qred (interp_from x x0 f0 rest)
  end.

(** [np.interp(xs, xp, fp)] *)
Definition np_interp (xs xp fp : list Q) : list Q := map (interp1 xp fp) xs.

(** [np.arange(start, stop, 1)] *)
Definition np_arange (start stop : Q) : list Q :=
  map (fun k : nat => Qred (start + inject_Z (Z.of_nat k)))
      (seq 0%nat (Z.to_nat (Qceiling (stop - start)))).

Definition np_sum (a : list Q) : Q := foldr Qplus 0 a.

Definition np_mean (a : list Q) : Q := np_sum a / inject_Z (Z.of_nat (length a)).

(** [np.var(a)], the biased variance. *)
Definition np_var (a : list Q) : Q :=
  let m := np_mean a in np_mean (map (fun x => (x - m) * (x - m)) a).

(** Square root to 53 binary places, exact on squares of such numbers. *)
Definition q_sqrt (x : Q) : Q :=
  Qred (Z.sqrt (Qfloor (x * inject_Z (2 ^ 106)%Z)) # 2 ^ 53).

(** [np.std(a)] *)
Definition np_std (a : list Q) : Q := q_sqrt (np_var a).

(** [np.diff(a)] *)
Fixpoint np_diff (a : list Q) : list Q :=
  match a with
  | x :: ((y :: _) as a') => (y - x) :: np_diff a'
  | _ => []
  end.

(** [np.min(a)] and [np.max(a)] of a non-empty array. *)
Definition np_min (a : list Q) : Q :=
  match a with [] => 0 | x :: a' => foldl qmin x a' end.
Definition np_max (a : list Q) : Q :=
  match a with [] => 0 | x :: a' => foldl qmax x a' end.

(** [np.argmax(a)]: the first position of the largest entry. *)
Fixpoint argmax_from (best : Q) (best_i i : nat) (a : list Q) : nat :=
  match a with
  | [] => best_i
  | x :: a' =>
      if Qltb best x then argmax_from x i (S i) a'
      else argmax_from best best_i (S i) a'
  end.
Definition np_argmax (a : list Q) : nat :=
  match a with [] => 0%nat | x :: a' => argmax_from x 0%nat 1%nat a' end.

(** [np.correlate(a, v, mode='full')] for [a] and [v] of one length [n]:
    entry [j] is the sum of [a[i + j - (n - 1)] * v[i]] over the [i] for
    which both exist. *)
Definition np_correlate_full (a v : list Q) : list Q :=
  let n := length a in
  map (fun j : nat =>
         np_sum (imap (fun i vi =>
                         if (n - 1 <=? i + j)%nat
                         then nth (i + j - (n - 1)) a 0 * vi
                         else 0) v))
      (seq 0%nat (2 * n - 1)%nat).

End Numpy.

(** ** [hsparc/analysis]: alignment and the pairwise analysis *)

Module Analyzer.

Import PyNum Numpy.
Local Open Scope Q_scope.

(** [{"times_ms": array, "values": array}] *)
Record trace : Type := {
  times_ms : list Q;
  values : list Q
}.

(** The thresholds of [ComprehensiveTraceAnalyzer] at their defaults. *)
Definition convergence_threshold : Q := 3 # 10.
Definition divergence_threshold : Q := 7 # 10.

(** [_align_traces]; [None] stands for the [IndexError] of an empty
    trace. *)
Definition _align_traces (data1 data2 : trace)
    : option (list Q * list Q * list Q) :=
  first1 ← head (times_ms data1);
  first2 ← head (times_ms data2);
  last1 ← last (times_ms data1);
  last2 ← last (times_ms data2);
  let min_time := qmax first1 first2 in
  let max_time := qmin last1 last2 in
  let all_times := np_unique (times_ms data1 ++ times_ms data2) in
  let common_times :=
    List.filter (fun t => Qle_bool min_time t && Qle_bool t max_time) all_times in
  let aligned_values1 := np_interp common_times (times_ms data1) (values data1) in
  let aligned_values2 := np_interp common_times (times_ms data2) (values data2) in
  Some (common_times, aligned_values1, aligned_values2).

(** The largest and the smallest of a non-empty list; [None] is the
    [ValueError] of [max()] and [min()] on nothing. *)
Definition py_max (l : list Q) : option Q :=
  match l with [] => None | x :: l' => Some (foldl qmax x l') end.
Definition py_min (l : list Q) : option Q :=
  match l with [] => None | x :: l' => Some (foldl qmin x l') end.

(** [_align_multiple_traces] over the traces in dictionary order. *)
Definition _align_multiple_traces (trace_data : list (string * trace))
    : option (list Q * list (string * list Q)) :=
  firsts ← mapM (fun d => head (times_ms d.2)) trace_data;
  lasts ← mapM (fun d => last (times_ms d.2)) trace_data;
  min_time ← py_max firsts;
  max_time ← py_min lasts;
  let unique_times := np_unique (concat (map (fun d => times_ms d.2) trace_data)) in
  let common_times :=
    List.filter (fun t => Qle_bool min_time t && Qle_bool t max_time) unique_times in
  Some (common_times,
        map (fun d => (d.1, np_interp common_times (times_ms d.2) (values d.2)))
            trace_data).

(** What [ConvergenceAnalyzer._align_time_series] ends with. *)
Inductive alignment : Type :=
| Aligned (common_times : list Q) (aligned_signals : list (string * list Q))
| NoAlignment            (* returns None *)
| AlignmentError.        (* max() or min() of nothing *)

(** [_align_time_series] of convergence.py *)
Definition _align_time_series (participant_data : list (string * trace)) : alignment :=
  match participant_data with
  | [] => NoAlignment
  | _ =>
      let firsts := omap (fun d => head (times_ms d.2)) participant_data in
      let lasts := omap (fun d => last (times_ms d.2)) participant_data in
      match py_max firsts, py_min lasts, py_min firsts, py_max lasts with
      | Some min_time, Some max_time, Some broad_min, Some broad_max =>
          let '(min_time, max_time) :=
            if Qle_bool max_time min_time then (broad_min, broad_max)
            else (min_time, max_time) in
          if Qle_bool max_time min_time then NoAlignment
          else
            let common_times := np_arange min_time max_time in
            let aligned_signals :=
              omap (fun d =>
                      if (length (times_ms d.2) <? 2)%nat then None
                      else Some (d.1, np_interp common_times (times_ms d.2) (values d.2)))
                   participant_data in
            if (length aligned_signals <? 2)%nat then NoAlignment
            else Aligned common_times aligned_signals
      | _, _, _, _ => AlignmentError
      end
  end.

(** The specification's resampling rule at one point: the value of the
    most recent sample at or before [x], the first value when there is
    none. *)
Definition last_value_carried_forward (xp fp : list Q) (x : Q) : Q :=
  match last (List.filter (fun s => Qle_bool s.1 x) (zip xp fp)) with
  | Some s => s.2
  | None => match fp with [] => 0 | f0 :: _ => f0 end
  end.

(** [a[i]] with Python's reading of a negative index. *)
Definition py_getitem (a : list Q) (i : Z) : Q :=
  if (i <? 0)%Z then nth (Z.to_nat (Z.of_nat (length a) + i)) a 0
  else nth (Z.to_nat i) a 0.

(** [a[lo:hi]] *)
Definition py_slice (a : list Q) (lo hi : nat) : list Q := take (hi - lo) (drop lo a).

(** The variables of the scan in [_detect_convergence_divergence]. *)
Record scan : Type := {
  in_convergence : bool;
  in_divergence : bool;
  start_idx : nat;
  found_convergence : list (Z * Z * Q);
  found_divergence : list (Z * Z * Q)
}.

(** One turn of [for i, d in enumerate(norm_dist)]. *)
Definition scan_step (times_ms norm_dist : list Q) (st : scan) (i : nat) (d : Q) : scan :=
  let st :=
    if Qltb d convergence_threshold && negb (in_convergence st) then
      {| in_convergence := true; in_divergence := in_divergence st; start_idx := i;
         found_convergence := found_convergence st;
         found_divergence := found_divergence st |}
    else if Qle_bool convergence_threshold d && in_convergence st then
      let t_end := py_getitem times_ms (Z.of_nat i - 1) in
      let t_start := nth (start_idx st) times_ms 0 in
      let duration_ms := py_int (t_end - t_start) in
      {| in_convergence := false; in_divergence := in_divergence st;
         start_idx := start_idx st;
         found_convergence :=
           if (500 <? duration_ms)%Z
           then found_convergence st
                ++ [(py_int t_start, py_int t_end,
                     1 - np_mean (py_slice norm_dist (start_idx st) i))]
           else found_convergence st;
         found_divergence := found_divergence st |}
    else st in
  if Qltb divergence_threshold d && negb (in_divergence st) then
    {| in_convergence := in_convergence st; in_divergence := true; start_idx := i;
       found_convergence := found_convergence st;
       found_divergence := found_divergence st |}
  else if Qle_bool d divergence_threshold && in_divergence st then
    let t_end := py_getitem times_ms (Z.of_nat i - 1) in
    let t_start := nth (start_idx st) times_ms 0 in
    let duration_ms := py_int (t_end - t_start) in
    {| in_convergence := in_convergence st; in_divergence := false;
       start_idx := start_idx st;
       found_convergence := found_convergence st;
       found_divergence :=
         if (500 <? duration_ms)%Z
         then found_divergence st
              ++ [(py_int t_start, py_int t_end,
                   np_mean (py_slice norm_dist (start_idx st) i))]
         else found_divergence st |}
  else st.

Fixpoint scan_from (times_ms norm_dist : list Q) (st : scan) (i : nat) (rest : list Q)
    : scan :=
  match rest with
  | [] => st
  | d :: rest' =>
      scan_from times_ms norm_dist (scan_step times_ms norm_dist st i d) (S i) rest'
  end.

Definition _detect_convergence_divergence (times_ms distances : list Q)
    : list (Z * Z * Q) * list (Z * Z * Q) :=
  if (length distances <? 10)%nat then ([], [])
  else
    let d_min := np_min distances in
    let d_max := np_max distances in
    if Qltb (d_max - d_min) (1 # 1000) then ([], [])
    else
      let norm_dist := map (fun d => (d - d_min) / (d_max - d_min)) distances in
      let st :=
        scan_from times_ms norm_dist
          {| in_convergence := false; in_divergence := false; start_idx := 0%nat;
             found_convergence := []; found_divergence := [] |}
          0%nat norm_dist in
      (found_convergence st, found_divergence st).

Definition _compute_lead_lag (values1 values2 times_ms : list Q) : Z * Q :=
  if (length values1 <? 10)%nat then (0%Z, 0)
  else
    let m1 := np_mean values1 in
    let m2 := np_mean values2 in
    let correlation :=
      np_correlate_full (map (fun v => v - m1) values1) (map (fun v => v - m2) values2) in
    let scale := np_std values1 * np_std values2 * inject_Z (Z.of_nat (length values1)) in
    let correlation := map (fun c => c / scale) correlation in
    let max_idx := np_argmax (map Qabs correlation) in
    let optimal_lag_samples := (Z.of_nat max_idx - (Z.of_nat (length values1) - 1))%Z in
    let optimal_lag_ms :=
      if (1 <? length times_ms)%nat then
        let avg_interval_ms :=
          (py_getitem times_ms (-1) - nth 0 times_ms 0)
          / inject_Z (Z.of_nat (length times_ms) - 1) in
        py_int (inject_Z optimal_lag_samples * avg_interval_ms)
      else 0%Z in
    (optimal_lag_ms, nth max_idx correlation 0).

Definition _detect_opposite_movements (times_ms values1 values2 : list Q) : list Z :=
  if (length values1 <? 2)%nat then []
  else
    let diff1 := np_diff values1 in
    let diff2 := np_diff values2 in
    let threshold := qmax (np_std diff1) (np_std diff2) * (1 # 2) in
    let opposite :=
      omap (fun '(i, (a, b)) =>
              if Qltb (a * b) 0 && Qltb threshold (Qabs a) && Qltb threshold (Qabs b)
              then Some i else None)
           (imap (fun i ab => (i, ab)) (zip diff1 diff2)) in
    map (fun i => py_int (nth i times_ms 0))
        (List.filter (fun i => (i <? length times_ms - 1)%nat) opposite).

(** The fields of [PairwiseResults] that report events and the lead-lag;
    the correlation and distance summaries are left out. *)
Record PairwiseResults : Type := {
  convergence_events : list (Z * Z * Q);
  divergence_events : list (Z * Z * Q);
  optimal_lag_ms : Z;
  max_cross_correlation : Q;
  simultaneous_peaks : list Z;
  opposite_movements : list Z
}.

(** What [_analyze_pairwise] returns. *)
Inductive analysis : Type :=
| Pairwise (r : PairwiseResults)
| EmptyResults          (* analysis_type "none" *)
| AnalysisError.        (* an empty trace *)

(** Two short traces moving against each other. *)
Definition rising : trace := {| times_ms := [0; 10]; values := [0; 1] |}.
Definition falling : trace := {| times_ms := [0; 10]; values := [1; 0] |}.

(** A ramp sampled at its ends, and a flat trace with a sample in the
    middle. *)
Definition ramp : trace := {| times_ms := [0; 10]; values := [0; 10] |}.
Definition flat : trace := {| times_ms := [0; 5; 10]; values := [1; 1; 1] |}.

Section Pairwise.

(** [scipy.signal.find_peaks(x, distance=d)]: the positions of the peaks. *)
Variable find_peaks : list Q -> Z -> list nat.

Definition _detect_simultaneous_peaks (times_ms values1 values2 : list Q) : list Z :=
  if (length values1 <? 3)%nat then []
  else
    let peaks1 := find_peaks values1 10 in
    let peaks2 := find_peaks values2 10 in
    let window_ms := 500 in
    omap (fun p1 =>
            let t1 := nth p1 times_ms 0 in
            match List.find (fun p2 => Qltb (Qabs (t1 - nth p2 times_ms 0)) window_ms)
                    peaks2 with
            | Some p2 => Some (py_int ((t1 + nth p2 times_ms 0) / 2))
            | None => None
            end)
         peaks1.

Definition _analyze_pairwise (data1 data2 : trace) : analysis :=
  match _align_traces data1 data2 with
  | None => AnalysisError
  | Some (times_ms, values1, values2) =>
      if (length times_ms <? 2)%nat then EmptyResults
      else
        let distances := map (fun '(v1, v2) => Qabs (v1 - v2)) (zip values1 values2) in
        let '(conv_events, div_events) :=
          _detect_convergence_divergence times_ms distances in
        let '(optimal_lag, max_cc) := _compute_lead_lag values1 values2 times_ms in
        Pairwise
          {| convergence_events := conv_events;
             divergence_events := div_events;
             optimal_lag_ms := optimal_lag;
             max_cross_correlation := max_cc;
             simultaneous_peaks := _detect_simultaneous_peaks times_ms values1 values2;
             opposite_movements := _detect_opposite_movements times_ms values1 values2 |}
  end.

(** The specification's wording for a pair of traces: with fewer than
    ten aligned samples the lead-lag is zero and all four event lists are
    empty. *)
Definition spec_short_pair_is_quiet (data1 data2 : trace) : Prop :=
  forall times v1 v2,
    _align_traces data1 data2 = Some (times, v1, v2) ->
    (length times < 10)%nat ->
    exists r, _analyze_pairwise data1 data2 = Pairwise r
              /\ optimal_lag_ms r = 0%Z /\ max_cross_correlation r = 0
              /\ convergence_events r = [] /\ divergence_events r = []
              /\ simultaneous_peaks r = [] /\ opposite_movements r = [].

(** *** Alignment *)

Lemma length_np_interp (xs xp fp : list Q) : length (np_interp xs xp fp) = length xs.
Proof. unfold np_interp. apply length_map. Qed.

Lemma align_traces_lengths data1 data2 times v1 v2 :
  _align_traces data1 data2 = Some (times, v1, v2) ->
  length v1 = length times /\ length v2 = length times.
Proof.
  unfold _align_traces.
  destruct (head (times_ms data1)); [|discriminate].
  destruct (head (times_ms data2)); [|discriminate].
  destruct (last (times_ms data1)); [|discriminate].
  destruct (last (times_ms data2)); [|discriminate].
  cbn. intros [= <- <- <-]. split; apply length_np_interp.
Qed.

(** C1, evaluated.  All three aligners resample with [np.interp], which
    draws a straight line between neighbouring samples.  The ramp that is
    sampled at 0 ms (value 0) and at 10 ms (value 10) is given the value 5
    on the common timeline point 5 ms, and the values 1 to 9 on the points
    in between on the millisecond grid; carrying the last value forward
    gives 0 there. *)
Theorem alignment_interpolates_linearly :
  _align_traces ramp flat = Some ([0; 5; 10], [0; 5; 10], [1; 1; 1])
  /\ _align_multiple_traces [("a", ramp); ("b", flat); ("c", flat)]%string
     = Some ([0; 5; 10],
             [("a", [0; 5; 10]); ("b", [1; 1; 1]); ("c", [1; 1; 1])]%string)
  /\ _align_time_series [("a", ramp); ("b", flat)]%string
     = Aligned [0; 1; 2; 3; 4; 5; 6; 7; 8; 9]
         [("a", [0; 1; 2; 3; 4; 5; 6; 7; 8; 9]);
          ("b", [1; 1; 1; 1; 1; 1; 1; 1; 1; 1])]%string
  /\ map (last_value_carried_forward (times_ms ramp) (values ramp)) [0; 5; 10]
     = [0; 0; 10].
Proof. repeat split; vm_compute; reflexivity. Qed.

(** *** Short pairs *)

(** C7, as amended.  When the aligned timeline of two traces has fewer
    than ten samples: with fewer than two the analysis returns the empty
    results; otherwise the pairwise results report a lead-lag of zero
    ([optimal_lag_ms = 0], cross-correlation [0.0]) and no convergence and
    no divergence events, and with fewer than three samples no
    simultaneous peaks either. *)
Theorem short_pair_analysis (data1 data2 : trace) (times v1 v2 : list Q) :
  _align_traces data1 data2 = Some (times, v1, v2) ->
  (length times < 10)%nat ->
  ((length times < 2)%nat /\ _analyze_pairwise data1 data2 = EmptyResults)
  \/ (exists r, _analyze_pairwise data1 data2 = Pairwise r
               /\ optimal_lag_ms r = 0%Z /\ max_cross_correlation r = 0
               /\ convergence_events r = [] /\ divergence_events r = []
               /\ ((length times < 3)%nat -> simultaneous_peaks r = [])).
Proof.
  intros Halign Hshort.
  destruct (align_traces_lengths _ _ _ _ _ Halign) as [Hl1 Hl2].
  unfold _analyze_pairwise. rewrite Halign.
  destruct (Nat.ltb_spec (length times) 2) as [Hlt | Hge]; [left; auto|].
  right.
  assert (_detect_convergence_divergence times
            (map (fun '(a, b) => Qabs (a - b)) (zip v1 v2)) = ([], [])) as ->.
  { unfold _detect_convergence_divergence.
    rewrite length_map, length_zip, Hl1, Hl2, Nat.min_id.
    destruct (Nat.ltb_spec (length times) 10); [reflexivity | lia]. }
  assert (_compute_lead_lag v1 v2 times = (0%Z, 0)) as ->.
  { unfold _compute_lead_lag. rewrite Hl1.
    destruct (Nat.ltb_spec (length times) 10); [reflexivity | lia]. }
  eexists. split; [reflexivity|]. cbn.
  do 4 (split; [reflexivity|]).
  intros Hlt3. unfold _detect_simultaneous_peaks. rewrite Hl1.
  destruct (Nat.ltb_spec (length times) 3); [reflexivity | lia].
Qed.

End Pairwise.

(** A peak finder that never reports a peak. *)
Definition no_peaks (x : list Q) (distance : Z) : list nat := [].

Lemma rising_falling_aligned :
  _align_traces rising falling = Some ([0; 10], [0; 1], [1; 0]).
Proof. vm_compute. reflexivity. Qed.

(** C7, counterexample.  Two samples each, one trace rising and one
    falling: the aligned timeline has two samples, and the analysis
    reports an opposite movement at 0 ms. *)
Lemma short_pair_reports_opposite_movement :
  ~ spec_short_pair_is_quiet no_peaks rising falling.
Proof.
  intros Hspec.
  destruct (Hspec _ _ _ rising_falling_aligned ltac:(simpl; lia))
    as (r & Hrun & _ & _ & _ & _ & _ & Hopp).
  vm_compute in Hrun. injection Hrun as <-. discriminate Hopp.
Qed.

(** The two-sample pair: zero lead-lag and no convergence, divergence or
    simultaneous-peak events. *)
Lemma short_pair_analysis_witness :
  exists r, _analyze_pairwise no_peaks rising falling = Pairwise r
            /\ optimal_lag_ms r = 0%Z /\ max_cross_correlation r = 0
            /\ convergence_events r = [] /\ divergence_events r = []
            /\ simultaneous_peaks r = [].
Proof.
  destruct (short_pair_analysis no_peaks rising falling _ _ _
              rising_falling_aligned ltac:(simpl; lia))
    as [[Hlt _] | (r & Hrun & Hlag & Hcc & Hconv & Hdiv & Hsim)].
  - simpl in Hlt. lia.
  - exists r. do 5 (split; [assumption|]). apply Hsim. simpl. lia.
Defined.

End Analyzer.

(** ** [hsparc/utils/timeseries_converter.py] *)

Module TimeSeries.

Import PyNum Numpy.
Local Open Scope Q_scope.

(** What [convert_axis_events] ends with. *)
Inductive conversion : Type :=
| Return (regular_times_ms regular_values : list Z)
| ValueError (msg : string)
| Unrepresentable.     (* a number that does not fit [np.int32] *)

Definition int32_min : Z := (- 2 ^ 31)%Z.
Definition int32_max : Z := (2 ^ 31 - 1)%Z.


(** [x.astype(np.int32)] on one float: truncation toward zero; numpy
    leaves the result unspecified when it does not fit. *)
Definition astype_int32 (x : Q) : option Z :=
  let z := py_int x in
  if ((int32_min <=? z) && (z <=? int32_max))%Z then Some z else None.

Record TimeSeriesConverter : Type := {
  sampling_rate_hz : Z;
  interval_ms : Q
}.

(** [TimeSeriesConverter(sampling_rate_hz)]; [None] is the [ValueError]
    for a rate that is not positive. *)
Definition __init__ (rate : Z) : option TimeSeriesConverter :=
  if (rate <=? 0)%Z then None
  else Some {| sampling_rate_hz := rate; interval_ms := 1000 / inject_Z rate |}.

(** [while event_idx < len(times_array) - 1 and times_array[event_idx + 1] <= t:
       event_idx += 1], with [pending] the entries of [times_array] after
    position [event_idx]. *)
Fixpoint advance (t : Q) (pending : list Q) (event_idx : nat) : nat :=
  match pending with
  | [] => event_idx
  | t_next :: pending' =>
      if Qle_bool t_next t then advance t pending' (S event_idx) else event_idx
  end.

(** [for i, t in enumerate(regular_times)]: the stepped values, with
    [event_idx] kept from one sample to the next. *)
Fixpoint step_values (times_array values_array regular_times : list Q) (event_idx : nat)
    : list Q :=
  match regular_times with
  | [] => []
  | t :: regular_times' =>
      let event_idx := advance t (drop (S event_idx) times_array) event_idx in
      nth event_idx values_array 0
        :: step_values times_array values_array regular_times' event_idx
  end.

(** [np.arange(num_samples) * self.interval_ms] *)
Definition sample_times (interval : Q) (num_samples : Z) : list Q :=
  map (fun i : nat => inject_Z (Z.of_nat i) * interval) (seq 0%nat (Z.to_nat num_samples)).

Definition convert_axis_events (self : TimeSeriesConverter)
    (times_ms values : list Z) (interpolation : string) : conversion :=
  match times_ms, values with
  | [], _ | _, [] => Return [] []
  | _, _ =>
      if negb (length times_ms =? length values)%nat
      then ValueError "times_ms and values must have same length"
      else
        let times_array := map inject_Z times_ms in
        let values_array := map inject_Z values in
        let max_time := List.last times_array 0 in
        let num_samples := (Qceiling (max_time / interval_ms self) + 1)%Z in
        let regular_times := sample_times (interval_ms self) num_samples in
        let regular_values :=
          if String.eqb interpolation "forward_fill"
          then Some (step_values times_array values_array regular_times 0%nat)
          else if String.eqb interpolation "linear"
          then Some (np_interp regular_times times_array values_array)
          else None in
        match regular_values with
        | None => ValueError "Unknown interpolation method"
        | Some regular_values =>
            match mapM astype_int32 regular_times,
                  mapM (fun v => astype_int32 (inject_Z (py_round v))) regular_values with
            | Some regular_times_int, Some regular_values_int =>
                Return regular_times_int regular_values_int
            | _, _ => Unrepresentable
            end
        end
  end.

(** [events_to_timeseries] *)
Definition events_to_timeseries (times_ms values : list Z) (sampling_rate_hz : Z)
    (interpolation : string) : conversion :=
  match __init__ sampling_rate_hz with
  | None => ValueError "Sampling rate must be positive"
  | Some converter => convert_axis_events converter times_ms values interpolation
  end.






(** Sample times that do not decrease, starting at or after [lo]. *)
Fixpoint ascending (lo : Q) (ts : list Q) : Prop :=
  match ts with
  | [] => True
  | t :: ts' => lo <= t /\ ascending t ts'
  end.


(** *** The stepping loop *)


Lemma Qle_bool_false x y : Qle_bool x y = false -> y < x.
Proof.
  intros H. apply Qnot_le_lt. intros Hle. apply Qle_bool_iff in Hle. congruence.
Qed.




Lemma Zle_Qfloor (z : Z) (t : Q) : inject_Z z <= t <-> (z <= Qfloor t)%Z.
Proof.
  split; intros H.
  - apply Qfloor_resp_le in H. rewrite Qfloor_Z in H. exact H.
  - apply Qle_trans with (inject_Z (Qfloor t)); [|apply Qfloor_le].
    rewrite <- Zle_Qle. exact H.
Qed.



Lemma py_int_nonneg (t : Q) : 0 <= t -> py_int t = Qfloor t.
Proof. intros H. unfold py_int. apply Qle_bool_iff in H. rewrite H. reflexivity. Qed.







Lemma ascending_map_seq (f : nat -> Q) :
  (forall i : nat, f i <= f (S i)) ->
  forall n a lo, lo <= f a -> ascending lo (map f (seq a n)).
Proof.
  intros Hmono n. induction n as [|n IH]; intros a lo Hlo; cbn; [exact I|].
  split; [exact Hlo|]. apply IH, Hmono.
Qed.


Lemma last_inject_Z (l : list Z) (d : Z) :
  List.last (map inject_Z l) (inject_Z d) = inject_Z (List.last l d).
Proof.
  induction l as [|a l IH]; [reflexivity|].
  destruct l as [|b l]; [reflexivity|]. exact IH.
Qed.








End TimeSeries.

(** ** More of [study_encryption.py]: what sealing and opening leave on
       disk, and [encrypt_study_folder] *)

Module SealingFacts.

Import StudyEncryption.
Local Open Scope string_scope.

(** The prefix that the paths below the directory [dir] share. *)
Definition dir_prefix (dir : string) : string :=
  if PyStr.ends_with_slash dir then dir else dir ++ "/".

(** The files [os.walk(study_path)] comes across, as
    [os.path.join(root, filename)]: the files whose path lies below
    [study_path].  Every directory is listed before any file in it is
    sealed, so the listing is that of the file system at the start. *)
Definition walk_files (study_path : string) (fs : gmap string bytes) : list string :=
  List.filter (PyStr.startswith (dir_prefix study_path)) (map_to_list fs).*1.

(** [not filename.endswith('.enc')] for the file at [filepath]. *)
Definition is_plain (filepath : string) : bool :=
  negb (PyStr.endswith ".enc" (PyStr.basename filepath)).

Section Folder.

Variable pbkdf2_hmac_sha256 : bytes -> N -> N -> bytes -> bytes.
Variable urlsafe_b64encode : bytes -> bytes.
Variable fernet_encrypt : bytes -> bytes -> bytes -> bytes.
Variable fernet_decrypt : bytes -> bytes -> option bytes.

(** The loop of [encrypt_study_folder] over the files found.  Each call
    of [encrypt_file] meets the operating system anew: [envs filepath] is
    what it does to the call for [filepath]. *)
Fixpoint encrypt_each (files : list string) (study_id pin : string)
    (envs : string -> io_env) (fs : gmap string bytes)
    : gmap string bytes * outcome unit :=
  match files with
  | [] => (fs, Return tt)
  | filepath :: files' =>
      if is_plain filepath then
        match encrypt_file pbkdf2_hmac_sha256 urlsafe_b64encode fernet_encrypt
                filepath study_id pin (envs filepath) fs with
        | (fs1, Return _) => encrypt_each files' study_id pin envs fs1
        | (fs1, Raise e) => (fs1, Raise e)
        end
      else encrypt_each files' study_id pin envs fs
  end.

Definition encrypt_study_folder (study_path study_id pin : string)
    (envs : string -> io_env) (fs : gmap string bytes)
    : gmap string bytes * outcome unit :=
  encrypt_each (walk_files study_path fs) study_id pin envs fs.

(** The token [encrypt_file] writes for [data]. *)
Definition sealed (study_id pin : string) (r data : bytes) : bytes :=
  fernet_encrypt
    (derive_key_from_pin pbkdf2_hmac_sha256 urlsafe_b64encode study_id pin) r data.

Lemma encrypt_file_run filepath study_id pin data r (fs : gmap string bytes) :
  fs !! filepath = Some data ->
  encrypt_file pbkdf2_hmac_sha256 urlsafe_b64encode fernet_encrypt
    filepath study_id pin (no_faults r) fs
  = (delete filepath (<[filepath ++ ".enc" := sealed study_id pin r data]> fs),
     Return (filepath ++ ".enc")).
Proof.
  intros Hfile. destruct (enc_path_openable filepath) as [Hne Hdir].
  unfold encrypt_file, mbind, io_bind, bind.
  rewrite (read_file_ok _ data) by (reflexivity || assumption).
  unfold seal. cbn [fault_seal no_faults entropy].
  rewrite write_file_ok by assumption.
  unfold os_remove. cbn [fault_remove no_faults].
  rewrite lookup_insert_ne by (apply not_eq_sym, enc_path_differs).
  rewrite Hfile. reflexivity.
Qed.

(** X1.  With nothing going wrong, [encrypt_file] on a file that is
    there returns the path with [".enc"] appended; afterwards the
    plaintext path is gone, the sealed path holds the Fernet token of the
    data under the key of study and PIN, and every other path is as it
    was. *)
Theorem encrypt_file_replaces_plaintext filepath study_id pin data r
    (fs : gmap string bytes) :
  fs !! filepath = Some data ->
  exists fs',
    encrypt_file pbkdf2_hmac_sha256 urlsafe_b64encode fernet_encrypt
      filepath study_id pin (no_faults r) fs = (fs', Return (filepath ++ ".enc"))
    /\ fs' !! filepath = None
    /\ fs' !! (filepath ++ ".enc") = Some (sealed study_id pin r data)
    /\ forall q, q <> filepath -> q <> filepath ++ ".enc" -> fs' !! q = fs !! q.
Proof.
  intros Hfile. eexists. split; [apply encrypt_file_run, Hfile|].
  split; [apply lookup_delete_eq|]. split.
  - rewrite lookup_delete_ne by apply enc_path_differs. apply lookup_insert_eq.
  - intros q Hq Hq'. rewrite lookup_delete_ne, lookup_insert_ne by auto. reflexivity.
Qed.

(** X2.  On a path that does not exist (reading itself not failing),
    [encrypt_file] and [decrypt_file] both end with [FileNotFoundError]
    for that path and leave the file system as it was: no sealed file
    and no temporary file is created. *)
Theorem missing_file_raises path study_id pin env (fs : gmap string bytes) :
  fs !! path = None ->
  fault_read env = false ->
  encrypt_file pbkdf2_hmac_sha256 urlsafe_b64encode fernet_encrypt
    path study_id pin env fs = (fs, Raise (FileNotFoundError path))
  /\ decrypt_file pbkdf2_hmac_sha256 urlsafe_b64encode fernet_decrypt
       path study_id pin env fs = (fs, Raise (FileNotFoundError path)).
Proof.
  intros Hnone Hread.
  unfold encrypt_file, decrypt_file, mbind, io_bind, bind, read_file.
  rewrite Hread, Hnone. split; reflexivity.
Qed.

Lemma length_replace_from s : forall skip,
  (String.length (PyStr.replace_from ".enc" "" skip s) <= String.length s - skip)%nat.
Proof.
  induction s as [|c s IH]; intros skip; [simpl; lia|].
  destruct skip as [|k]; cbn [PyStr.replace_from String.length].
  - destruct (PyStr.startswith ".enc" (String c s)).
    + rewrite append_empty. specialize (IH 3%nat).
      change (4 - 1)%nat with 3%nat. lia.
    + cbn [String.length]. specialize (IH 0%nat). lia.
  - apply IH.
Qed.

Lemma startswith_refl s : PyStr.startswith s s = true.
Proof. induction s as [|c s IH]; [reflexivity|]. cbn. rewrite Ascii.eqb_refl. exact IH. Qed.

(** A string that [replace('.enc', '')] leaves as it is does not end in
    [".enc"]. *)
Lemma replace_fixed_not_sealed s :
  PyStr.replace ".enc" "" s = s -> PyStr.endswith ".enc" s = false.
Proof.
  unfold PyStr.replace. induction s as [|c s IH]; intros Hfix; [reflexivity|].
  cbn [PyStr.replace_from] in Hfix.
  destruct (PyStr.startswith ".enc" (String c s)) eqn:Hp.
  - exfalso. apply (f_equal String.length) in Hfix.
    pose proof (length_replace_from s 3) as Hlen.
    rewrite append_empty in Hfix.
    change (String.length ".enc" - 1)%nat with 3%nat in Hfix.
    cbn [String.length] in Hfix. lia.
  - injection Hfix as Hfix. cbn [PyStr.endswith].
    destruct (String.eqb_spec (String c s) ".enc") as [Heq | _].
    + rewrite Heq, startswith_refl in Hp. discriminate.
    + apply IH, Hfix.
Qed.

Lemma basename_tmp name :
  PyStr.has_slash name = false -> PyStr.basename ("/tmp/" ++ name) = name.
Proof. intros H. apply (basename_app_slash "/tmp" name H). Qed.

(** X3.  When the sealed file's name ends in [".enc"], a run of
    [decrypt_file] that returns has written a path other than the sealed
    file: the sealed file is as it was, and so is every path but the
    returned one. *)
Theorem decrypt_file_keeps_sealed_file encrypted_path study_id pin env
    (fs fs' : gmap string bytes) temp_path :
  PyStr.endswith ".enc" (PyStr.basename encrypted_path) = true ->
  decrypt_file pbkdf2_hmac_sha256 urlsafe_b64encode fernet_decrypt
    encrypted_path study_id pin env fs = (fs', Return temp_path) ->
  temp_path <> encrypted_path
  /\ fs' !! encrypted_path = fs !! encrypted_path
  /\ forall q, q <> temp_path -> fs' !! q = fs !! q.
Proof.
  intros Hsealed Hrun.
  assert (temp_path = "/tmp/" ++ PyStr.basename (PyStr.replace ".enc" "" encrypted_path)
          /\ forall q, q <> temp_path -> fs' !! q = fs !! q) as [Htemp Hother].
  { revert Hrun.
    unfold decrypt_file, mbind, io_bind, bind, read_file, unseal, write_file.
    destruct (fault_read env); [discriminate|].
    destruct (fs !! encrypted_path); [|discriminate].
    destruct (fernet_decrypt _ _); [|discriminate]. unfold ret at 1.
    destruct (String.eqb _ ""); [discriminate|].
    destruct (PyStr.ends_with_slash _); [discriminate|].
    destruct (fault_open_write env); [discriminate|].
    destruct (fault_write env); [discriminate|].
    unfold mret, io_ret, ret. intros [= <- <-]. split; [reflexivity|].
    intros q Hq. apply lookup_insert_ne. auto. }
  assert (temp_path <> encrypted_path) as Hne.
  { intros Heq. apply (f_equal PyStr.basename) in Heq.
    rewrite Htemp, basename_tmp in Heq by apply has_slash_basename.
    rewrite basename_replace_enc in Heq.
    apply replace_fixed_not_sealed in Heq. congruence. }
  split; [exact Hne|]. split; [apply Hother; auto | exact Hother].
Qed.


(** *** Sealing a folder *)

Lemma append_inj_l (c : string) : forall a b : string, a ++ c = b ++ c -> a = b.
Proof.
  induction a as [|x a IH]; intros [|y b] Heq.
  - reflexivity.
  - exfalso. apply (f_equal String.length) in Heq.
    rewrite append_empty, length_append in Heq. cbn [String.length] in Heq. lia.
  - exfalso. apply (f_equal String.length) in Heq.
    rewrite append_empty, length_append in Heq. cbn [String.length] in Heq. lia.
  - rewrite !append_cons in Heq. injection Heq as -> Heq.
    f_equal. apply IH, Heq.
Qed.

Lemma startswith_append (p s t : string) :
  PyStr.startswith p s = true -> PyStr.startswith p (s ++ t) = true.
Proof.
  revert s. induction p as [|a p IH]; intros s Hs; [reflexivity|].
  destruct s as [|b s]; [discriminate|].
  rewrite append_cons. cbn [PyStr.startswith] in *.
  destruct (Ascii.eqb a b); [apply IH, Hs | discriminate].
Qed.

Lemma sealed_name_not_plain p : is_plain (p ++ ".enc") = false.
Proof.
  unfold is_plain. rewrite basename_append by reflexivity.
  rewrite endswith_append. reflexivity.
Qed.

Lemma plain_not_sealed_name p q : is_plain q = true -> q <> p ++ ".enc".
Proof. intros Hq ->. rewrite sealed_name_not_plain in Hq. discriminate. Qed.

(** Whatever happens to it, [encrypt_file] touches the plaintext and the
    sealed path only, and removes the plaintext only after the sealed
    copy is complete. *)
Lemma encrypt_file_footprint filepath study_id pin env (fs fs' : gmap string bytes) out :
  encrypt_file pbkdf2_hmac_sha256 urlsafe_b64encode fernet_encrypt
    filepath study_id pin env fs = (fs', out) ->
  (forall q, q <> filepath -> q <> filepath ++ ".enc" -> fs' !! q = fs !! q)
  /\ (fs' !! filepath = fs !! filepath
      \/ exists data, fs !! filepath = Some data
           /\ fs' !! filepath = None
           /\ fs' !! (filepath ++ ".enc") = Some (sealed study_id pin (entropy env) data)).
Proof.
  unfold encrypt_file, mbind, io_bind, bind, read_file, seal, write_file, os_remove.
  destruct (fault_read env); [intros [= <- <-]; auto|].
  destruct (fs !! filepath) as [data|] eqn:Hfile; [|intros [= <- <-]; auto].
  destruct (fault_seal env); [intros [= <- <-]; rewrite Hfile; auto|].
  destruct (String.eqb _ ""); [intros [= <- <-]; rewrite Hfile; auto|].
  destruct (PyStr.ends_with_slash _); [intros [= <- <-]; rewrite Hfile; auto|].
  destruct (fault_open_write env); [intros [= <- <-]; rewrite Hfile; auto|].
  pose proof (enc_path_differs filepath) as Hne.
  destruct (fault_write env) as [n|].
  { intros [= <- <-]. split.
    - intros q _ Hq. apply lookup_insert_ne. auto.
    - left. rewrite lookup_insert_ne by auto. congruence. }
  destruct (fault_remove env).
  { intros [= <- <-]. split.
    - intros q _ Hq. apply lookup_insert_ne. auto.
    - left. rewrite lookup_insert_ne by auto. congruence. }
  rewrite lookup_insert_ne, Hfile by auto.
  unfold mret, io_ret, ret. intros [= <- <-]. split.
  - intros q Hq Hq'. rewrite lookup_delete_ne, lookup_insert_ne by auto. reflexivity.
  - right. exists data. split; [reflexivity|]. split; [apply lookup_delete_eq|].
    rewrite lookup_delete_ne by auto. apply lookup_insert_eq.
Qed.

(** The loop on files that are all there, when nothing goes wrong. *)
Lemma encrypt_each_ok study_id pin r : forall files (fs : gmap string bytes),
  NoDup files ->
  (forall p, p ∈ files -> is_plain p = true -> is_Some (fs !! p)) ->
  exists fs',
    encrypt_each files study_id pin (fun p => no_faults (r p)) fs = (fs', Return tt)
    /\ (forall p, p ∈ files -> is_plain p = true ->
          fs' !! p = None
          /\ fs' !! (p ++ ".enc") = sealed study_id pin (r p) <$> fs !! p)
    /\ (forall q, (q ∉ files \/ is_plain q = false) ->
          (forall p, p ∈ files -> is_plain p = true -> q <> p ++ ".enc") ->
          fs' !! q = fs !! q).
Proof.
  induction files as [|p files IH]; intros fs Hnd Hthere.
  - exists fs. split; [reflexivity|]. split; [|reflexivity].
    intros p Hp. apply elem_of_nil in Hp. contradiction.
  - apply NoDup_cons in Hnd as [Hfresh Hnd]. cbn [encrypt_each].
    destruct (is_plain p) eqn:Hplain.
    + destruct (Hthere p (list_elem_of_here _ _) Hplain) as [data Hfile].
      rewrite (encrypt_file_run _ _ _ data) by exact Hfile.
      set (fs1 := delete p (<[p ++ ".enc" := sealed study_id pin (r p) data]> fs)).
      assert (forall q, q <> p -> q <> p ++ ".enc" -> fs1 !! q = fs !! q) as Hrest.
      { intros q Hq Hq'. unfold fs1.
        rewrite lookup_delete_ne, lookup_insert_ne by auto. reflexivity. }
      assert (forall p', p' ∈ files -> is_plain p' = true -> fs1 !! p' = fs !! p') as Hkept.
      { intros p' Hin Hp'. apply Hrest; [|apply plain_not_sealed_name, Hp'].
        intros ->. contradiction. }
      destruct (IH fs1 Hnd) as (fs' & Hrun & Hsealed & Hother).
      { intros p' Hin Hp'. rewrite Hkept by assumption.
        apply Hthere; [apply list_elem_of_further, Hin | exact Hp']. }
      exists fs'. split; [exact Hrun|]. split.
      * intros p0 Hin Hp0. apply elem_of_cons in Hin as [-> | Hin].
        -- split.
           ++ rewrite Hother.
              ** apply lookup_delete_eq.
              ** left. exact Hfresh.
              ** intros p' _ _. apply plain_not_sealed_name, Hplain.
           ++ rewrite Hother.
              ** unfold fs1. rewrite lookup_delete_ne by apply enc_path_differs.
                 rewrite lookup_insert_eq, Hfile. reflexivity.
              ** right. apply sealed_name_not_plain.
              ** intros p' Hin _ Heq. apply append_inj_l in Heq. subst p'.
                 contradiction.
        -- destruct (Hsealed p0 Hin Hp0) as [Hgone Htoken].
           split; [exact Hgone|]. rewrite Htoken, Hkept by assumption. reflexivity.
      * intros q Hq Hnot. rewrite Hother.
        -- apply Hrest.
           ++ destruct Hq as [Hq | Hq]; intros ->.
              ** apply Hq, list_elem_of_here.
              ** congruence.
           ++ apply Hnot; [apply list_elem_of_here | exact Hplain].
        -- destruct Hq as [Hq | Hq]; [left | right; exact Hq].
           intros Hin. apply Hq, list_elem_of_further, Hin.
        -- intros p' Hin. apply Hnot, list_elem_of_further, Hin.
    + destruct (IH fs Hnd) as (fs' & Hrun & Hsealed & Hother).
      { intros p' Hin. apply Hthere, list_elem_of_further, Hin. }
      exists fs'. split; [exact Hrun|]. split.
      * intros p0 Hin Hp0. apply elem_of_cons in Hin as [-> | Hin]; [congruence|].
        apply Hsealed; assumption.
      * intros q Hq Hnot. apply Hother.
        -- destruct Hq as [Hq | Hq]; [left | right; exact Hq].
           intros Hin. apply Hq, list_elem_of_further, Hin.
        -- intros p' Hin. apply Hnot, list_elem_of_further, Hin.
Qed.

Lemma elem_of_walk_files study_path (fs : gmap string bytes) p :
  p ∈ walk_files study_path fs
  <-> PyStr.startswith (dir_prefix study_path) p = true /\ is_Some (fs !! p).
Proof.
  unfold walk_files. rewrite list_elem_of_In, filter_In, <- list_elem_of_In.
  rewrite list_elem_of_fmap. split.
  - intros [([q data] & -> & Hin) Hp]. apply elem_of_map_to_list in Hin.
    split; [exact Hp | exists data; exact Hin].
  - intros [Hp [data Hin]]. split; [|exact Hp].
    exists (p, data). split; [reflexivity | apply elem_of_map_to_list, Hin].
Qed.

Lemma NoDup_filter_In {A} (f : A -> bool) (l : list A) : NoDup l -> NoDup (List.filter f l).
Proof.
  induction 1 as [|x l Hx Hnd IH]; cbn [List.filter]; [constructor|].
  destruct (f x); [|exact IH]. constructor; [|exact IH].
  rewrite list_elem_of_In, filter_In, <- list_elem_of_In. intros [Hin _]. contradiction.
Qed.

Lemma NoDup_walk_files study_path (fs : gmap string bytes) :
  NoDup (walk_files study_path fs).
Proof. apply NoDup_filter_In, NoDup_fst_map_to_list. Qed.

(** What a run over the whole folder leaves, when nothing goes wrong. *)
Lemma sealed_folder_state study_path study_id pin r
    (fs : gmap string bytes) :
  exists fs',
    encrypt_study_folder study_path study_id pin (fun p => no_faults (r p)) fs
      = (fs', Return tt)
    /\ (forall p data,
          PyStr.startswith (dir_prefix study_path) p = true ->
          is_plain p = true -> fs !! p = Some data ->
          fs' !! (p ++ ".enc") = Some (sealed study_id pin (r p) data))
    /\ (forall p,
          PyStr.startswith (dir_prefix study_path) p = true ->
          is_plain p = true -> fs' !! p = None)
    /\ (forall q,
          PyStr.startswith (dir_prefix study_path) q = false -> fs' !! q = fs !! q).
Proof.
  destruct (encrypt_each_ok study_id pin r (walk_files study_path fs) fs)
    as (fs' & Hrun & Hsealed & Hother).
  { apply NoDup_walk_files. }
  { intros p Hin _. apply elem_of_walk_files in Hin. apply Hin. }
  exists fs'. split; [exact Hrun|]. split; [|split].
  - intros p data Hp Hplain Hfile.
    destruct (Hsealed p) as [_ Htoken]; [|exact Hplain|].
    + apply elem_of_walk_files. split; [exact Hp | exists data; exact Hfile].
    + rewrite Htoken, Hfile. reflexivity.
  - intros p Hp Hplain. destruct (fs !! p) as [data|] eqn:Hfile.
    + apply Hsealed; [|exact Hplain].
      apply elem_of_walk_files. split; [exact Hp | exists data; exact Hfile].
    + rewrite Hother, Hfile; [reflexivity| |].
      * left. intros Hin. apply elem_of_walk_files in Hin as [_ [data Hin]]. congruence.
      * intros p' _ _. apply plain_not_sealed_name, Hplain.
  - intros q Hq. apply Hother.
    + left. intros Hin. apply elem_of_walk_files in Hin as [Hin _]. congruence.
    + intros p Hin _ ->. apply elem_of_walk_files in Hin as [Hin _].
      apply (startswith_append _ _ ".enc") in Hin. congruence.
Qed.


(** The loop finds nothing to do when no file is plain. *)
Lemma encrypt_each_all_sealed study_id pin envs (fs : gmap string bytes) : forall files,
  (forall p, p ∈ files -> is_plain p = false) ->
  encrypt_each files study_id pin envs fs = (fs, Return tt).
Proof.
  induction files as [|p files IH]; intros Hall; [reflexivity|].
  cbn [encrypt_each]. rewrite (Hall p) by apply list_elem_of_here.
  apply IH. intros p' Hin. apply Hall, list_elem_of_further, Hin.
Qed.

(** X5.  Sealing a folder that was sealed without faults finds no
    file to seal: the second run returns and changes nothing, whatever
    the operating system would have done to a call. *)
Theorem encrypt_study_folder_again_is_idle study_path study_id pin r envs
    (fs : gmap string bytes) :
  let fs' :=
    (encrypt_study_folder study_path study_id pin (fun p => no_faults (r p)) fs).1 in
  encrypt_study_folder study_path study_id pin envs fs' = (fs', Return tt).
Proof.
  destruct (sealed_folder_state study_path study_id pin r fs)
    as (fs1 & Hrun1 & _ & Hgone & _).
  rewrite Hrun1. cbn [fst].
  apply encrypt_each_all_sealed. intros p Hin.
  apply elem_of_walk_files in Hin as [Hp [data Hfile]].
  destruct (is_plain p) eqn:Hplain; [|reflexivity].
  rewrite (Hgone p Hp Hplain) in Hfile. discriminate.
Qed.

(** The loop under any faults. *)
Lemma encrypt_each_keeps_data study_id pin envs : forall files (fs fs' : gmap string bytes) out,
  NoDup files ->
  encrypt_each files study_id pin envs fs = (fs', out) ->
  (forall q, (forall p, p ∈ files -> is_plain p = true -> q <> p /\ q <> p ++ ".enc") ->
     fs' !! q = fs !! q)
  /\ (forall p data, p ∈ files -> is_plain p = true -> fs !! p = Some data ->
        fs' !! p = Some data
        \/ fs' !! (p ++ ".enc") = Some (sealed study_id pin (entropy (envs p)) data)).
Proof.
  induction files as [|p files IH]; intros fs fs' out Hnd Hrun.
  - injection Hrun as <- <-. split; [reflexivity|].
    intros p data Hp. apply elem_of_nil in Hp. contradiction.
  - apply NoDup_cons in Hnd as [Hfresh Hnd]. cbn [encrypt_each] in Hrun.
    destruct (is_plain p) eqn:Hplain.
    + destruct (encrypt_file _ _ _ p study_id pin (envs p) fs) as [fs1 out1] eqn:Hone.
      apply encrypt_file_footprint in Hone as [Hrest Hp].
      assert (exists out', encrypt_each files study_id pin envs fs1 = (fs', out')
                \/ fs' = fs1) as [out' Hnext].
      { destruct out1; [exists out; left; exact Hrun|].
        exists out. right. congruence. }
      assert ((forall q, (forall p', p' ∈ files -> is_plain p' = true ->
                            q <> p' /\ q <> p' ++ ".enc") -> fs' !! q = fs1 !! q)
              /\ (forall p' data, p' ∈ files -> is_plain p' = true ->
                    fs1 !! p' = Some data ->
                    fs' !! p' = Some data
                    \/ fs' !! (p' ++ ".enc")
                       = Some (sealed study_id pin (entropy (envs p')) data)))
        as [Hother Hkept].
      { destruct Hnext as [Hnext | ->]; [exact (IH _ _ _ Hnd Hnext)|]. auto. }
      assert (forall p', p' ∈ files -> is_plain p' = true -> fs1 !! p' = fs !! p') as Hsame.
      { intros p' Hin Hp'. apply Hrest; [|apply plain_not_sealed_name, Hp'].
        intros ->. contradiction. }
      assert (forall p', p' ∈ files -> is_plain p' = true ->
                p <> p' /\ p <> p' ++ ".enc") as Hp_off.
      { intros p' Hin _. split; [intros ->; contradiction|].
        apply plain_not_sealed_name, Hplain. }
      assert (forall p', p' ∈ files -> is_plain p' = true ->
                p ++ ".enc" <> p' /\ p ++ ".enc" <> p' ++ ".enc") as Henc_off.
      { intros p' Hin Hp'. split.
        - apply not_eq_sym, plain_not_sealed_name, Hp'.
        - intros Heq. apply append_inj_l in Heq. subst p'. contradiction. }
      split.
      * intros q Hq. rewrite Hother.
        -- apply Hrest; apply (Hq p); auto using list_elem_of_here.
        -- intros p' Hin. apply Hq, list_elem_of_further, Hin.
      * intros p0 data Hin Hp0 Hfile. apply elem_of_cons in Hin as [-> | Hin].
        -- destruct Hp as [Hp | (data' & Hfile' & _ & Htoken)].
           ++ left. rewrite Hother by exact Hp_off. congruence.
           ++ right. rewrite Hother by exact Henc_off. congruence.
        -- apply Hkept; [exact Hin | exact Hp0|]. rewrite Hsame; assumption.
    + destruct (IH _ _ _ Hnd Hrun) as [Hother Hkept]. split.
      * intros q Hq. apply Hother. intros p' Hin. apply Hq, list_elem_of_further, Hin.
      * intros p0 data Hin Hp0. apply elem_of_cons in Hin as [-> | Hin]; [congruence|].
        apply Hkept; assumption.
Qed.

(** X6.  Whatever goes wrong and wherever [encrypt_study_folder] stops,
    every file below the folder that it would seal is afterwards still
    there as it was or has its complete sealed copy on disk, and the
    paths outside the folder are as they were. *)
Theorem encrypt_study_folder_never_loses_a_file study_path study_id pin envs
    (fs fs' : gmap string bytes) out :
  encrypt_study_folder study_path study_id pin envs fs = (fs', out) ->
  (forall p data,
     PyStr.startswith (dir_prefix study_path) p = true ->
     is_plain p = true -> fs !! p = Some data ->
     fs' !! p = Some data
     \/ fs' !! (p ++ ".enc") = Some (sealed study_id pin (entropy (envs p)) data))
  /\ (forall q,
        PyStr.startswith (dir_prefix study_path) q = false -> fs' !! q = fs !! q).
Proof.
  intros Hrun.
  apply encrypt_each_keeps_data in Hrun as [Hother Hkept]; [|apply NoDup_walk_files].
  split.
  - intros p data Hp Hplain Hfile. apply Hkept; [|exact Hplain | exact Hfile].
    apply elem_of_walk_files. split; [exact Hp | exists data; exact Hfile].
  - intros q Hq. apply Hother. intros p Hin _.
    apply elem_of_walk_files in Hin as [Hin _]. split; intros ->; [congruence|].
    apply (startswith_append _ _ ".enc") in Hin. congruence.
Qed.

End Folder.


(** A study folder with a recording, its notes and a recording sealed
    earlier, next to a file of another study. *)
Definition study_folder : gmap string bytes :=
  {[ "/studies/s7/media/rec1.mp4" := list_byte_of_string "frames";
     "/studies/s7/notes.txt" := list_byte_of_string "notes";
     "/studies/s7/media/rec0.mp4.enc" := list_byte_of_string "sealed earlier";
     "/studies/s8/notes.txt" := list_byte_of_string "other" ]}.

(** Unlinking the notes is refused; every other call goes through. *)
Definition notes_locked (filepath : string) : io_env :=
  {| entropy := []; fault_read := false; fault_seal := false;
     fault_open_write := false; fault_write := None;
     fault_remove := String.eqb filepath "/studies/s7/notes.txt" |}.

Lemma encrypt_file_replaces_plaintext_witness :
  exists fs',
    encrypt_file demo_pbkdf2 demo_b64encode demo_encrypt
      "/studies/s7/notes.txt" "s7" "1234" (no_faults []) study_folder
      = (fs', Return "/studies/s7/notes.txt.enc")
    /\ fs' !! "/studies/s7/notes.txt" = None
    /\ fs' !! "/studies/s7/notes.txt.enc"
       = Some (sealed demo_pbkdf2 demo_b64encode demo_encrypt "s7" "1234" []
                 (list_byte_of_string "notes"))
    /\ forall q, q <> "/studies/s7/notes.txt" -> q <> "/studies/s7/notes.txt.enc" ->
         fs' !! q = study_folder !! q.
Proof.
  apply (encrypt_file_replaces_plaintext demo_pbkdf2 demo_b64encode demo_encrypt
           "/studies/s7/notes.txt" "s7" "1234" (list_byte_of_string "notes") []
           study_folder).
  vm_compute. reflexivity.
Defined.

Lemma missing_file_raises_witness :
  encrypt_file demo_pbkdf2 demo_b64encode demo_encrypt
    "/studies/s7/media/rec2.mp4" "s7" "1234" (no_faults []) study_folder
    = (study_folder, Raise (FileNotFoundError "/studies/s7/media/rec2.mp4"))
  /\ decrypt_file demo_pbkdf2 demo_b64encode demo_decrypt
       "/studies/s7/media/rec2.mp4" "s7" "1234" (no_faults []) study_folder
     = (study_folder, Raise (FileNotFoundError "/studies/s7/media/rec2.mp4")).
Proof.
  apply (missing_file_raises demo_pbkdf2 demo_b64encode demo_encrypt demo_decrypt
           "/studies/s7/media/rec2.mp4" "s7" "1234" (no_faults []) study_folder).
  - vm_compute. reflexivity.
  - reflexivity.
Defined.

(** The notes, sealed. *)
Definition sealed_notes : gmap string bytes :=
  {[ "/studies/s7/notes.txt.enc" :=
       sealed demo_pbkdf2 demo_b64encode demo_encrypt "s7" "1234" []
         (list_byte_of_string "notes") ]}.

Lemma decrypt_file_keeps_sealed_file_witness :
  let run :=
    decrypt_file demo_pbkdf2 demo_b64encode demo_decrypt
      "/studies/s7/notes.txt.enc" "s7" "1234" (no_faults []) sealed_notes in
  run.2 = Return "/tmp/notes.txt"
  /\ "/tmp/notes.txt" <> "/studies/s7/notes.txt.enc"
  /\ run.1 !! "/studies/s7/notes.txt.enc" = sealed_notes !! "/studies/s7/notes.txt.enc"
  /\ forall q, q <> "/tmp/notes.txt" -> run.1 !! q = sealed_notes !! q.
Proof.
  intros run.
  assert (run.2 = Return "/tmp/notes.txt") as Hout by (vm_compute; reflexivity).
  split; [exact Hout|].
  apply (decrypt_file_keeps_sealed_file demo_pbkdf2 demo_b64encode demo_decrypt
           "/studies/s7/notes.txt.enc" "s7" "1234" (no_faults []) sealed_notes).
  - vm_compute. reflexivity.
  - rewrite <- Hout. apply surjective_pairing.
Defined.

Lemma encrypt_study_folder_never_loses_a_file_witness :
  let run :=
    encrypt_study_folder demo_pbkdf2 demo_b64encode demo_encrypt
      "/studies/s7" "s7" "1234" notes_locked study_folder in
  run.2 = Raise (OSError "/studies/s7/notes.txt")
  /\ (forall p data,
        PyStr.startswith (dir_prefix "/studies/s7") p = true ->
        is_plain p = true -> study_folder !! p = Some data ->
        run.1 !! p = Some data
        \/ run.1 !! (p ++ ".enc")
           = Some (sealed demo_pbkdf2 demo_b64encode demo_encrypt "s7" "1234"
                     (entropy (notes_locked p)) data))
  /\ (forall q,
        PyStr.startswith (dir_prefix "/studies/s7") q = false ->
        run.1 !! q = study_folder !! q).
Proof.
  intros run.
  assert (run.2 = Raise (OSError "/studies/s7/notes.txt")) as Hout
    by (vm_compute; reflexivity).
  split; [exact Hout|].
  apply (encrypt_study_folder_never_loses_a_file demo_pbkdf2 demo_b64encode
           demo_encrypt "/studies/s7" "s7" "1234" notes_locked study_folder
           run.1 (Raise (OSError "/studies/s7/notes.txt"))).
  rewrite <- Hout. apply surjective_pairing.
Defined.

End SealingFacts.

(** ** More of [gamepad.py]: what the read loop commits *)

Module ReaderFacts.

Import Db PyNum Gamepad.
Local Open Scope string_scope.

(** What every row of a reader carries. *)
Definition row_of (r : Reader) (e : InputEvent) : Prop :=
  recording_id e = rd_recording_id r /\ session_id e = rd_session_id r
  /\ stream_id e = rd_stream_id r
  /\ (Db.kind e = "axis" \/ Db.kind e = "button")
  /\ Db.code e <> "".

Definition key_tick (t c v : Z) : tick :=
  {| tick_t_ms := t; tick_event := {| ev_type := EV_KEY; ev_code := c; ev_value := v |} |}.

Section Committing.

Variable ecodes_ABS ecodes_BTN ecodes_KEY : Z -> option ecode_name.
Variable uuid4_hex : nat -> string.

Lemma entry_name_nonempty nm s : entry_name nm = Some s -> s <> "".
Proof.
  destruct nm as [[s' | l]|]; cbn [entry_name]; [| |discriminate].
  - destruct (String.eqb_spec s' ""); [discriminate|]. congruence.
  - intros Hfind. apply find_some in Hfind as [_ Hs].
    destruct (String.eqb_spec s ""); [discriminate | assumption].
Qed.

Lemma abs_name_nonempty (c : Z) : _code_name_abs ecodes_ABS c <> "".
Proof.
  unfold _code_name_abs.
  destruct (entry_name (ecodes_ABS c)) eqn:Habs; [|discriminate].
  exact (entry_name_nonempty _ _ Habs).
Qed.

Lemma key_name_nonempty (c : Z) : _code_name_key ecodes_BTN ecodes_KEY c <> "".
Proof.
  unfold _code_name_key.
  destruct (entry_name (ecodes_BTN c)) eqn:Hbtn;
    [exact (entry_name_nonempty _ _ Hbtn)|].
  destruct (entry_name (ecodes_KEY c)) eqn:Hkey; [|discriminate].
  exact (entry_name_nonempty _ _ Hkey).
Qed.

(** X7.  The symbolic code of an axis or of a button is never the
    empty string, whatever the evdev tables hold for the number. *)
Theorem code_names_never_empty (c : Z) :
  _code_name_abs ecodes_ABS c <> "" /\ _code_name_key ecodes_BTN ecodes_KEY c <> "".
Proof. split; [apply abs_name_nonempty | apply key_name_nonempty]. Qed.

Lemma handle_event_row (r : Reader) uuid tk e :
  handle_event ecodes_ABS ecodes_BTN ecodes_KEY r uuid tk = Some e ->
  Db.id e = uuid /\ t_ms e = tick_t_ms tk /\ row_of r e.
Proof.
  unfold handle_event, row_of.
  destruct (ev_type (tick_event tk) =? EV_SYN)%Z; [discriminate|].
  destruct (ev_type (tick_event tk) =? EV_ABS)%Z.
  - destruct (filtered_out _ _); [discriminate|]. intros [= <-].
    cbn. pose proof (abs_name_nonempty (ev_code (tick_event tk))) as Hc. auto 10.
  - destruct (ev_type (tick_event tk) =? EV_KEY)%Z; [|discriminate].
    destruct (filtered_out _ _); [discriminate|]. intros [= <-].
    cbn. pose proof (key_name_nonempty (ev_code (tick_event tk))) as Hc. auto 10.
Qed.

(** X8.  [_Reader.run] only appends event rows: sessions, streams and
    the events already stored stay as they are; every new row carries
    the reader's recording, session and stream, is an axis or a button
    row with a non-empty code; the rows come in the order of the device
    events, each with the clock reading taken for its event; and each
    takes the next identifier drawn. *)
Theorem run_appends_rows_in_device_order (r : Reader) (ticks : list tick) (db : store) :
  exists rows,
    events (run ecodes_ABS ecodes_BTN ecodes_KEY uuid4_hex r ticks db)
      = (events db ++ rows)%list
    /\ sessions (run ecodes_ABS ecodes_BTN ecodes_KEY uuid4_hex r ticks db) = sessions db
    /\ streams (run ecodes_ABS ecodes_BTN ecodes_KEY uuid4_hex r ticks db) = streams db
    /\ Forall (row_of r) rows
    /\ sublist (t_ms <$> rows) (tick_t_ms <$> ticks)
    /\ Db.id <$> rows = uuid4_hex <$> seq (uuids_drawn db) (length rows).
Proof.
  unfold run. revert db. induction ticks as [|tk ticks IH]; intros db.
  - exists []. cbn. rewrite app_nil_r. repeat split; constructor.
  - cbn [fold_left]. unfold reader_step at 2 4 6.
    destruct (handle_event _ _ _ r (uuid4_hex (uuids_drawn db)) tk) as [e|] eqn:He.
    + apply handle_event_row in He as (Hid & Ht & Hrow).
      destruct (IH (add_event e (draw_uuid db)))
        as (rows & Hev & Hse & Hst & Hrows & Hsub & Hids).
      exists (e :: rows). rewrite Hev, Hse, Hst.
      cbn [events sessions streams add_event draw_uuid uuids_drawn] in *.
      rewrite <- app_assoc. split; [reflexivity|]. split; [reflexivity|].
      split; [reflexivity|]. split; [constructor; assumption|].
      split.
      * rewrite !fmap_cons, Ht. apply sublist_skip, Hsub.
      * cbn [length seq]. rewrite !fmap_cons, Hid, Hids. reflexivity.
    + destruct (IH db) as (rows & Hev & Hse & Hst & Hrows & Hsub & Hids).
      exists rows. do 4 (split; [assumption|]). split; [|assumption].
      rewrite fmap_cons. apply sublist_cons, Hsub.
Qed.

(** X9.  An event that is neither an axis nor a key event (a
    synchronisation report, a relative movement, ...) leaves the store
    untouched and draws no identifier. *)
Theorem other_event_types_are_ignored (r : Reader) (db : store) (tk : tick) :
  ev_type (tick_event tk) <> EV_ABS -> ev_type (tick_event tk) <> EV_KEY ->
  reader_step ecodes_ABS ecodes_BTN ecodes_KEY uuid4_hex r db tk = db.
Proof.
  intros Habs Hkey. unfold reader_step, handle_event.
  destruct (ev_type (tick_event tk) =? EV_SYN)%Z; [reflexivity|].
  destruct (Z.eqb_spec (ev_type (tick_event tk)) EV_ABS); [contradiction|].
  destruct (Z.eqb_spec (ev_type (tick_event tk)) EV_KEY); [contradiction|].
  reflexivity.
Qed.

(** X10.  A key event that passes the filter is stored as a button row
    with the device's value as it came, never calibrated; [is_press] is
    true exactly for the value [1], false exactly for [0], and absent for
    every other value (an autorepeat). *)
Theorem button_event_row (r : Reader) (uuid : string) (t c v : Z) :
  let code := _code_name_key ecodes_BTN ecodes_KEY c in
  filtered_out (allowed_inputs r) code = false ->
  exists e,
    handle_event ecodes_ABS ecodes_BTN ecodes_KEY r uuid (key_tick t c v) = Some e
    /\ Db.kind e = "button" /\ Db.code e = code /\ Db.value e = Some v
    /\ (is_press e = Some true <-> v = 1%Z)
    /\ (is_press e = Some false <-> v = 0%Z)
    /\ (is_press e = None <-> v <> 0%Z /\ v <> 1%Z).
Proof.
  intros code Hpass. unfold handle_event, key_tick.
  cbn [tick_event ev_type ev_code ev_value tick_t_ms].
  change (EV_KEY =? EV_SYN)%Z with false. change (EV_KEY =? EV_ABS)%Z with false.
  change (EV_KEY =? EV_KEY)%Z with true. cbv iota. fold code. rewrite Hpass.
  eexists. split; [reflexivity|]. cbn [Db.kind Db.code Db.value is_press].
  do 3 (split; [reflexivity|]).
  destruct (Z.eqb_spec v 1) as [-> | H1]; [|destruct (Z.eqb_spec v 0) as [-> | H0]].
  - repeat split; intros; try discriminate; lia.
  - repeat split; intros; try discriminate; lia.
  - repeat split; intros; try discriminate; try lia; tauto.
Qed.

Lemma py_int_le (x y : Q) : (x <= y)%Q -> (py_int x <= py_int y)%Z.
Proof.
  intros Hxy. unfold py_int.
  destruct (Qle_bool 0 x) eqn:Hx, (Qle_bool 0 y) eqn:Hy.
  - apply Qfloor_resp_le, Hxy.
  - exfalso. apply Qle_bool_iff in Hx.
    assert (Qle_bool 0 y = true) by (apply Qle_bool_iff; lra). congruence.
  - apply Qle_bool_iff in Hy.
    assert (x <= 0)%Q as Hneg.
    { destruct (Qlt_le_dec x 0) as [Hlt | Hge]; [apply Qlt_le_weak, Hlt|].
      rewrite <- Qle_bool_iff in Hge. congruence. }
    pose proof (Qceiling_resp_le _ _ Hneg) as H0.
    pose proof (Qfloor_resp_le _ _ Hy) as H1.
    change (Qceiling 0) with 0%Z in H0. change (Qfloor 0) with 0%Z in H1. lia.
  - apply Qceiling_resp_le, Hxy.
Qed.

Lemma calibrated_row (r : Reader) uuid t c raw cal :
  _parse_calibrations r !! _code_name_abs ecodes_ABS c = Some cal ->
  filtered_out (allowed_inputs r) (_code_name_abs ecodes_ABS c) = false ->
  Db.value <$> handle_event ecodes_ABS ecodes_BTN ecodes_KEY r uuid (abs_tick t c raw)
  = Some (Some (py_int (normalize cal raw * 1000))).
Proof.
  intros Hcal Hpass. unfold handle_event, abs_tick.
  cbn [tick_event ev_type ev_code ev_value tick_t_ms].
  change (EV_ABS =? EV_SYN)%Z with false. change (EV_ABS =? EV_ABS)%Z with true.
  cbv iota. rewrite Hpass, Hcal. reflexivity.
Qed.

(** X11.  For an axis calibrated with [min] other than [max]: the raw
    value [min] is stored as [-1000] and the raw value [max] as [1000];
    the stored value grows with the raw value when [min < max], and falls
    with it when [max < min]. *)
Theorem calibrated_axis_endpoints_and_order (r : Reader) (u1 u2 : string)
    (t1 t2 c raw1 raw2 : Z) (cal : AxisCal) :
  _parse_calibrations r !! _code_name_abs ecodes_ABS c = Some cal ->
  filtered_out (allowed_inputs r) (_code_name_abs ecodes_ABS c) = false ->
  min_value cal <> max_value cal ->
  exists v1 v2,
    Db.value <$> handle_event ecodes_ABS ecodes_BTN ecodes_KEY r u1 (abs_tick t1 c raw1)
      = Some (Some v1)
    /\ Db.value <$> handle_event ecodes_ABS ecodes_BTN ecodes_KEY r u2 (abs_tick t2 c raw2)
       = Some (Some v2)
    /\ (raw1 = min_value cal -> v1 = (-1000)%Z)
    /\ (raw1 = max_value cal -> v1 = 1000%Z)
    /\ ((min_value cal < max_value cal)%Z -> (raw1 <= raw2)%Z -> (v1 <= v2)%Z)
    /\ ((max_value cal < min_value cal)%Z -> (raw1 <= raw2)%Z -> (v2 <= v1)%Z).
Proof.
  intros Hcal Hpass Hne. eexists _, _.
  split; [exact (calibrated_row r u1 t1 c raw1 cal Hcal Hpass)|].
  split; [exact (calibrated_row r u2 t2 c raw2 cal Hcal Hpass)|].
  assert (forall raw, normalize cal raw * 1000
            == (2 * (inject_Z (raw - min_value cal)
                     / inject_Z (max_value cal - min_value cal)) - 1) * 1000)%Q as Hnorm.
  { intros raw. unfold normalize.
    destruct (Z.eqb_spec (min_value cal) (max_value cal)); [contradiction|]. ring. }
  assert (~ inject_Z (max_value cal - min_value cal) == 0)%Q as Hspan.
  { change 0%Q with (inject_Z 0). rewrite inject_Z_injective. lia. }
  split; [|split; [|split]].
  - intros ->. rewrite (py_int_comp _ _ (Hnorm _)), Z.sub_diag.
    apply (py_int_comp _ (-1000 # 1)%Q). change (inject_Z 0) with 0%Q. field. exact Hspan.
  - intros ->. rewrite (py_int_comp _ _ (Hnorm _)).
    apply (py_int_comp _ (1000 # 1)%Q). field. exact Hspan.
  - intros Hlt Hle. apply py_int_le. rewrite !Hnorm.
    assert (0 < inject_Z (max_value cal - min_value cal))%Q as Hpos.
    { change 0%Q with (inject_Z 0). rewrite <- Zlt_Qlt. lia. }
    assert (inject_Z (raw1 - min_value cal) / inject_Z (max_value cal - min_value cal)
            <= inject_Z (raw2 - min_value cal) / inject_Z (max_value cal - min_value cal))%Q.
    { apply Qmult_le_compat_r; [rewrite <- Zle_Qle; lia|].
      apply Qlt_le_weak, Qinv_lt_0_compat, Hpos. }
    lra.
  - intros Hlt Hle. apply py_int_le. rewrite !Hnorm.
    assert (0 < inject_Z (min_value cal - max_value cal))%Q as Hpos.
    { change 0%Q with (inject_Z 0). rewrite <- Zlt_Qlt. lia. }
    assert (inject_Z (max_value cal - min_value cal)
            == - inject_Z (min_value cal - max_value cal))%Q as Hflip.
    { rewrite <- inject_Z_opp. apply inject_Z_injective. lia. }
    assert (forall raw, inject_Z (raw - min_value cal) / inject_Z (max_value cal - min_value cal)
              == inject_Z (min_value cal - raw) / inject_Z (min_value cal - max_value cal))%Q
      as Hdiv.
    { intros raw. rewrite Hflip.
      assert (inject_Z (raw - min_value cal) == - inject_Z (min_value cal - raw))%Q as ->.
      { rewrite <- inject_Z_opp. apply inject_Z_injective. lia. }
      field. lra. }
    rewrite !Hdiv.
    assert (inject_Z (min_value cal - raw2) / inject_Z (min_value cal - max_value cal)
            <= inject_Z (min_value cal - raw1) / inject_Z (min_value cal - max_value cal))%Q.
    { apply Qmult_le_compat_r; [rewrite <- Zle_Qle; lia|].
      apply Qlt_le_weak, Qinv_lt_0_compat, Hpos. }
    lra.
Qed.

End Committing.

(** *** A pad with two sticks and one button *)

Definition pad_ABS (c : Z) : option ecode_name :=
  if (c =? 0)%Z then Some (OneName "ABS_X")
  else if (c =? 1)%Z then Some (OneName "ABS_Y") else None.

Definition pad_BTN (c : Z) : option ecode_name :=
  if (c =? 304)%Z then Some (Names ["BTN_A"; "BTN_GAMEPAD"; "BTN_SOUTH"]) else None.

Definition pad_KEY (c : Z) : option ecode_name := None.

Definition pad_uuid (n : nat) : string := "id-" ++ pretty n.

(** [ABS_X] learned between [0] and [255]; the button has a label. *)
Definition pad_calibration : calibration_dict :=
  {| cal_axes := {[ "ABS_X" := {| ax_min := 0; ax_max := 255; ax_center := 128;
                                  ax_label := "Arousal" |} ]};
     cal_buttons := {[ "BTN_SOUTH" := "Mark" ]} |}.

Definition pad_reader : Reader :=
  {| rd_stream_id := "stream-a"; rd_recording_id := "rec-1"; rd_session_id := "sess-1";
     calibration_data := Some pad_calibration;
     allowed_inputs := Some ["ABS_X"; "BTN_SOUTH"] |}.

Definition no_rows : store :=
  {| sessions := []; streams := []; events := []; uuids_drawn := 0 |}.

(** An [EV_MSC] report (type 4). *)
Lemma other_event_types_are_ignored_witness :
  reader_step pad_ABS pad_BTN pad_KEY pad_uuid pad_reader no_rows
    {| tick_t_ms := 10; tick_event := {| ev_type := 4; ev_code := 4; ev_value := 589825 |} |}
  = no_rows.
Proof.
  apply (other_event_types_are_ignored pad_ABS pad_BTN pad_KEY pad_uuid pad_reader no_rows).
  - vm_compute. discriminate.
  - vm_compute. discriminate.
Defined.

(** The button held down: the device repeats it with value [2]. *)
Lemma button_event_row_witness :
  exists e,
    handle_event pad_ABS pad_BTN pad_KEY pad_reader "u" (key_tick 10 304 2) = Some e
    /\ Db.kind e = "button" /\ Db.code e = "BTN_SOUTH" /\ Db.value e = Some 2%Z
    /\ (is_press e = Some true <-> 2%Z = 1%Z)
    /\ (is_press e = Some false <-> 2%Z = 0%Z)
    /\ (is_press e = None <-> 2%Z <> 0%Z /\ 2%Z <> 1%Z).
Proof.
  apply (button_event_row pad_ABS pad_BTN pad_KEY pad_reader "u" 10 304 2).
  vm_compute. reflexivity.
Defined.

(** The stick of [pad_reader] at rest on the left and a third of the way
    to the right. *)
Lemma calibrated_axis_endpoints_and_order_witness :
  exists v1 v2,
    Db.value <$> handle_event pad_ABS pad_BTN pad_KEY pad_reader "u1" (abs_tick 10 0 0)
      = Some (Some v1)
    /\ Db.value <$> handle_event pad_ABS pad_BTN pad_KEY pad_reader "u2" (abs_tick 20 0 85)
       = Some (Some v2)
    /\ v1 = (-1000)%Z /\ (v1 <= v2)%Z.
Proof.
  destruct (calibrated_axis_endpoints_and_order pad_ABS pad_BTN pad_KEY pad_reader
              "u1" "u2" 10 20 0 0 85 {| min_value := 0; max_value := 255 |})
    as (v1 & v2 & H1 & H2 & Hmin & _ & Hup & _).
  - vm_compute. reflexivity.
  - vm_compute. reflexivity.
  - vm_compute. discriminate.
  - exists v1, v2. split; [exact H1|]. split; [exact H2|].
    split; [apply Hmin; reflexivity | apply Hup; vm_compute; [reflexivity | discriminate]].
Defined.

End ReaderFacts.

(** ** More of the start of a capture: what the readers are given *)

Module CaptureFacts.

Import Db Calibration Gamepad Capture.
Local Open Scope string_scope.

(** The reader is bound to the stream row [s] and filters and calibrates
    by what that row records. *)
Definition reads_for (s : InputStream) (r : Reader) : Prop :=
  is_id s = rd_stream_id r /\ is_session_id s = rd_session_id r
  /\ is_calibration_data s = calibration_data r
  /\ is_allowed_inputs s = allowed_inputs r.

(** [db'] holds every row of [db], in its place. *)
Definition grows (db db' : store) : Prop :=
  sessions db `prefix_of` sessions db' /\ streams db `prefix_of` streams db'
  /\ events db `prefix_of` events db' /\ (uuids_drawn db <= uuids_drawn db')%nat.

Lemma elem_of_keys {V} (m : gmap string V) (k : string) :
  k ∈ (map_to_list m).*1 <-> is_Some (m !! k).
Proof.
  rewrite list_elem_of_fmap. split.
  - intros ([k' v] & -> & Hin). apply elem_of_map_to_list in Hin. exists v. exact Hin.
  - intros [v Hv]. exists (k, v). split; [reflexivity | apply elem_of_map_to_list, Hv].
Qed.

Lemma keys_nil {V} (m : gmap string V) : (map_to_list m).*1 = [] <-> m = ∅.
Proof.
  split.
  - intros Hnil. apply fmap_nil_inv in Hnil. apply map_to_list_empty_iff, Hnil.
  - intros ->. rewrite map_to_list_empty. reflexivity.
Qed.

(** X12.  A reader that [GamepadPoller.start] creates for a stream with
    a calibration normalises exactly the axes of that calibration, each
    between its learned [min] and [max], and lets an event through
    exactly when its code is one of the calibration's axes or buttons (or
    the calibration configures no input at all); a reader for a stream
    without calibration normalises nothing and lets every event
    through. *)
Theorem poller_reader_follows_calibration rec_id sess_id
    (assigned : list (string * (string * string)))
    (cals : gmap string CalibrationState) (r : Reader) :
  r ∈ poller_readers rec_id sess_id assigned cals ->
  match cals !! rd_stream_id r with
  | Some c =>
      (forall code,
         _parse_calibrations r !! code
         = (fun a => {| min_value := ac_min_value a; max_value := ac_max_value a |})
             <$> axes c !! code)
      /\ (forall code,
            filtered_out (allowed_inputs r) code = false
            <-> (axes c = ∅ /\ buttons c = ∅)
                \/ is_Some (axes c !! code) \/ is_Some (buttons c !! code))
  | None =>
      _parse_calibrations r = ∅ /\ forall code, filtered_out (allowed_inputs r) code = false
  end.
Proof.
  unfold poller_readers. intros Hin. apply list_elem_of_In, in_map_iff in Hin.
  destruct Hin as ([path [st_id alias]] & <- & _). cbn [rd_stream_id].
  unfold _parse_calibrations. cbn [calibration_data allowed_inputs].
  destruct (cals !! st_id) as [c|]; cbn [fmap option_fmap option_map]; [|auto].
  split.
  - intros code. unfold to_dict. cbn [cal_axes].
    rewrite !lookup_fmap. destruct (axes c !! code); reflexivity.
  - intros code. unfold filtered_out, get_allowed_inputs.
    destruct ((map_to_list (axes c)).*1 ++ (map_to_list (buttons c)).*1)%list
      as [|k l] eqn:Hkeys.
    + apply app_eq_nil in Hkeys as [Ha Hb]. apply keys_nil in Ha, Hb. tauto.
    + rewrite <- Hkeys, negb_false_iff, bool_decide_eq_true, elem_of_app, !elem_of_keys.
      split; [tauto|]. intros [[Ha Hb] | H]; [|exact H].
      exfalso. apply keys_nil in Ha, Hb. rewrite Ha, Hb in Hkeys. discriminate.
Qed.


Section Readers.

Variable ecodes_ABS ecodes_BTN ecodes_KEY : Z -> option ecode_name.
Variable uuid4_hex : nat -> string.
Variable str_strip : string -> string.

(** *** Rows already stored *)

Lemma grows_refl (db : store) : grows db db.
Proof. repeat split; reflexivity. Qed.

Lemma grows_trans (db1 db2 db3 : store) : grows db1 db2 -> grows db2 db3 -> grows db1 db3.
Proof.
  intros (H1 & H2 & H3 & H4) (H1' & H2' & H3' & H4').
  repeat split; [etransitivity; eassumption..|lia].
Qed.

Lemma grows_add_session s (db : store) : grows db (add_session s db).
Proof. repeat split; cbn; try reflexivity. apply prefix_app_r. reflexivity. Qed.

Lemma grows_add_stream s (db : store) : grows db (add_stream s db).
Proof. repeat split; cbn; try reflexivity. apply prefix_app_r. reflexivity. Qed.

Lemma grows_add_event e (db : store) : grows db (add_event e db).
Proof. repeat split; cbn; try reflexivity. apply prefix_app_r. reflexivity. Qed.

Lemma grows_draw_uuid (db : store) : grows db (draw_uuid db).
Proof. repeat split; cbn; try reflexivity. lia. Qed.

Lemma grows_commit_stream rec_id sess_id device alias cal t (db : store) :
  grows db (commit_stream uuid4_hex rec_id sess_id device alias cal t db).1.
Proof.
  unfold commit_stream. cbn [fst].
  eapply grows_trans; [|apply grows_add_event].
  eapply grows_trans; [|apply grows_draw_uuid].
  eapply grows_trans; [|apply grows_add_stream]. apply grows_draw_uuid.
Qed.

Lemma grows_slot_loop (step : setup -> string -> setup) :
  (forall acc slot, grows (su_db acc) (su_db (step acc slot))) ->
  forall slots acc, grows (su_db acc) (su_db (fold_left step slots acc)).
Proof.
  intros Hstep slots. induction slots as [|slot slots IH]; intros acc; [apply grows_refl|].
  cbn [fold_left]. eapply grows_trans; [apply Hstep | apply IH].
Qed.

Lemma grows_observer_slot rec_id sess_id t0 assigned (acc : setup) slot :
  grows (su_db acc) (su_db (observer_slot uuid4_hex str_strip rec_id sess_id t0 assigned acc slot)).
Proof.
  unfold observer_slot. destruct (assigned !! slot) as [slotv|]; [|apply grows_refl].
  pose proof (grows_commit_stream rec_id sess_id (as_path slotv)
                (participant_alias str_strip slot slotv) (as_calibration slotv) t0 (su_db acc))
    as H.
  destruct (commit_stream _ _ _ _ _ _ _ _). exact H.
Qed.

Lemma grows_recorder_slot rec_id sess_id assigned (acc : setup) slot :
  grows (su_db acc) (su_db (recorder_slot uuid4_hex str_strip rec_id sess_id assigned acc slot)).
Proof.
  unfold recorder_slot. destruct (assigned !! slot) as [slotv|]; [|apply grows_refl].
  pose proof (grows_commit_stream rec_id sess_id (as_path slotv)
                (participant_alias str_strip slot slotv) None 0 (su_db acc)) as H.
  destruct (commit_stream _ _ _ _ _ _ _ _). exact H.
Qed.

Lemma grows_start_session (w : ObserverWindow) (db : store) :
  grows db (_start_session uuid4_hex str_strip w db).1.
Proof.
  unfold _start_session. destruct (blocked w db); [apply grows_refl|].
  destruct (match ow_session_id w with
            | Some sid => if String.eqb sid "" then _ else _
            | None => _
            end) as [db1 sess_id] eqn:Hsess.
  assert (grows db db1) as H1.
  { destruct (ow_session_id w) as [sid|]; [destruct (String.eqb sid "")|];
      injection Hsess as <- _; try apply grows_refl;
      (eapply grows_trans; [apply grows_draw_uuid | apply grows_add_session]). }
  cbn [fst]. eapply grows_trans; [exact H1|].
  apply (grows_slot_loop _ (grows_observer_slot _ _ _ _)).
Qed.

Lemma grows_start (w : RecorderWindow) (db : store) :
  grows db (_start uuid4_hex str_strip w db).1.
Proof.
  unfold _start. destruct (_is_recording w); [apply grows_refl|]. cbn [fst].
  eapply grows_trans; [apply grows_draw_uuid|].
  eapply grows_trans; [apply grows_draw_uuid|].
  eapply grows_trans; [apply grows_add_session|].
  destruct (chk_capture_pad w); [|apply grows_refl].
  apply (grows_slot_loop _ (grows_recorder_slot _ _ _)).
Qed.

Lemma grows_poller_run (readers : list Reader) schedule : forall db : store,
  grows db (poller_run ecodes_ABS ecodes_BTN ecodes_KEY uuid4_hex readers schedule db).
Proof.
  unfold poller_run. induction schedule as [|[i tk] schedule IH]; intros db;
    [apply grows_refl|].
  cbn [fold_left]. eapply grows_trans; [|apply IH].
  destruct (readers !! i) as [r|]; [|apply grows_refl].
  unfold reader_step. destruct (handle_event _ _ _ _ _ _); [|apply grows_refl].
  eapply grows_trans; [apply grows_draw_uuid | apply grows_add_event].
Qed.

(** X16.  A recording and an observer session, from the start to the
    last row a reader commits, only ever append: every session, stream
    and event row that was stored before is still there, in its place,
    and the count of identifiers drawn never goes down. *)
Theorem capture_only_appends (db : store) (schedule : list (nat * tick)) :
  (forall w : RecorderWindow,
     grows db (recording ecodes_ABS ecodes_BTN ecodes_KEY uuid4_hex str_strip w schedule db))
  /\ (forall w : ObserverWindow,
        grows db (observer_session ecodes_ABS ecodes_BTN ecodes_KEY uuid4_hex str_strip
                    w schedule db)).
Proof.
  split; intros w.
  - unfold recording. pose proof (grows_start w db) as H.
    destruct (_start _ _ w db) as [db1 readers]. cbn [fst] in H.
    eapply grows_trans; [exact H | apply grows_poller_run].
  - unfold observer_session. pose proof (grows_start_session w db) as H.
    destruct (_start_session _ _ w db) as [db1 readers]. cbn [fst] in H.
    eapply grows_trans; [exact H | apply grows_poller_run].
Qed.

(** *** The readers of a start and the streams it created *)

Lemma elem_of_dict_set {V} (k : string) (v : V) (d : list (string * V)) (kv : string * V) :
  kv ∈ dict_set k v d -> kv = (k, v) \/ kv ∈ d.
Proof.
  induction d as [|[k' v'] d IH]; cbn [dict_set].
  - intros Hin. apply list_elem_of_singleton in Hin. auto.
  - destruct (String.eqb k k').
    + intros Hin. apply elem_of_cons in Hin as [-> | Hin]; [auto|].
      right. apply list_elem_of_further, Hin.
    + intros Hin. apply elem_of_cons in Hin as [-> | Hin].
      * right. apply list_elem_of_here.
      * destruct (IH Hin) as [-> | Hin']; [auto|]. right. apply list_elem_of_further, Hin'.
Qed.

(** What the slot loop keeps true of its local variables: every entry of
    the assignment map names a stream row created since [db0], which
    records the calibration kept for it; and the stream identifiers in
    use have all been drawn. *)
Definition bound (db0 : store) (sess_id : string) (su : setup) : Prop :=
  (exists new,
     streams (su_db su) = (streams db0 ++ new)%list
     /\ forall path st_id alias, (path, (st_id, alias)) ∈ assigned_map su ->
          exists s, s ∈ new /\ is_id s = st_id /\ is_session_id s = sess_id
                    /\ is_calibration_data s = to_dict <$> calibrations su !! st_id
                    /\ is_allowed_inputs s = get_allowed_inputs <$> calibrations su !! st_id)
  /\ (forall st_id, is_Some (calibrations su !! st_id) ->
        exists n, (n < uuids_drawn (su_db su))%nat /\ st_id = uuid4_hex n)
  /\ (forall path st_id alias, (path, (st_id, alias)) ∈ assigned_map su ->
        exists n, (n < uuids_drawn (su_db su))%nat /\ st_id = uuid4_hex n).

(** One turn of the slot loop for an assigned slot. *)
Definition slot_turn (rec_id sess_id path alias : string)
    (cal_state : option CalibrationState) (t : Z) (acc : setup) : setup :=
  let '(db, st_id) := commit_stream uuid4_hex rec_id sess_id path alias cal_state t (su_db acc) in
  {| su_db := db;
     assigned_map := dict_set path (st_id, alias) (assigned_map acc);
     calibrations :=
       match cal_state with
       | Some c => <[st_id := c]> (calibrations acc)
       | None => calibrations acc
       end |}.

Hypothesis uuid4_never_repeats : forall m n, uuid4_hex m = uuid4_hex n -> m = n.

Lemma slot_turn_bound db0 rec_id sess_id path alias cal_state t (acc : setup) :
  bound db0 sess_id acc ->
  bound db0 sess_id (slot_turn rec_id sess_id path alias cal_state t acc).
Proof.
  intros ((new & Hstreams & Hrows) & Hcals & Hids).
  unfold slot_turn, commit_stream.
  cbn [su_db assigned_map calibrations streams uuids_drawn add_event add_stream draw_uuid].
  set (st_new := uuid4_hex (uuids_drawn (su_db acc))).
  set (cals' := match cal_state with
                | Some c => <[st_new := c]> (calibrations acc)
                | None => calibrations acc
                end).
  assert (calibrations acc !! st_new = None) as Hunused.
  { destruct (calibrations acc !! st_new) eqn:Hc; [exfalso | reflexivity].
    destruct (Hcals st_new) as (n & Hn & Heq); [eauto|].
    apply uuid4_never_repeats in Heq. lia. }
  assert (cals' !! st_new = cal_state) as Hnew.
  { unfold cals'. destruct cal_state; [apply lookup_insert_eq | exact Hunused]. }
  assert (forall n, (n < uuids_drawn (su_db acc))%nat ->
            cals' !! uuid4_hex n = calibrations acc !! uuid4_hex n) as Hold.
  { intros n Hn. unfold cals'. destruct cal_state; [|reflexivity].
    apply lookup_insert_ne. intros Heq. apply uuid4_never_repeats in Heq. lia. }
  split; [|split];
    cbn [su_db assigned_map calibrations streams uuids_drawn add_event add_stream draw_uuid].
  - eexists (new ++ [_])%list. split; [rewrite Hstreams, app_assoc; reflexivity|].
    intros p st_id al Hin. apply elem_of_dict_set in Hin as [[= -> -> ->] | Hin].
    + eexists. split; [apply elem_of_app; right; apply list_elem_of_here|].
      cbn [is_id is_session_id is_calibration_data is_allowed_inputs].
      rewrite Hnew. auto.
    + destruct (Hrows p st_id al Hin) as (s & Hs & Hid & Hsess & Hcal & Hallow).
      destruct (Hids p st_id al Hin) as (n & Hn & ->).
      exists s. split; [apply elem_of_app; auto|]. rewrite Hold by exact Hn. auto.
  - intros st_id [c Hc]. destruct (decide (st_id = st_new)) as [-> | Hne].
    + exists (uuids_drawn (su_db acc)). split; [lia | reflexivity].
    + destruct (Hcals st_id) as (n & Hn & ->).
      * unfold cals' in Hc. destruct cal_state; [|eauto].
        rewrite lookup_insert_ne in Hc by auto. eauto.
      * exists n. split; [lia | reflexivity].
  - intros p st_id al Hin. apply elem_of_dict_set in Hin as [[= -> -> ->] | Hin].
    + exists (uuids_drawn (su_db acc)). split; [lia | reflexivity].
    + destruct (Hids p st_id al Hin) as (n & Hn & ->). exists n. split; [lia | reflexivity].
Qed.

Lemma observer_slot_turn rec_id sess_id t0 assigned (acc : setup) slot :
  observer_slot uuid4_hex str_strip rec_id sess_id t0 assigned acc slot
  = match assigned !! slot with
    | None => acc
    | Some slotv =>
        slot_turn rec_id sess_id (as_path slotv)
          (participant_alias str_strip slot slotv) (as_calibration slotv) t0 acc
    end.
Proof. reflexivity. Qed.

Lemma recorder_slot_turn rec_id sess_id assigned (acc : setup) slot :
  recorder_slot uuid4_hex str_strip rec_id sess_id assigned acc slot
  = match assigned !! slot with
    | None => acc
    | Some slotv =>
        slot_turn rec_id sess_id (as_path slotv)
          (participant_alias str_strip slot slotv) None 0 acc
    end.
Proof.
  unfold recorder_slot, slot_turn. destruct (assigned !! slot); [|reflexivity].
  destruct (commit_stream _ _ _ _ _ _ _ _). reflexivity.
Qed.

Lemma observer_loop_bound db0 rec_id sess_id t0 assigned slots : forall acc : setup,
  bound db0 sess_id acc ->
  bound db0 sess_id
    (fold_left (observer_slot uuid4_hex str_strip rec_id sess_id t0 assigned) slots acc).
Proof.
  induction slots as [|slot slots IH]; intros acc Hacc; [exact Hacc|].
  cbn [fold_left]. apply IH. rewrite observer_slot_turn.
  destruct (assigned !! slot); [apply slot_turn_bound|]; exact Hacc.
Qed.

Lemma recorder_loop_bound db0 rec_id sess_id assigned slots : forall acc : setup,
  bound db0 sess_id acc ->
  bound db0 sess_id
    (fold_left (recorder_slot uuid4_hex str_strip rec_id sess_id assigned) slots acc)
  /\ calibrations
       (fold_left (recorder_slot uuid4_hex str_strip rec_id sess_id assigned) slots acc)
     = calibrations acc.
Proof.
  induction slots as [|slot slots IH]; intros acc Hacc; [auto|].
  cbn [fold_left]. rewrite recorder_slot_turn.
  destruct (assigned !! slot) as [slotv|]; [|apply IH, Hacc].
  destruct (IH (slot_turn rec_id sess_id (as_path slotv)
                  (participant_alias str_strip slot slotv) None 0 acc)) as [Hb Hc].
  - apply slot_turn_bound, Hacc.
  - split; [exact Hb|]. rewrite Hc. unfold slot_turn.
    destruct (commit_stream _ _ _ _ _ _ _ _). reflexivity.
Qed.

Lemma bound_start db0 sess_id (db : store) :
  streams db = streams db0 ->
  bound db0 sess_id {| su_db := db; assigned_map := []; calibrations := ∅ |}.
Proof.
  intros Hs. split; [|split]; cbn [su_db assigned_map calibrations].
  - exists []. rewrite app_nil_r. split; [exact Hs|].
    intros p st al Hin. apply elem_of_nil in Hin. contradiction.
  - intros st [c Hc]. rewrite lookup_empty in Hc. discriminate.
  - intros p st al Hin. apply elem_of_nil in Hin. contradiction.
Qed.

Lemma bound_readers db0 rec_id sess_id (su : setup) (r : Reader) :
  bound db0 sess_id su ->
  r ∈ poller_readers rec_id sess_id (assigned_map su) (calibrations su) ->
  exists s, s ∈ new_streams db0 (su_db su) /\ reads_for s r.
Proof.
  intros ((new & Hstreams & Hrows) & _ & _) Hin.
  unfold poller_readers in Hin. apply list_elem_of_In, in_map_iff in Hin.
  destruct Hin as ([path [st_id alias]] & <- & Hin). apply list_elem_of_In in Hin.
  destruct (Hrows path st_id alias Hin) as (s & Hs & Hid & Hsess & Hcal & Hallow).
  exists s. split.
  - unfold new_streams. rewrite Hstreams, drop_app_length. exact Hs.
  - unfold reads_for. cbn. auto.
Qed.

(** X13.  Every reader that a start hands to the poller reads for a
    stream row created by that same start: the row has the reader's
    stream and session identifiers and records the calibration and the
    allow-list the reader works with.  The readers of a recording have
    neither. *)
Theorem readers_read_for_new_streams (db : store) :
  (forall (w : ObserverWindow) r,
     r ∈ (_start_session uuid4_hex str_strip w db).2 ->
     exists s, s ∈ new_streams db (_start_session uuid4_hex str_strip w db).1
               /\ reads_for s r)
  /\ (forall (w : RecorderWindow) r,
        r ∈ (_start uuid4_hex str_strip w db).2 ->
        exists s, s ∈ new_streams db (_start uuid4_hex str_strip w db).1
                  /\ reads_for s r
                  /\ calibration_data r = None /\ allowed_inputs r = None).
Proof.
  split; intros w r.
  - unfold _start_session. destruct (blocked w db).
    { cbn [snd]. intros Hin. apply elem_of_nil in Hin. contradiction. }
    destruct (match ow_session_id w with
              | Some sid => if String.eqb sid "" then _ else _
              | None => _
              end) as [db1 sess_id] eqn:Hsess.
    assert (streams db1 = streams db) as Hs.
    { destruct (ow_session_id w) as [sid|]; [destruct (String.eqb sid "")|];
        injection Hsess as <- _; reflexivity. }
    cbn [fst snd]. apply bound_readers, observer_loop_bound, bound_start, Hs.
  - unfold _start. destruct (_is_recording w).
    { cbn [snd]. intros Hin. apply elem_of_nil in Hin. contradiction. }
    cbn [fst snd].
    set (rec_id := uuid4_hex (uuids_drawn db)).
    set (sess_id := uuid4_hex (uuids_drawn (draw_uuid db))).
    set (db1 := add_session _ _).
    set (su0 := {| su_db := db1; assigned_map := []; calibrations := ∅ |}).
    assert (bound db sess_id su0) as H0 by (apply bound_start; reflexivity).
    set (su := if chk_capture_pad w then _ else su0).
    assert (bound db sess_id su /\ calibrations su = ∅) as [Hb Hc].
    { unfold su. destruct (chk_capture_pad w); [|auto].
      apply (recorder_loop_bound db rec_id sess_id (rw_assigned w) ["A"; "B"] su0 H0). }
    intros Hin. rewrite <- Hc in Hin.
    destruct (bound_readers db rec_id sess_id su r Hb Hin) as (s & Hs & Hr).
    exists s. split; [exact Hs|]. split; [exact Hr|].
    unfold poller_readers in Hin. apply list_elem_of_In, in_map_iff in Hin.
    destruct Hin as ([path [st_id alias]] & <- & _). cbn.
    rewrite Hc, lookup_empty. auto.
Qed.


Lemma dict_set_other {V} (k k' : string) (v v' : V) :
  k <> k' -> dict_set k v [(k', v')] = [(k', v'); (k, v)].
Proof.
  intros Hne. cbn [dict_set]. destruct (String.eqb_spec k k'); [contradiction | reflexivity].
Qed.

Lemma dict_set_same {V} (k : string) (v v' : V) : dict_set k v [(k, v')] = [(k, v)].
Proof. cbn [dict_set]. rewrite String.eqb_refl. reflexivity. Qed.

(** X14.  When the two slots do not hold the same device path, an
    observer session starts one reader for each stream row it creates, in
    the order of the rows, each reading for its row. *)
Theorem each_new_stream_gets_its_reader (w : ObserverWindow) (db : store) :
  (forall a b, ow_assigned w !! "A" = Some a -> ow_assigned w !! "B" = Some b ->
               as_path a <> as_path b) ->
  Forall2 reads_for
    (new_streams db (_start_session uuid4_hex str_strip w db).1)
    (_start_session uuid4_hex str_strip w db).2.
Proof.
  intros Hpaths. unfold _start_session. destruct (blocked w db).
  { cbn [fst snd]. unfold new_streams. rewrite drop_all. constructor. }
  destruct (match ow_session_id w with
            | Some sid => if String.eqb sid "" then _ else _
            | None => _
            end) as [db1 sess_id] eqn:Hsess.
  assert (streams db1 = streams db) as Hs.
  { destruct (ow_session_id w) as [sid|]; [destruct (String.eqb sid "")|];
      injection Hsess as <- _; reflexivity. }
  clear Hsess. cbn [fst snd fold_left]. rewrite !observer_slot_turn.
  unfold new_streams, slot_turn, commit_stream, reads_for.
  destruct (ow_assigned w !! "A") as [a|] eqn:HA;
    destruct (ow_assigned w !! "B") as [b|] eqn:HB;
    cbn [su_db assigned_map calibrations streams uuids_drawn add_event add_stream
         draw_uuid];
    change (dict_set ?k ?v []) with [(k, v)];
    rewrite ?dict_set_other by (apply not_eq_sym; eauto);
    rewrite Hs, <- ?app_assoc, ?drop_app_length, ?drop_all; cbn [app poller_readers map].
  - assert (uuid4_hex (uuids_drawn db1) <> uuid4_hex (S (S (uuids_drawn db1)))) as Hne.
    { intros Heq. apply uuid4_never_repeats in Heq. lia. }
    assert (forall (c : CalibrationState) (m : gmap string CalibrationState),
              <[uuid4_hex (S (S (uuids_drawn db1))) := c]> m !! uuid4_hex (uuids_drawn db1)
              = m !! uuid4_hex (uuids_drawn db1)) as Hskip.
    { intros c m. apply lookup_insert_ne. auto. }
    assert (forall (c : CalibrationState) (m : gmap string CalibrationState),
              <[uuid4_hex (uuids_drawn db1) := c]> m !! uuid4_hex (S (S (uuids_drawn db1)))
              = m !! uuid4_hex (S (S (uuids_drawn db1)))) as Hskip'.
    { intros c m. apply lookup_insert_ne. auto. }
    apply List.Forall2_cons; [|apply List.Forall2_cons; [|apply List.Forall2_nil]];
      cbn [is_id is_session_id is_calibration_data is_allowed_inputs
           rd_stream_id rd_session_id calibration_data allowed_inputs];
      destruct (as_calibration a), (as_calibration b);
      rewrite ?Hskip, ?Hskip', ?lookup_insert_eq, ?lookup_empty; repeat split; reflexivity.
  - apply List.Forall2_cons; [|apply List.Forall2_nil].
    cbn [is_id is_session_id is_calibration_data is_allowed_inputs
         rd_stream_id rd_session_id calibration_data allowed_inputs].
    destruct (as_calibration a); rewrite ?lookup_insert_eq, ?lookup_empty;
      repeat split; reflexivity.
  - apply List.Forall2_cons; [|apply List.Forall2_nil].
    cbn [is_id is_session_id is_calibration_data is_allowed_inputs
         rd_stream_id rd_session_id calibration_data allowed_inputs].
    destruct (as_calibration b); rewrite ?lookup_insert_eq, ?lookup_empty;
      repeat split; reflexivity.
  - constructor.
Qed.

(** X15.  When both slots hold the same device path, an observer
    session creates two stream rows, one for each participant, but starts
    a single reader, and that reader reads for the stream of slot B: the
    second assignment replaces the first in the map that is keyed by the
    device path. *)
Theorem shared_device_gets_one_reader (w : ObserverWindow) (db : store) a b :
  blocked w db = false ->
  ow_assigned w !! "A" = Some a -> ow_assigned w !! "B" = Some b ->
  as_path a = as_path b ->
  exists sA sB r,
    new_streams db (_start_session uuid4_hex str_strip w db).1 = [sA; sB]
    /\ (_start_session uuid4_hex str_strip w db).2 = [r]
    /\ is_alias sA = participant_alias str_strip "A" a
    /\ is_alias sB = participant_alias str_strip "B" b
    /\ is_id sA <> is_id sB
    /\ reads_for sB r.
Proof.
  intros Hgo HA HB Hpath. unfold _start_session. rewrite Hgo.
  destruct (match ow_session_id w with
            | Some sid => if String.eqb sid "" then _ else _
            | None => _
            end) as [db1 sess_id] eqn:Hsess.
  assert (streams db1 = streams db) as Hs.
  { destruct (ow_session_id w) as [sid|]; [destruct (String.eqb sid "")|];
      injection Hsess as <- _; reflexivity. }
  clear Hsess. cbn [fst snd fold_left]. rewrite !observer_slot_turn, HA, HB.
  unfold new_streams, slot_turn, commit_stream, reads_for.
  cbn [su_db assigned_map calibrations streams uuids_drawn add_event add_stream
       draw_uuid]. rewrite Hpath.
  change (dict_set (as_path b) ?v []) with [(as_path b, v)].
  rewrite dict_set_same, Hs, <- app_assoc, drop_app_length. cbn [app poller_readers map].
  eexists _, _, _. split; [reflexivity|]. split; [reflexivity|].
  cbn [is_id is_alias is_session_id is_calibration_data is_allowed_inputs
       rd_stream_id rd_session_id calibration_data allowed_inputs].
  split; [reflexivity|]. split; [reflexivity|]. split.
  - intros Heq. apply uuid4_never_repeats in Heq. lia.
  - destruct (as_calibration a), (as_calibration b);
      rewrite ?lookup_insert_eq, ?lookup_empty; try (repeat split; reflexivity).
    rewrite lookup_insert_ne, lookup_empty; [repeat split; reflexivity|].
    intros Heq. apply uuid4_never_repeats in Heq. lia.
Qed.

End Readers.


(** *** Two participants in front of one video *)

Definition serial_uuid (n : nat) : string := "uuid-" ++ pretty n.

Lemma serial_uuid_never_repeats m n : serial_uuid m = serial_uuid n -> m = n.
Proof.
  unfold serial_uuid. intros Heq.
  rewrite !StudyEncryption.append_cons, !StudyEncryption.append_empty in Heq.
  injection Heq as Heq. apply pretty_nat_inj, Heq.
Qed.

Definition as_typed (s : string) : string := s.

(** A stick learned between [0] and [255] and one unlabelled button. *)
Definition stick_calibration : CalibrationState :=
  {| axes := {[ "ABS_X" := {| ac_min_value := 0; ac_max_value := 255;
                              ac_center_value := 128; ac_label := "Arousal" |} ]};
     buttons := {[ "BTN_SOUTH" := {| bc_label := "" |} ]} |}.

Definition pad (path name : string) (cal : option CalibrationState) : assignment :=
  {| as_path := path; as_name := Some name; as_calibration := cal |}.

(** Ann on a calibrated pad, Ben on a second pad. *)
Definition two_pads : ObserverWindow :=
  {| ow_recording_id := "rec-1"; ow_session_id := None;
     ow_assigned := {[ "A" := pad "/dev/input/event5" "Ann" (Some stick_calibration);
                       "B" := pad "/dev/input/event6" "Ben" None ]};
     chk_recognition := false; player_position := 0 |}.

(** Ann and Ben assigned to the same pad. *)
Definition one_pad_twice : ObserverWindow :=
  {| ow_recording_id := "rec-1"; ow_session_id := None;
     ow_assigned := {[ "A" := pad "/dev/input/event5" "Ann" (Some stick_calibration);
                       "B" := pad "/dev/input/event5" "Ben" None ]};
     chk_recognition := false; player_position := 0 |}.

Definition nothing_stored : store :=
  {| sessions := []; streams := []; events := []; uuids_drawn := 0 |}.

Lemma poller_reader_follows_calibration_witness :
  exists r,
    r ∈ poller_readers "rec-1" "sess-1" [("/dev/input/event5", ("st-a", "Ann"))]
          {[ "st-a" := stick_calibration ]}
    /\ (forall code,
          _parse_calibrations r !! code
          = (fun a => {| min_value := ac_min_value a; max_value := ac_max_value a |})
              <$> axes stick_calibration !! code)
    /\ (forall code,
          filtered_out (allowed_inputs r) code = false
          <-> (axes stick_calibration = ∅ /\ buttons stick_calibration = ∅)
              \/ is_Some (axes stick_calibration !! code)
              \/ is_Some (buttons stick_calibration !! code)).
Proof.
  eexists. split; [apply list_elem_of_here|].
  exact (poller_reader_follows_calibration "rec-1" "sess-1"
           [("/dev/input/event5", ("st-a", "Ann"))] {[ "st-a" := stick_calibration ]}
           _ (list_elem_of_here _ _)).
Defined.

Lemma readers_read_for_new_streams_witness :
  exists r s,
    r ∈ (_start_session serial_uuid as_typed two_pads nothing_stored).2
    /\ s ∈ new_streams nothing_stored
             (_start_session serial_uuid as_typed two_pads nothing_stored).1
    /\ reads_for s r.
Proof.
  assert (exists r, (_start_session serial_uuid as_typed two_pads nothing_stored).2 !! 0%nat
                    = Some r) as [r Hr] by (vm_compute; eexists; reflexivity).
  apply list_elem_of_lookup_2 in Hr.
  destruct (proj1 (readers_read_for_new_streams serial_uuid as_typed
                     serial_uuid_never_repeats nothing_stored) two_pads r Hr)
    as (s & Hs & Hreads).
  exists r, s. auto.
Defined.

Lemma each_new_stream_gets_its_reader_witness :
  Forall2 reads_for
    (new_streams nothing_stored (_start_session serial_uuid as_typed two_pads nothing_stored).1)
    (_start_session serial_uuid as_typed two_pads nothing_stored).2.
Proof.
  apply (each_new_stream_gets_its_reader serial_uuid as_typed serial_uuid_never_repeats).
  intros a b Ha Hb. vm_compute in Ha, Hb. injection Ha as <-. injection Hb as <-.
  vm_compute. discriminate.
Defined.

Lemma shared_device_gets_one_reader_witness :
  exists sA sB r,
    new_streams nothing_stored
      (_start_session serial_uuid as_typed one_pad_twice nothing_stored).1 = [sA; sB]
    /\ (_start_session serial_uuid as_typed one_pad_twice nothing_stored).2 = [r]
    /\ is_alias sA = "Ann" /\ is_alias sB = "Ben"
    /\ is_id sA <> is_id sB
    /\ reads_for sB r.
Proof.
  apply (shared_device_gets_one_reader serial_uuid as_typed serial_uuid_never_repeats
           one_pad_twice nothing_stored
           (pad "/dev/input/event5" "Ann" (Some stick_calibration))
           (pad "/dev/input/event5" "Ben" None)).
  - vm_compute. reflexivity.
  - vm_compute. reflexivity.
  - vm_compute. reflexivity.
  - reflexivity.
Defined.

End CaptureFacts.

(** ** More of [comprehensive_analyzer.py]: the aligned timeline and what
       the pairwise detectors report *)

Module AlignmentFacts.

Import PyNum Numpy Analyzer.
Local Open Scope Q_scope.

(** *** [np.unique] *)

Lemma In_elem_of {A} (x : A) (l : list A) : In x l -> x ∈ l.
Proof. apply list_elem_of_In. Qed.

Lemma elem_of_In {A} (x : A) (l : list A) : x ∈ l -> In x l.
Proof. apply list_elem_of_In. Qed.

Lemma Qle_bool_false_lt (x y : Q) : Qle_bool x y = false -> y < x.
Proof.
  intros H. destruct (Qlt_le_dec y x) as [Hlt | Hle]; [exact Hlt|].
  apply Qle_bool_iff in Hle. congruence.
Qed.

Lemma elem_of_insert_unique (x t : Q) (l : list Q) :
  t ∈ insert_unique x l -> t = x \/ t ∈ l.
Proof.
  induction l as [|y l IH]; cbn [insert_unique].
  - intros H. apply list_elem_of_singleton in H. auto.
  - destruct (Qeq_bool x y); [auto|]. destruct (Qle_bool x y).
    + intros H. apply elem_of_cons in H. tauto.
    + intros H. apply elem_of_cons in H as [-> | H].
      * right. apply list_elem_of_here.
      * destruct (IH H) as [-> | H']; [auto|]. right. apply list_elem_of_further, H'.
Qed.

Lemma insert_unique_holds (x q : Q) (l : list Q) :
  q == x -> exists t, t ∈ insert_unique x l /\ t == q.
Proof.
  intros Hq. induction l as [|y l IH]; cbn [insert_unique].
  - exists x. split; [apply list_elem_of_here | symmetry; exact Hq].
  - destruct (Qeq_bool x y) eqn:Hxy.
    + apply Qeq_bool_iff in Hxy. exists y. split; [apply list_elem_of_here|].
      rewrite Hq. symmetry. exact Hxy.
    + destruct (Qle_bool x y).
      * exists x. split; [apply list_elem_of_here | symmetry; exact Hq].
      * destruct IH as (t & Ht & Heq). exists t.
        split; [apply list_elem_of_further, Ht | exact Heq].
Qed.

Lemma insert_unique_keeps (x : Q) (l : list Q) (q : Q) :
  q ∈ l -> q ∈ insert_unique x l.
Proof.
  induction l as [|y l IH]; cbn [insert_unique]; intros Hin.
  - apply elem_of_nil in Hin. contradiction.
  - destruct (Qeq_bool x y); [exact Hin|]. destruct (Qle_bool x y).
    + apply list_elem_of_further, Hin.
    + apply elem_of_cons in Hin as [-> | Hin];
        [apply list_elem_of_here | apply list_elem_of_further, IH, Hin].
Qed.

Lemma insert_unique_sorted (x : Q) (l : list Q) :
  StronglySorted Qlt l -> StronglySorted Qlt (insert_unique x l).
Proof.
  induction l as [|y l IH]; cbn [insert_unique]; intros Hs.
  - repeat constructor.
  - apply StronglySorted_inv in Hs as [Hs Hy].
    destruct (Qeq_bool x y) eqn:Heq; [constructor; assumption|].
    destruct (Qle_bool x y) eqn:Hle.
    + apply Qle_bool_iff in Hle.
      assert (x < y) as Hlt.
      { apply Qle_lt_or_eq in Hle as [Hlt | He]; [exact Hlt|].
        apply Qeq_bool_iff in He. congruence. }
      constructor; [constructor; assumption|].
      constructor; [exact Hlt|].
      eapply Forall_impl; [exact Hy|]. intros z Hz. cbv beta in Hz.
      eapply Qlt_trans; eassumption.
    + apply Qle_bool_false_lt in Hle.
      constructor; [apply IH, Hs|].
      apply Forall_forall. intros z Hz. apply elem_of_insert_unique in Hz.
      destruct Hz as [-> | Hz]; [exact Hle|].
      rewrite Forall_forall in Hy. apply Hy, Hz.
Qed.

Lemma np_unique_sorted (a : list Q) : StronglySorted Qlt (np_unique a).
Proof.
  unfold np_unique. induction a as [|x a IH]; cbn [foldr]; [constructor|].
  apply insert_unique_sorted, IH.
Qed.

Lemma elem_of_np_unique (a : list Q) (t : Q) : t ∈ np_unique a -> t ∈ a.
Proof.
  unfold np_unique. induction a as [|x a IH]; cbn [foldr]; [auto|].
  intros H. apply elem_of_insert_unique in H as [-> | H];
    [apply list_elem_of_here | apply list_elem_of_further, IH, H].
Qed.

Lemma np_unique_holds (a : list Q) (q : Q) :
  q ∈ a -> exists t, t ∈ np_unique a /\ t == q.
Proof.
  unfold np_unique. induction a as [|x a IH]; cbn [foldr]; intros Hin.
  - apply elem_of_nil in Hin. contradiction.
  - apply elem_of_cons in Hin as [-> | Hin].
    + apply insert_unique_holds. reflexivity.
    + destruct (IH Hin) as (t & Ht & Heq). exists t.
      split; [apply insert_unique_keeps, Ht | exact Heq].
Qed.

Lemma filter_sorted (f : Q -> bool) (l : list Q) :
  StronglySorted Qlt l -> StronglySorted Qlt (List.filter f l).
Proof.
  induction 1 as [|x l Hs IH Hx]; cbn [List.filter]; [constructor|].
  destruct (f x); [|exact IH]. constructor; [exact IH|].
  apply Forall_forall. intros z Hz. apply elem_of_In, filter_In in Hz as [Hz _].
  rewrite Forall_forall in Hx. apply Hx, In_elem_of, Hz.
Qed.

Lemma qmax_bounds (x y : Q) : x <= qmax x y /\ y <= qmax x y.
Proof.
  unfold qmax. destruct (Qle_bool x y) eqn:H.
  - apply Qle_bool_iff in H. split; [exact H | apply Qle_refl].
  - apply Qle_bool_false_lt in H. split; [apply Qle_refl | apply Qlt_le_weak, H].
Qed.

Lemma qmin_bounds (x y : Q) : qmin x y <= x /\ qmin x y <= y.
Proof.
  unfold qmin. destruct (Qle_bool x y) eqn:H.
  - apply Qle_bool_iff in H. split; [apply Qle_refl | exact H].
  - apply Qle_bool_false_lt in H. split; [apply Qlt_le_weak, H | apply Qle_refl].
Qed.

Lemma qmax_cases (x y : Q) : qmax x y = x \/ qmax x y = y.
Proof. unfold qmax. destruct (Qle_bool x y); auto. Qed.

Lemma qmin_cases (x y : Q) : qmin x y = x \/ qmin x y = y.
Proof. unfold qmin. destruct (Qle_bool x y); auto. Qed.

(** X17.  The timeline [_align_traces] returns is strictly increasing;
    both value arrays have its length; every point of it is a sample
    time of one of the two traces and lies between the later of the two
    first samples and the earlier of the two last samples; and every
    sample time in that range is on it. *)
Theorem aligned_timeline data1 data2 times v1 v2 :
  _align_traces data1 data2 = Some (times, v1, v2) ->
  StronglySorted Qlt times
  /\ length v1 = length times /\ length v2 = length times
  /\ exists first1 last1 first2 last2,
       head (times_ms data1) = Some first1 /\ last (times_ms data1) = Some last1
       /\ head (times_ms data2) = Some first2 /\ last (times_ms data2) = Some last2
       /\ (forall t, t ∈ times ->
             (t ∈ times_ms data1 \/ t ∈ times_ms data2)
             /\ first1 <= t /\ first2 <= t /\ t <= last1 /\ t <= last2)
       /\ (forall q, q ∈ times_ms data1 \/ q ∈ times_ms data2 ->
             first1 <= q -> first2 <= q -> q <= last1 -> q <= last2 ->
             exists t, t ∈ times /\ t == q).
Proof.
  unfold _align_traces.
  destruct (head (times_ms data1)) as [first1|]; [|discriminate].
  destruct (head (times_ms data2)) as [first2|]; [|discriminate].
  destruct (last (times_ms data1)) as [last1|]; [|discriminate].
  destruct (last (times_ms data2)) as [last2|]; [|discriminate].
  cbn. intros [= <- <- <-].
  split; [apply filter_sorted, np_unique_sorted|].
  split; [apply length_map|]. split; [apply length_map|].
  exists first1, last1, first2, last2. do 4 (split; [reflexivity|]).
  pose proof (qmax_bounds first1 first2) as [Hf1 Hf2].
  pose proof (qmin_bounds last1 last2) as [Hl1 Hl2].
  split.
  - intros t Ht. apply elem_of_In, filter_In in Ht as [Ht Hrange].
    apply In_elem_of, elem_of_np_unique, elem_of_app in Ht.
    apply andb_true_iff in Hrange as [Hlo Hhi].
    apply Qle_bool_iff in Hlo, Hhi.
    split; [exact Ht|]. repeat split; eapply Qle_trans; eassumption.
  - intros q Hq H1 H2 H3 H4.
    destruct (np_unique_holds (times_ms data1 ++ times_ms data2) q) as (t & Ht & Heq).
    { apply elem_of_app, Hq. }
    exists t. split; [|exact Heq].
    apply In_elem_of, filter_In. split; [apply elem_of_In, Ht|].
    apply andb_true_iff. split; apply Qle_bool_iff; rewrite Heq.
    + destruct (qmax_cases first1 first2) as [-> | ->]; assumption.
    + destruct (qmin_cases last1 last2) as [-> | ->]; assumption.
Qed.

(** *** [np.interp] on its own sample times *)

Lemma interp_from_at_sample : forall rest x0 f0 i x f,
  StronglySorted Qlt (x0 :: rest.*1) ->
  ((x0, f0) :: rest) !! i = Some (x, f) ->
  interp_from x x0 f0 rest == f.
Proof.
  induction rest as [|[x1 f1] rest IH]; intros x0 f0 i x f Hs Hi.
  - destruct i; [|discriminate]. injection Hi as <- <-. reflexivity.
  - apply StronglySorted_inv in Hs as [Hs Hx0]. cbn [interp_from].
    destruct i as [|i].
    + injection Hi as <- <-.
      apply Forall_inv in Hx0. cbn [fst] in Hx0.
      unfold Qltb. destruct (Qle_bool x1 x0) eqn:Hle.
      { apply Qle_bool_iff in Hle. exfalso. apply (Qlt_not_le _ _ Hx0 Hle). }
      cbn [negb]. field. intros Heq. lra.
    + cbn [lookup list_lookup] in Hi.
      assert (x1 <= x) as Hx1.
      { destruct i as [|i].
        - injection Hi as <- _. apply Qle_refl.
        - cbn in Hs. apply StronglySorted_inv in Hs as [_ Hx1].
          rewrite Forall_forall in Hx1. apply Qlt_le_weak, Hx1.
          cbn [lookup list_lookup] in Hi.
          apply list_elem_of_fmap. exists (x, f).
          split; [reflexivity | eapply list_elem_of_lookup_2, Hi]. }
      unfold Qltb. apply Qle_bool_iff in Hx1. rewrite Hx1. cbn [negb].
      apply (IH x1 f1 i x f Hs Hi).
Qed.

Lemma interp1_at_sample xp fp i x f :
  StronglySorted Qlt xp -> length xp = length fp ->
  xp !! i = Some x -> fp !! i = Some f ->
  interp1 xp fp x = Qred f.
Proof.
  intros Hs Hlen Hx Hf. unfold interp1.
  assert (zip xp fp !! i = Some (x, f)) as Hi.
  { rewrite lookup_zip_with, Hx. cbn. rewrite Hf. reflexivity. }
  assert ((zip xp fp).*1 = xp) as Hfst by (apply fst_zip; lia).
  destruct (zip xp fp) as [|[x0 f0] rest]; [discriminate|].
  rewrite <- Hfst in Hs. cbn [fmap list_fmap fst] in Hs.
  assert (x0 <= x) as Hx0.
  { destruct i as [|i]; [injection Hi as <- _; apply Qle_refl|].
    apply StronglySorted_inv in Hs as [_ Hall]. rewrite Forall_forall in Hall.
    apply Qlt_le_weak, Hall. cbn [lookup list_lookup] in Hi.
    apply list_elem_of_fmap. exists (x, f).
    split; [reflexivity | eapply list_elem_of_lookup_2, Hi]. }
  unfold Qltb. apply Qle_bool_iff in Hx0. rewrite Hx0. cbn [negb].
  apply Qred_complete. exact (interp_from_at_sample rest x0 f0 i x f Hs Hi).
Qed.

(** X18.  Alignment keeps the recorded values: for a trace with strictly
    increasing sample times, wherever a point of the common timeline is
    one of the trace's own sample times, the aligned value there is the
    value recorded at that sample. *)
Theorem aligned_values_keep_samples data1 data2 times v1 v2 :
  _align_traces data1 data2 = Some (times, v1, v2) ->
  (StronglySorted Qlt (times_ms data1) ->
   length (times_ms data1) = length (values data1) ->
   forall j i t f,
     times !! j = Some t -> times_ms data1 !! i = Some t -> values data1 !! i = Some f ->
     v1 !! j = Some (Qred f))
  /\ (StronglySorted Qlt (times_ms data2) ->
      length (times_ms data2) = length (values data2) ->
      forall j i t f,
        times !! j = Some t -> times_ms data2 !! i = Some t -> values data2 !! i = Some f ->
        v2 !! j = Some (Qred f)).
Proof.
  unfold _align_traces.
  destruct (head (times_ms data1)); [|discriminate].
  destruct (head (times_ms data2)); [|discriminate].
  destruct (last (times_ms data1)); [|discriminate].
  destruct (last (times_ms data2)); [|discriminate].
  cbn. intros [= <- <- <-].
  split; intros Hs Hlen j i t f Hj Hi Hf; unfold np_interp;
    change (@map Q Q) with (@fmap list _ Q Q);
    rewrite list_lookup_fmap, Hj; cbn [fmap option_fmap option_map];
    f_equal; eapply interp1_at_sample; eassumption.
Qed.

(** *** What the detectors report *)

(** An event [(start_ms, end_ms, strength)] that spans at least half a
    second. *)
Definition long_enough (ev : Z * Z * Q) : Prop := (500 <= ev.1.2 - ev.1.1)%Z.

Lemma py_int_near (x : Q) : x - 1 < inject_Z (py_int x) /\ inject_Z (py_int x) < x + 1.
Proof.
  unfold py_int. destruct (Qle_bool 0 x).
  - pose proof (Qfloor_le x). pose proof (Qlt_floor x) as Hlt.
    rewrite inject_Z_plus in Hlt. change (inject_Z 1) with 1 in Hlt. split; lra.
  - pose proof (Qle_ceiling x). pose proof (Qceiling_lt x) as Hlt.
    unfold Z.sub in Hlt. rewrite inject_Z_plus, inject_Z_opp in Hlt.
    change (inject_Z 1) with 1 in Hlt. split; lra.
Qed.

Lemma long_event (a b : Q) :
  (500 <? py_int (b - a))%Z = true -> (500 <= py_int b - py_int a)%Z.
Proof.
  intros Hlong. apply Z.ltb_lt in Hlong.
  assert (501 <= b - a) as Hspan.
  { revert Hlong. unfold py_int. destruct (Qle_bool 0 (b - a)) eqn:Hsign; intros Hlong.
    - pose proof (Qfloor_le (b - a)) as Hfl.
      assert (inject_Z 501 <= inject_Z (Qfloor (b - a))) as H501
        by (rewrite <- Zle_Qle; lia).
      change (inject_Z 501) with 501 in H501. lra.
    - apply Qle_bool_false_lt in Hsign.
      assert (b - a <= 0) as Hneg by lra.
      apply Qceiling_resp_le in Hneg. change (Qceiling 0) with 0%Z in Hneg. lia. }
  destruct (py_int_near a) as [_ Ha]. destruct (py_int_near b) as [Hb _].
  assert (inject_Z 499 < inject_Z (py_int b - py_int a)) as Hq.
  { unfold Z.sub. rewrite inject_Z_plus, inject_Z_opp.
    change (inject_Z 499) with 499. lra. }
  rewrite <- Zlt_Qlt in Hq. lia.
Qed.

Lemma scan_step_long times norm_dist st i d :
  Forall long_enough (found_convergence st) ->
  Forall long_enough (found_divergence st) ->
  Forall long_enough (found_convergence (scan_step times norm_dist st i d))
  /\ Forall long_enough (found_divergence (scan_step times norm_dist st i d)).
Proof.
  intros Hc Hd. unfold scan_step.
  repeat match goal with
         | |- context [if ?b then _ else _] =>
             let H := fresh "Hb" in destruct b eqn:H
         end;
    cbn [found_convergence found_divergence in_convergence in_divergence start_idx];
    split; try assumption;
    apply Forall_app; (split; [assumption|]);
    apply Forall_singleton; unfold long_enough; cbn [fst snd];
    apply long_event; assumption.
Qed.

Lemma scan_from_long times norm_dist : forall rest st i,
  Forall long_enough (found_convergence st) ->
  Forall long_enough (found_divergence st) ->
  Forall long_enough (found_convergence (scan_from times norm_dist st i rest))
  /\ Forall long_enough (found_divergence (scan_from times norm_dist st i rest)).
Proof.
  induction rest as [|d rest IH]; intros st i Hc Hd; cbn [scan_from]; [auto|].
  destruct (scan_step_long times norm_dist st i d Hc Hd) as [Hc' Hd'].
  apply IH; assumption.
Qed.

(** X20.  Every convergence and every divergence event that
    [_detect_convergence_divergence] reports spans at least half a
    second: its end is at least 500 ms after its start. *)
Theorem reported_events_span_half_a_second (times distances : list Q) :
  Forall long_enough (_detect_convergence_divergence times distances).1
  /\ Forall long_enough (_detect_convergence_divergence times distances).2.
Proof.
  unfold _detect_convergence_divergence.
  destruct (length distances <? 10)%nat; [split; constructor|].
  destruct (Qltb _ _); [split; constructor|].
  cbn [fst snd]. apply scan_from_long; constructor.
Qed.

Lemma lookup_np_diff : forall (v : list Q) (i : nat) (a : Q),
  np_diff v !! i = Some a ->
  exists x y, v !! i = Some x /\ v !! S i = Some y /\ a = y - x.
Proof.
  induction v as [|x [|y v] IH]; intros i a Hi; try discriminate.
  destruct i as [|i].
  - injection Hi as <-. exists x, y. auto.
  - change (np_diff (y :: v) !! i = Some a) in Hi. apply IH in Hi. exact Hi.
Qed.

(** X21.  Every time [_detect_opposite_movements] reports is the
    (truncated) time of a timeline point that is not the last one, and
    between that point and the next the two traces step in opposite
    directions. *)
Theorem opposite_movements_are_opposite_steps (times values1 values2 : list Q) (t : Z) :
  t ∈ _detect_opposite_movements times values1 values2 ->
  exists i a0 a1 b0 b1,
    t = py_int (nth i times 0) /\ (S i < length times)%nat
    /\ values1 !! i = Some a0 /\ values1 !! S i = Some a1
    /\ values2 !! i = Some b0 /\ values2 !! S i = Some b1
    /\ (a1 - a0) * (b1 - b0) < 0.
Proof.
  unfold _detect_opposite_movements.
  destruct (length values1 <? 2)%nat.
  { intros H. apply elem_of_nil in H. contradiction. }
  cbv zeta. intros Ht.
  apply elem_of_In, in_map_iff in Ht as (i & <- & Hi).
  apply filter_In in Hi as [Hi Hlast]. apply Nat.ltb_lt in Hlast.
  apply In_elem_of, list_elem_of_omap in Hi as ([j [a b]] & Hin & Hsel).
  apply elem_of_lookup_imap in Hin as (k & ab & Heq & Hk). injection Heq as -> <-.
  cbv beta iota in Hsel.
  destruct (Qltb (a * b) 0) eqn:Hsign; [|discriminate].
  destruct (Qltb _ (Qabs a)); [|discriminate].
  destruct (Qltb _ (Qabs b)); [|discriminate].
  cbn [andb] in Hsel. injection Hsel as <-.
  apply lookup_zip_with_Some in Hk as (a' & b' & [= <- <-] & Ha & Hb).
  apply lookup_np_diff in Ha as (a0 & a1 & Ha0 & Ha1 & ->).
  apply lookup_np_diff in Hb as (b0 & b1 & Hb0 & Hb1 & ->).
  exists k, a0, a1, b0, b1. split; [reflexivity|]. split; [lia|].
  do 4 (split; [assumption|]).
  unfold Qltb in Hsign. apply negb_true_iff, Qle_bool_false_lt in Hsign. exact Hsign.
Qed.

Lemma argmax_from_bound : forall (a : list Q) best best_i i,
  (best_i < i)%nat -> (argmax_from best best_i i a < i + length a)%nat.
Proof.
  induction a as [|x a IH]; intros best best_i i Hlt; cbn [argmax_from length]; [lia|].
  destruct (Qltb best x).
  - specialize (IH x i (S i)). lia.
  - specialize (IH best best_i (S i)). lia.
Qed.

Lemma np_argmax_bound (a : list Q) : a <> [] -> (np_argmax a < length a)%nat.
Proof.
  destruct a as [|x a]; [congruence|]. intros _. unfold np_argmax.
  pose proof (argmax_from_bound a x 0%nat 1%nat). cbn [length]. lia.
Qed.

Lemma py_int_abs (x : Q) : inject_Z (Z.abs (py_int x)) <= Qabs x.
Proof.
  unfold py_int. destruct (Qle_bool 0 x) eqn:Hsign.
  - apply Qle_bool_iff in Hsign.
    pose proof (Qfloor_resp_le _ _ Hsign) as H0. change (Qfloor 0) with 0%Z in H0.
    rewrite Z.abs_eq, Qabs_pos by assumption. apply Qfloor_le.
  - apply Qle_bool_false_lt in Hsign.
    assert (x <= 0) as Hneg by lra.
    pose proof (Qceiling_resp_le _ _ Hneg) as H0. change (Qceiling 0) with 0%Z in H0.
    rewrite Z.abs_neq, Qabs_neg, inject_Z_opp by assumption.
    pose proof (Qle_ceiling x). lra.
Qed.

(** X22.  The lead-lag that [_compute_lead_lag] reports, in
    milliseconds, is never longer than the timeline it was computed on:
    its absolute value is at most the time from the first to the last
    point. *)
Theorem lead_lag_within_timeline (values1 values2 times : list Q) (first final : Q) :
  length times = length values1 ->
  head times = Some first -> last times = Some final -> first <= final ->
  inject_Z (Z.abs (_compute_lead_lag values1 values2 times).1) <= final - first.
Proof.
  intros Hlen Hfirst Hfinal Hle. unfold _compute_lead_lag.
  destruct (length values1 <? 10)%nat eqn:Hshort.
  { cbn [fst]. change (inject_Z (Z.abs 0)) with 0. lra. }
  apply Nat.ltb_ge in Hshort. cbv zeta. cbn [fst].
  destruct (1 <? length times)%nat; [|change (inject_Z (Z.abs 0)) with 0; lra].
  set (n := length values1) in *.
  set (correlation := map _ (np_correlate_full _ _)).
  assert (length correlation = (2 * n - 1)%nat) as Hcorr.
  { unfold correlation, np_correlate_full.
    rewrite !length_map, length_seq. reflexivity. }
  assert (np_argmax (map Qabs correlation) < 2 * n - 1)%nat as Hidx.
  { rewrite <- Hcorr, <- (length_map Qabs). apply np_argmax_bound.
    intros Hnil. apply (f_equal length) in Hnil. rewrite length_map, Hcorr in Hnil.
    cbn in Hnil. lia. }
  set (k := np_argmax (map Qabs correlation)) in *.
  assert (py_getitem times (-1) = final) as ->.
  { unfold py_getitem. change (-1 <? 0)%Z with true. cbv iota.
    rewrite last_lookup in Hfinal. rewrite nth_lookup.
    replace (Z.to_nat (Z.of_nat (length times) + -1)) with (pred (length times)) by lia.
    rewrite Hfinal. reflexivity. }
  assert (nth 0 times 0 = first) as ->.
  { destruct times; [discriminate|]. injection Hfirst as ->. reflexivity. }
  eapply Qle_trans; [apply py_int_abs|].
  rewrite Hlen. fold n.
  set (lag := (Z.of_nat k - (Z.of_nat n - 1))%Z).
  assert (0 < inject_Z (Z.of_nat n - 1)) as Hpos.
  { change 0 with (inject_Z 0). rewrite <- Zlt_Qlt. lia. }
  assert (Qabs (inject_Z lag) <= inject_Z (Z.of_nat n - 1)) as Hlag.
  { apply Qabs_Qle_condition. split.
    - rewrite <- inject_Z_opp, <- Zle_Qle. unfold lag. lia.
    - rewrite <- Zle_Qle. unfold lag. lia. }
  rewrite Qabs_Qmult.
  assert (Qabs ((final - first) / inject_Z (Z.of_nat n - 1))
          == (final - first) / inject_Z (Z.of_nat n - 1)) as ->.
  { apply Qabs_pos. apply Qle_shift_div_l; [exact Hpos | lra]. }
  assert (0 <= (final - first) / inject_Z (Z.of_nat n - 1)) as Havg
    by (apply Qle_shift_div_l; [exact Hpos | lra]).
  assert ((final - first) == inject_Z (Z.of_nat n - 1)
                             * ((final - first) / inject_Z (Z.of_nat n - 1))) as Hsplit
    by (field; lra).
  rewrite Hsplit at 2. apply Qmult_le_compat_r; assumption.
Qed.

(** *** A trace compared with itself *)

Lemma foldl_qmin_zero (l : list Q) : forall x,
  x == 0 -> Forall (fun d => d == 0) l -> foldl qmin x l == 0.
Proof.
  induction l as [|y l IH]; intros x Hx Hl; [exact Hx|].
  apply Forall_cons in Hl as [Hy Hl]. cbn [foldl]. apply IH; [|exact Hl].
  destruct (qmin_cases x y) as [-> | ->]; assumption.
Qed.

Lemma foldl_qmax_zero (l : list Q) : forall x,
  x == 0 -> Forall (fun d => d == 0) l -> foldl qmax x l == 0.
Proof.
  induction l as [|y l IH]; intros x Hx Hl; [exact Hx|].
  apply Forall_cons in Hl as [Hy Hl]. cbn [foldl]. apply IH; [|exact Hl].
  destruct (qmax_cases x y) as [-> | ->]; assumption.
Qed.

Lemma no_distance_no_events (times distances : list Q) :
  Forall (fun d => d == 0) distances ->
  _detect_convergence_divergence times distances = ([], []).
Proof.
  intros Hzero. unfold _detect_convergence_divergence.
  destruct (length distances <? 10)%nat; [reflexivity|].
  assert (np_min distances == 0 /\ np_max distances == 0) as [Hmin Hmax].
  { destruct distances as [|d l]; [split; reflexivity|].
    apply Forall_cons in Hzero as [Hd Hl].
    split; [apply foldl_qmin_zero | apply foldl_qmax_zero]; assumption. }
  assert (Qltb (np_max distances - np_min distances) (1 # 1000) = true) as ->;
    [|reflexivity].
  unfold Qltb. apply negb_true_iff.
  destruct (Qle_bool (1 # 1000) (np_max distances - np_min distances)) eqn:Hle;
    [|reflexivity].
  apply Qle_bool_iff in Hle. rewrite Hmax, Hmin in Hle. lra.
Qed.

Lemma zip_self_distance (v : list Q) :
  Forall (fun d => d == 0) (map (fun '(v1, v2) => Qabs (v1 - v2)) (zip v v)).
Proof.
  induction v as [|x v IH]; [constructor|].
  change (zip (x :: v) (x :: v)) with ((x, x) :: zip v v). cbn [map].
  constructor; [|exact IH].
  assert (x - x == 0) as -> by ring. reflexivity.
Qed.

Lemma omap_none {A B} (f : A -> option B) (l : list A) :
  (forall x, x ∈ l -> f x = None) -> omap f l = [].
Proof.
  induction l as [|x l IH]; intros Hnone; [reflexivity|].
  cbn [omap list_omap]. rewrite (Hnone x) by apply list_elem_of_here.
  apply IH. intros y Hy. apply Hnone, list_elem_of_further, Hy.
Qed.

Lemma same_steps_never_opposite (times v : list Q) :
  _detect_opposite_movements times v v = [].
Proof.
  unfold _detect_opposite_movements. destruct (length v <? 2)%nat; [reflexivity|].
  cbv zeta. rewrite omap_none; [reflexivity|].
  intros [i [a b]] Hin.
  apply elem_of_lookup_imap in Hin as (k & ab & Heq & Hk). injection Heq as -> <-.
  apply lookup_zip_with_Some in Hk as (a' & b' & [= <- <-] & Ha & Hb).
  assert (a = b) as <- by congruence.
  assert (Qltb (a * a) 0 = false) as ->; [|reflexivity].
  unfold Qltb. apply negb_false_iff, Qle_bool_iff. nra.
Qed.

Section Detectors.

Variable find_peaks : list Q -> Z -> list nat.

(** X19.  Two traces that do not overlap in time, one ending before the
    other begins, get the empty results. *)
Theorem traces_without_overlap_give_empty_results data1 data2 first1 last1 first2 last2 :
  head (times_ms data1) = Some first1 -> last (times_ms data1) = Some last1 ->
  head (times_ms data2) = Some first2 -> last (times_ms data2) = Some last2 ->
  last1 < first2 \/ last2 < first1 ->
  _analyze_pairwise find_peaks data1 data2 = EmptyResults.
Proof.
  intros Hf1 Hl1 Hf2 Hl2 Hapart.
  unfold _analyze_pairwise, _align_traces. rewrite Hf1, Hl1, Hf2, Hl2. cbn.
  assert (List.filter
            (fun t => Qle_bool (qmax first1 first2) t && Qle_bool t (qmin last1 last2))
            (np_unique (times_ms data1 ++ times_ms data2)) = []) as ->; [|reflexivity].
  pose proof (qmax_bounds first1 first2) as [Hlo1 Hlo2].
  pose proof (qmin_bounds last1 last2) as [Hhi1 Hhi2].
  induction (np_unique (times_ms data1 ++ times_ms data2)) as [|t l IH]; [reflexivity|].
  cbn [List.filter].
  destruct (Qle_bool (qmax first1 first2) t) eqn:Hlo; [|exact IH].
  destruct (Qle_bool t (qmin last1 last2)) eqn:Hhi; [|exact IH].
  exfalso. apply Qle_bool_iff in Hlo, Hhi. destruct Hapart; lra.
Qed.

(** X23.  A trace analysed against itself has no convergence event, no
    divergence event and no opposite movement. *)
Theorem trace_against_itself_is_quiet (data : trace) (r : PairwiseResults) :
  _analyze_pairwise find_peaks data data = Pairwise r ->
  convergence_events r = [] /\ divergence_events r = [] /\ opposite_movements r = [].
Proof.
  unfold _analyze_pairwise.
  destruct (_align_traces data data) as [[[times v1] v2]|] eqn:Halign; [|discriminate].
  assert (v1 = v2) as <-.
  { revert Halign. unfold _align_traces.
    destruct (head (times_ms data)); [|discriminate].
    destruct (last (times_ms data)); [|discriminate].
    cbn. intros [= _ <- <-]. reflexivity. }
  destruct (length times <? 2)%nat; [discriminate|].
  rewrite (no_distance_no_events times _ (zip_self_distance v1)).
  destruct (_compute_lead_lag v1 v1 times) as [lag cc].
  intros [= <-]. cbn [convergence_events divergence_events opposite_movements].
  split; [reflexivity|]. split; [reflexivity|]. apply same_steps_never_opposite.
Qed.


End Detectors.

(** *** Two overlapping traces *)

Definition early : trace := {| times_ms := [0; 100; 200]; values := [0; 4; 2] |}.
Definition late : trace := {| times_ms := [50; 150; 250]; values := [1; 1; 3] |}.
Definition afterwards : trace := {| times_ms := [300; 400]; values := [5; 6] |}.

Lemma early_late_aligned :
  _align_traces early late = Some ([50; 100; 150; 200], [2; 4; 3; 2], [1; 1; 1; 2]).
Proof. vm_compute. reflexivity. Qed.

Lemma aligned_timeline_witness :
  StronglySorted Qlt [50; 100; 150; 200]
  /\ forall t, t ∈ [50; 100; 150; 200] -> 50 <= t /\ t <= 200.
Proof.
  destruct (aligned_timeline early late _ _ _ early_late_aligned)
    as (Hsorted & _ & _ & first1 & last1 & first2 & last2
        & Hf1 & Hl1 & Hf2 & Hl2 & Hin & _).
  split; [exact Hsorted|]. intros t Ht.
  injection Hl1 as <-. injection Hf2 as <-.
  destruct (Hin t Ht) as (_ & _ & Hlo & Hhi & _). auto.
Defined.

(** The point 100 ms of the timeline is the second sample of [early]. *)
Lemma aligned_values_keep_samples_witness :
  ([2; 4; 3; 2] : list Q) !! 1%nat = Some (Qred 4).
Proof.
  apply (proj1 (aligned_values_keep_samples early late _ _ _ early_late_aligned))
    with (i := 1%nat) (t := 100).
  - repeat constructor.
  - reflexivity.
  - reflexivity.
  - reflexivity.
  - reflexivity.
Defined.

(** A peak finder that finds no peak. *)
Definition peaks_nowhere (x : list Q) (distance : Z) : list nat := [].

Lemma traces_without_overlap_give_empty_results_witness :
  _analyze_pairwise peaks_nowhere early afterwards = EmptyResults.
Proof.
  apply (traces_without_overlap_give_empty_results peaks_nowhere early afterwards
           0 200 300 400); try reflexivity.
  left. reflexivity.
Defined.

(** One trace going up while the other comes down. *)
Lemma opposite_movements_are_opposite_steps_witness :
  exists i a0 a1 b0 b1,
    0%Z = py_int (nth i [0; 10] 0) /\ (S i < length [0; 10])%nat
    /\ [0; 1] !! i = Some a0 /\ [0; 1] !! S i = Some a1
    /\ [1; 0] !! i = Some b0 /\ [1; 0] !! S i = Some b1
    /\ (a1 - a0) * (b1 - b0) < 0.
Proof.
  apply (opposite_movements_are_opposite_steps [0; 10] [0; 1] [1; 0] 0%Z).
  vm_compute. apply list_elem_of_here.
Defined.

(** Ten samples, 10 ms apart. *)
Definition ten_times : list Q := [0; 10; 20; 30; 40; 50; 60; 70; 80; 90].
Definition ten_up : list Q := [0; 1; 2; 3; 4; 5; 4; 3; 2; 1].
Definition ten_late : list Q := [0; 0; 0; 1; 2; 3; 4; 5; 4; 3].

Lemma lead_lag_within_timeline_witness :
  inject_Z (Z.abs (_compute_lead_lag ten_up ten_late ten_times).1) <= 90 - 0.
Proof.
  apply (lead_lag_within_timeline ten_up ten_late ten_times 0 90).
  - reflexivity.
  - reflexivity.
  - reflexivity.
  - vm_compute. discriminate.
Defined.

Lemma trace_against_itself_is_quiet_witness :
  exists r,
    _analyze_pairwise peaks_nowhere early early = Pairwise r
    /\ convergence_events r = [] /\ divergence_events r = []
    /\ opposite_movements r = [].
Proof.
  eexists. split; [vm_compute; reflexivity|].
  apply (trace_against_itself_is_quiet peaks_nowhere early). vm_compute. reflexivity.
Defined.


End AlignmentFacts.

(** ** More of [timeseries_converter.py]: button series and the time axis *)

Module SeriesFacts.

Import PyNum Numpy TimeSeries.
Local Open Scope Q_scope.

(** Insertion in front of the first entry whose key is not smaller. *)
Fixpoint insert_by {A : Type} (key : A -> Z) (x : A) (l : list A) : list A :=
  match l with
  | [] => [x]
  | y :: l' => if (key x <=? key y)%Z then x :: l else y :: insert_by key x l'
  end.

(** [sorted(l, key=key)]: increasing by key, entries of equal key in the
    order they had. *)
Definition py_sorted {A : Type} (key : A -> Z) (l : list A) : list A :=
  foldr (insert_by key) [] l.

(** [while change_idx < len(state_changes) and state_changes[change_idx][0] <= t:
       current_state = state_changes[change_idx][1]; change_idx += 1],
    with [pending] the entries of [state_changes] from [change_idx] on. *)
Fixpoint apply_changes (t : Q) (pending : list (Z * Z)) (current_state : Z)
    : Z * list (Z * Z) :=
  match pending with
  | [] => (current_state, [])
  | (t_change, new_state) :: pending' =>
      if Qle_bool (inject_Z t_change) t then apply_changes t pending' new_state
      else (current_state, pending)
  end.

(** [for i, t in enumerate(regular_times)] of [convert_button_events]. *)
Fixpoint button_loop (regular_times : list Q) (pending : list (Z * Z)) (current_state : Z)
    : list Z :=
  match regular_times with
  | [] => []
  | t :: regular_times' =>
      let '(current_state, pending) := apply_changes t pending current_state in
      current_state :: button_loop regular_times' pending current_state
  end.

Definition convert_button_events (self : TimeSeriesConverter)
    (presses_ms releases_ms : list Z) (max_time_ms : Z) : conversion :=
  if (max_time_ms <=? 0)%Z then Return [] []
  else
    let num_samples := (Qceiling (inject_Z max_time_ms / interval_ms self) + 1)%Z in
    let regular_times := sample_times (interval_ms self) num_samples in
    let all_presses := py_sorted (fun t => t) presses_ms in
    let all_releases := py_sorted (fun t => t) releases_ms in
    let state_changes :=
      (map (fun t => (t, 1%Z)) all_presses ++ map (fun t => (t, 0%Z)) all_releases)%list in
    let state_changes := py_sorted fst state_changes in
    let button_states := button_loop regular_times state_changes 0%Z in
    match mapM astype_int32 regular_times with
    | Some regular_times_int => Return regular_times_int button_states
    | None => Unrepresentable
    end.

(** [get_time_axis]; [None] when a time does not fit [np.int32]. *)
Definition get_time_axis (self : TimeSeriesConverter) (max_time_ms : Z) : option (list Z) :=
  if (max_time_ms <=? 0)%Z then Some []
  else
    let num_samples := (Qceiling (inject_Z max_time_ms / interval_ms self) + 1)%Z in
    mapM astype_int32 (sample_times (interval_ms self) num_samples).

Definition get_sample_count (self : TimeSeriesConverter) (duration_ms : Z) : Z :=
  (Qceiling (inject_Z duration_ms / interval_ms self) + 1)%Z.

(** [buttons_to_timeseries] *)
Definition buttons_to_timeseries (presses_ms releases_ms : list Z) (max_time_ms : Z)
    (sampling_rate_hz : Z) : conversion :=
  match __init__ sampling_rate_hz with
  | None => ValueError "Sampling rate must be positive"
  | Some converter => convert_button_events converter presses_ms releases_ms max_time_ms
  end.

(** The button is held at time [t]: some press at or before [t] is later
    than every release at or before [t]. *)
Definition pressed_at (presses_ms releases_ms : list Z) (t : Z) : Prop :=
  exists p, p ∈ presses_ms /\ (p <= t)%Z
            /\ forall r, r ∈ releases_ms -> (r <= t)%Z -> (r < p)%Z.

(** [s] is the state of the button at time [t]: [1] held, [0] released. *)
Definition button_state_at (presses_ms releases_ms : list Z) (t s : Z) : Prop :=
  (s = 1%Z /\ pressed_at presses_ms releases_ms t)
  \/ (s = 0%Z /\ ~ pressed_at presses_ms releases_ms t).

(** The order of the state changes after the last sort: by time, and at
    one time no release in front of a press. *)
Definition before (a b : Z * Z) : Prop :=
  (a.1 <= b.1)%Z /\ (a.1 = b.1 -> a.2 = 0%Z -> b.2 = 0%Z).

(** *** Sorting *)

Lemma elem_of_insert_by {A} (key : A -> Z) (x y : A) (l : list A) :
  y ∈ insert_by key x l <-> y = x \/ y ∈ l.
Proof.
  induction l as [|z l IH]; cbn [insert_by].
  - rewrite list_elem_of_singleton, elem_of_nil. tauto.
  - destruct (key x <=? key z)%Z.
    + rewrite elem_of_cons. tauto.
    + rewrite !elem_of_cons, IH. tauto.
Qed.

Lemma elem_of_py_sorted {A} (key : A -> Z) (y : A) (l : list A) :
  y ∈ py_sorted key l <-> y ∈ l.
Proof.
  unfold py_sorted. induction l as [|x l IH]; cbn [foldr]; [tauto|].
  rewrite elem_of_insert_by, elem_of_cons, IH. tauto.
Qed.

Lemma insert_change_sorted (x : Z * Z) (l : list (Z * Z)) :
  StronglySorted before l ->
  Forall (fun y => x.2 = 0%Z -> y.2 = 0%Z) l ->
  StronglySorted before (insert_by fst x l).
Proof.
  induction l as [|y l IH]; intros Hs Hx; cbn [insert_by].
  - repeat constructor.
  - apply StronglySorted_inv in Hs as [Hs Hy]. apply Forall_cons in Hx as [Hxy Hx].
    rewrite Forall_forall in Hy, Hx.
    destruct (Z.leb_spec x.1 y.1) as [Hle | Hgt].
    + constructor; [constructor; [exact Hs | apply Forall_forall, Hy]|].
      constructor; [split; auto|].
      apply Forall_forall. intros z Hz. destruct (Hy z Hz) as [Hyz _].
      split; [lia | auto].
    + constructor.
      * apply IH; [exact Hs | apply Forall_forall, Hx].
      * apply Forall_forall. intros z Hz. apply elem_of_insert_by in Hz as [-> | Hz].
        -- split; lia.
        -- apply Hy, Hz.
Qed.

Lemma sorted_changes (l : list (Z * Z)) :
  StronglySorted (fun a b => a.2 = 0%Z -> b.2 = 0%Z) l ->
  StronglySorted before (py_sorted fst l).
Proof.
  unfold py_sorted. induction 1 as [|x l Hs IH Hx]; cbn [foldr]; [constructor|].
  apply insert_change_sorted; [exact IH|].
  apply Forall_forall. intros y Hy. apply elem_of_py_sorted in Hy.
  rewrite Forall_forall in Hx. apply Hx, Hy.
Qed.

Lemma presses_then_releases (presses releases : list Z) :
  StronglySorted (fun a b : Z * Z => a.2 = 0%Z -> b.2 = 0%Z)
    (map (fun t => (t, 1%Z)) presses ++ map (fun t => (t, 0%Z)) releases).
Proof.
  induction presses as [|p presses IH]; cbn [map app].
  - induction releases as [|r releases IH]; cbn [map]; constructor; [exact IH|].
    apply Forall_forall. intros y Hy _. apply list_elem_of_fmap in Hy as (t & -> & _).
    reflexivity.
  - constructor; [exact IH|]. apply Forall_forall. intros y _ H. discriminate H.
Qed.

Lemma sorted_suffix {A} (R : A -> A -> Prop) (l1 l2 : list A) :
  StronglySorted R (l1 ++ l2) -> StronglySorted R l2.
Proof.
  induction l1 as [|x l1 IH]; [auto|]. cbn [app]. intros Hs.
  apply StronglySorted_inv in Hs as [Hs _]. apply IH, Hs.
Qed.

Lemma sorted_before_middle {A} (R : A -> A -> Prop) (l1 l2 : list A) (x : A) :
  StronglySorted R (l1 ++ x :: l2) -> Forall (fun a => R a x) l1.
Proof.
  induction l1 as [|a l1 IH]; [constructor|]. cbn [app]. intros Hs.
  apply StronglySorted_inv in Hs as [Hs Ha]. constructor; [|apply IH, Hs].
  rewrite Forall_forall in Ha. apply Ha, elem_of_app. right. apply list_elem_of_here.
Qed.

(** *** The loop *)

Definition last_state (done : list (Z * Z)) : Z := default 0%Z (snd <$> last done).

Lemma apply_changes_spec (t : Q) : forall pending cur cur' pending',
  apply_changes t pending cur = (cur', pending') ->
  exists taken,
    pending = (taken ++ pending')%list
    /\ Forall (fun c => inject_Z c.1 <= t) taken
    /\ (forall c rest, pending' = c :: rest -> t < inject_Z c.1)
    /\ cur' = default cur (snd <$> last taken).
Proof.
  induction pending as [|[tc s] pending IH]; intros cur cur' pending' Hrun;
    cbn [apply_changes] in Hrun.
  - injection Hrun as <- <-. exists []. repeat split; [constructor | discriminate].
  - destruct (Qle_bool (inject_Z tc) t) eqn:Hle.
    + destruct (IH _ _ _ Hrun) as (taken & -> & Hall & Hnext & ->).
      exists ((tc, s) :: taken). split; [reflexivity|].
      split; [constructor; [apply Qle_bool_iff, Hle | exact Hall]|].
      split; [exact Hnext|].
      destruct taken as [|c taken]; [reflexivity|].
      change (last ((tc, s) :: c :: taken)) with (last (c :: taken)).
      destruct (last (c :: taken)) eqn:Hl; [reflexivity|].
      apply last_None in Hl. discriminate.
    + injection Hrun as <- <-. exists []. split; [reflexivity|].
      split; [constructor|]. split; [|reflexivity].
      intros c rest [= <- <-]. apply Qle_bool_false, Hle.
Qed.

(** The state with which the button is held at the float time [t]. *)
Definition held (presses releases : list Z) (t : Q) : Prop :=
  exists p, p ∈ presses /\ inject_Z p <= t
            /\ forall r, r ∈ releases -> inject_Z r <= t -> (r < p)%Z.

Definition state_ok (presses releases : list Z) (t : Q) (s : Z) : Prop :=
  (s = 1%Z /\ held presses releases t) \/ (s = 0%Z /\ ~ held presses releases t).

Section Changes.

Variable presses releases : list Z.
Variable L : list (Z * Z).
Hypothesis L_sorted : StronglySorted before L.
Hypothesis L_kinds : forall c, c ∈ L ->
  (c.2 = 1%Z /\ c.1 ∈ presses) \/ (c.2 = 0%Z /\ c.1 ∈ releases).
Hypothesis L_presses : forall p, p ∈ presses -> (p, 1%Z) ∈ L.
Hypothesis L_releases : forall r, r ∈ releases -> (r, 0%Z) ∈ L.

Lemma state_of_split (done pending : list (Z * Z)) (t : Q) :
  L = (done ++ pending)%list ->
  Forall (fun c => inject_Z c.1 <= t) done ->
  Forall (fun c => t < inject_Z c.1) pending ->
  state_ok presses releases t (last_state done).
Proof.
  intros HL Hdone Hpend. rewrite Forall_forall in Hdone, Hpend.
  assert (forall c, c ∈ L -> inject_Z c.1 <= t -> c ∈ done) as Hearly.
  { intros c Hc Hle. rewrite HL in Hc. apply elem_of_app in Hc as [Hc | Hc]; [exact Hc|].
    specialize (Hpend c Hc). lra. }
  unfold last_state. destruct (last done) as [x|] eqn:Hlast.
  - apply last_Some in Hlast as [done0 ->].
    assert (Forall (fun a => before a x) done0) as Hbefore.
    { apply (sorted_before_middle before done0 pending x).
      rewrite HL, <- app_assoc in L_sorted. exact L_sorted. }
    rewrite Forall_forall in Hbefore.
    assert (x ∈ L) as Hx by (rewrite HL; apply elem_of_app; left; apply elem_of_app;
                              right; apply list_elem_of_here).
    assert (inject_Z x.1 <= t) as Hxt
      by (apply Hdone, elem_of_app; right; apply list_elem_of_here).
    cbn [fmap option_fmap option_map default].
    destruct (L_kinds x Hx) as [[Hs Hp] | [Hs Hr]].
    + left. split; [exact Hs|]. exists x.1. split; [exact Hp|]. split; [exact Hxt|].
      intros r Hr Hrt.
      assert ((r, 0%Z) ∈ done0) as Hin.
      { pose proof (Hearly _ (L_releases r Hr) Hrt) as Hin.
        apply elem_of_app in Hin as [Hin | Hin]; [exact Hin|].
        apply list_elem_of_singleton in Hin. rewrite <- Hin in Hs. discriminate. }
      destruct (Hbefore _ Hin) as [Hle Hsame]. cbn [fst snd] in Hle, Hsame.
      destruct (Z.eq_dec r x.1) as [Heq | Hne]; [|lia].
      specialize (Hsame Heq eq_refl). congruence.
    + right. split; [exact Hs|]. intros (p & Hp & Hpt & Hlater).
      assert ((p, 1%Z) ∈ done0) as Hin.
      { pose proof (Hearly _ (L_presses p Hp) Hpt) as Hin.
        apply elem_of_app in Hin as [Hin | Hin]; [exact Hin|].
        apply list_elem_of_singleton in Hin. rewrite <- Hin in Hs. discriminate. }
      destruct (Hbefore _ Hin) as [Hle _]. cbn [fst] in Hle.
      specialize (Hlater x.1 Hr Hxt). lia.
  - apply last_None in Hlast. subst done. right. split; [reflexivity|].
    intros (p & Hp & Hpt & _).
    apply (Hearly _ (L_presses p Hp)) in Hpt. apply elem_of_nil in Hpt. exact Hpt.
Qed.

Lemma button_loop_spec : forall regular_times done pending cur lo,
  L = (done ++ pending)%list ->
  Forall (fun c => inject_Z c.1 <= lo) done ->
  cur = last_state done ->
  ascending lo regular_times ->
  Forall2 (state_ok presses releases) regular_times (button_loop regular_times pending cur).
Proof.
  induction regular_times as [|t ts IH]; intros done pending cur lo HL Hdone Hcur Hasc;
    cbn [button_loop]; [constructor|].
  destruct Hasc as [Hlo Hasc].
  destruct (apply_changes t pending cur) as [cur' pending'] eqn:Hrun.
  apply apply_changes_spec in Hrun as (taken & -> & Htaken & Hnext & ->).
  assert (Forall (fun c => inject_Z c.1 <= t) (done ++ taken)) as Hdone'.
  { apply Forall_app. split; [|exact Htaken].
    eapply Forall_impl; [exact Hdone|]. intros c Hc. cbv beta in Hc. lra. }
  assert (default cur (snd <$> last taken) = last_state (done ++ taken)) as Hcur'.
  { unfold last_state. rewrite last_app, Hcur. unfold last_state.
    destruct (last taken); reflexivity. }
  assert (Forall (fun c => t < inject_Z c.1) pending') as Hpend.
  { destruct pending' as [|c rest]; [constructor|].
    specialize (Hnext c rest eq_refl).
    assert (StronglySorted before (c :: rest)) as Hs.
    { apply (sorted_suffix before (done ++ taken)). rewrite <- app_assoc, <- HL.
      exact L_sorted. }
    apply StronglySorted_inv in Hs as [_ Hc]. constructor; [exact Hnext|].
    eapply Forall_impl; [exact Hc|]. intros z [Hz _]. cbv beta.
    apply (Qlt_le_trans _ _ _ Hnext). rewrite <- Zle_Qle. exact Hz. }
  rewrite app_assoc in HL.
  constructor.
  - rewrite Hcur'. apply (state_of_split _ pending'); assumption.
  - apply (IH (done ++ taken)%list pending' _ t); assumption.
Qed.

End Changes.

Lemma length_button_loop : forall regular_times pending cur,
  length (button_loop regular_times pending cur) = length regular_times.
Proof.
  induction regular_times as [|t ts IH]; intros pending cur; cbn [button_loop]; [reflexivity|].
  destruct (apply_changes t pending cur). cbn [length]. rewrite IH. reflexivity.
Qed.

Lemma sample_times_ascending (interval : Q) (n : Z) :
  0 < interval -> ascending 0 (sample_times interval n).
Proof.
  intros Hpos. unfold sample_times. apply ascending_map_seq.
  - intros i. rewrite Nat2Z.inj_succ. unfold Z.succ. rewrite inject_Z_plus.
    change (inject_Z 1) with 1. nra.
  - change (inject_Z (Z.of_nat 0)) with 0. lra.
Qed.

Lemma sample_times_nonneg (interval : Q) (n : Z) (t : Q) :
  0 < interval -> t ∈ sample_times interval n -> 0 <= t.
Proof.
  intros Hpos Hin. unfold sample_times in Hin.
  apply (proj1 (list_elem_of_In _ _)), in_map_iff in Hin as (i & <- & _).
  assert (0 <= inject_Z (Z.of_nat i)) as Hi.
  { change 0 with (inject_Z 0). rewrite <- Zle_Qle. lia. }
  nra.
Qed.

Lemma Forall2_same_source {A B C} (P : A -> B -> Prop) (Q' : A -> C -> Prop)
    (R : B -> C -> Prop) (l : list A) : forall (k1 : list B) (k2 : list C),
  Forall2 P l k1 -> Forall2 Q' l k2 ->
  (forall x y z, x ∈ l -> P x y -> Q' x z -> R y z) ->
  Forall2 R k1 k2.
Proof.
  induction l as [|x l IH]; intros k1 k2 H1 H2 HR.
  - inversion H1; inversion H2; subst. constructor.
  - inversion H1 as [|? y ? k1' Hy H1']; inversion H2 as [|? z ? k2' Hz H2']; subst.
    constructor; [apply (HR x); [apply list_elem_of_here | assumption..]|].
    apply IH; [assumption..|]. intros x' y' z' Hin. apply HR, list_elem_of_further, Hin.
Qed.

(** X24.  In the series [convert_button_events] returns, the state at
    each sample time is [1] exactly when some press at or before that
    time is later than every release at or before it, and [0] otherwise;
    the order in which presses and releases are passed does not matter,
    and a release at the very time of a press wins. *)
Theorem button_state_follows_last_change (self : TimeSeriesConverter)
    (presses_ms releases_ms : list Z) (max_time_ms : Z)
    (regular_times_ms button_states : list Z) :
  0 < interval_ms self ->
  convert_button_events self presses_ms releases_ms max_time_ms
    = Return regular_times_ms button_states ->
  Forall2 (button_state_at presses_ms releases_ms) regular_times_ms button_states.
Proof.
  intros Hpos. unfold convert_button_events.
  destruct (max_time_ms <=? 0)%Z; [intros [= <- <-]; constructor|].
  cbv zeta.
  set (regular_times := sample_times _ _).
  set (L := py_sorted fst _).
  destruct (mapM astype_int32 regular_times) as [ts|] eqn:Hts; [|discriminate].
  intros [= <- <-]. apply mapM_Some in Hts.
  assert (Forall2 (state_ok presses_ms releases_ms) regular_times
            (button_loop regular_times L 0%Z)) as Hloop.
  { apply (button_loop_spec presses_ms releases_ms L) with (done := []) (lo := 0).
    - apply sorted_changes, presses_then_releases.
    - intros c Hc. apply elem_of_py_sorted, elem_of_app in Hc as [Hc | Hc];
        apply list_elem_of_fmap in Hc as (t & -> & Ht); apply elem_of_py_sorted in Ht; auto.
    - intros p Hp. apply elem_of_py_sorted, elem_of_app. left.
      apply list_elem_of_fmap. exists p. split; [reflexivity|].
      apply elem_of_py_sorted, Hp.
    - intros r Hr. apply elem_of_py_sorted, elem_of_app. right.
      apply list_elem_of_fmap. exists r. split; [reflexivity|].
      apply elem_of_py_sorted, Hr.
    - reflexivity.
    - constructor.
    - reflexivity.
    - apply sample_times_ascending, Hpos. }
  apply (Forall2_same_source _ _ _ regular_times _ _ Hts Hloop).
  intros t z s Hin Hz Hs.
  apply (sample_times_nonneg _ _ _ Hpos) in Hin.
  assert (z = Qfloor t) as ->.
  { unfold astype_int32 in Hz. destruct (_ && _); [|discriminate].
    injection Hz as <-. apply py_int_nonneg, Hin. }
  assert (held presses_ms releases_ms t <-> pressed_at presses_ms releases_ms (Qfloor t))
    as Hsame.
  { unfold held, pressed_at. split; intros (p & Hp & Hpt & Hrel); exists p;
      (split; [exact Hp|]); (split; [apply Zle_Qfloor, Hpt|]);
      intros r Hr Hrt; (apply Hrel; [exact Hr | apply Zle_Qfloor, Hrt]). }
  unfold button_state_at. destruct Hs as [[-> Hh] | [-> Hh]]; [left | right];
    (split; [reflexivity|]); rewrite <- Hsame; exact Hh.
Qed.

(** X25.  The series [convert_button_events] returns has one state for
    each sample time; its times are those of [get_time_axis] for the same
    maximum; for a maximum that is not positive it is empty; and for a
    positive maximum it has [get_sample_count] samples, at least two. *)
Theorem button_series_shape (self : TimeSeriesConverter)
    (presses_ms releases_ms : list Z) (max_time_ms : Z)
    (regular_times_ms button_states : list Z) :
  convert_button_events self presses_ms releases_ms max_time_ms
    = Return regular_times_ms button_states ->
  length button_states = length regular_times_ms
  /\ get_time_axis self max_time_ms = Some regular_times_ms
  /\ ((max_time_ms <= 0)%Z -> regular_times_ms = [])
  /\ ((0 < max_time_ms)%Z -> 0 < interval_ms self ->
      Z.of_nat (length regular_times_ms) = get_sample_count self max_time_ms
      /\ (2 <= length regular_times_ms)%nat).
Proof.
  unfold convert_button_events, get_time_axis, get_sample_count.
  destruct (Z.leb_spec max_time_ms 0) as [Hle | Hgt].
  { intros [= <- <-]. repeat split; intros; lia. }
  cbv zeta.
  destruct (mapM astype_int32 _) as [ts|] eqn:Hts; [|discriminate].
  intros [= <- <-]. apply length_mapM in Hts.
  unfold sample_times in Hts. rewrite length_map, length_seq in Hts.
  split; [rewrite length_button_loop; unfold sample_times;
          rewrite length_map, length_seq; exact Hts|].
  split; [reflexivity|]. split; [lia|]. intros _ Hpos.
  assert (0 < inject_Z max_time_ms / interval_ms self) as Hratio.
  { apply Qlt_shift_div_l; [exact Hpos|]. rewrite Qmult_0_l.
    change 0 with (inject_Z 0). rewrite <- Zlt_Qlt. exact Hgt. }
  assert (0 < Qceiling (inject_Z max_time_ms / interval_ms self))%Z as Hceil.
  { pose proof (Qle_ceiling (inject_Z max_time_ms / interval_ms self)) as Hc.
    rewrite Zlt_Qlt. change (inject_Z 0) with 0. lra. }
  split; lia.
Qed.

(** X26.  For axis events whose last time is positive, the button series
    up to that time has the very sample times of the axis series.  When
    the last time is not positive the button series is empty, while the
    axis series of events that end at time [0] has the one sample time
    [0]. *)
Theorem axis_and_button_series_share_the_time_axis (self : TimeSeriesConverter)
    (times_ms values : list Z) (interpolation : string)
    (presses_ms releases_ms : list Z)
    (axis_times axis_values button_times button_states : list Z) :
  times_ms <> [] -> values <> [] ->
  convert_axis_events self times_ms values interpolation = Return axis_times axis_values ->
  convert_button_events self presses_ms releases_ms (List.last times_ms 0%Z)
    = Return button_times button_states ->
  ((0 < List.last times_ms 0)%Z -> button_times = axis_times)
  /\ ((List.last times_ms 0 <= 0)%Z -> button_times = [])
  /\ (List.last times_ms 0%Z = 0%Z -> axis_times = [0%Z]).
Proof.
  intros Ht Hv. unfold convert_axis_events, convert_button_events.
  destruct times_ms as [|t0 times']; [congruence|].
  destruct values as [|v0 values']; [congruence|].
  set (times_ms := t0 :: times'). set (values := v0 :: values').
  destruct (negb _); [discriminate|]. cbv zeta.
  assert (List.last (map inject_Z times_ms) 0 = inject_Z (List.last times_ms 0%Z)) as ->
    by apply (last_inject_Z times_ms 0).
  set (regular_times := sample_times _ _).
  destruct (if String.eqb interpolation "forward_fill" then _ else _) as [rv|];
    [|discriminate].
  destruct (mapM astype_int32 regular_times) as [ts|] eqn:Hts; [|discriminate].
  destruct (mapM _ rv); [|discriminate]. intros [= <- <-].
  assert (List.last times_ms 0%Z = 0%Z -> ts = [0%Z]) as Hzero.
  { intros Hlast. revert Hts. unfold regular_times. rewrite Hlast.
    assert (Qceiling (inject_Z 0 / interval_ms self) = 0%Z) as ->.
    { rewrite (Qceiling_comp _ 0); [reflexivity|]. unfold Qdiv. apply Qmult_0_l. }
    change (sample_times (interval_ms self) (0 + 1))
      with [inject_Z 0 * interval_ms self].
    change (mapM astype_int32 [inject_Z 0 * interval_ms self])
      with (z ← astype_int32 (inject_Z 0 * interval_ms self); Some [z]).
    unfold astype_int32.
    rewrite (Gamepad.py_int_comp _ 0) by apply Qmult_0_l.
    cbn. intros [= <-]. reflexivity. }
  destruct (Z.leb_spec (List.last times_ms 0%Z) 0) as [Hle | Hgt].
  - intros [= <- <-]. split; [lia|]. split; [reflexivity | exact Hzero].
  - intros [= <- <-]. split; [reflexivity|]. split; [lia | exact Hzero].
Qed.

(** X27.  The checks of the two convenience functions, in the order
    they are made: a sampling rate that is not positive is refused
    whatever else is passed; then an empty list of times or of values
    gives the empty series, even with lists of different lengths or an
    unknown interpolation; then lengths that differ are refused; then
    an interpolation other than ["forward_fill"] and ["linear"] is
    refused; and a button series up to a time that is not positive is
    empty. *)
Theorem series_checks_in_order (times_ms values presses_ms releases_ms : list Z)
    (max_time_ms rate : Z) (interpolation : string) :
  ((rate <= 0)%Z ->
   events_to_timeseries times_ms values rate interpolation
     = ValueError "Sampling rate must be positive"
   /\ buttons_to_timeseries presses_ms releases_ms max_time_ms rate
      = ValueError "Sampling rate must be positive")
  /\ ((0 < rate)%Z -> times_ms = [] \/ values = [] ->
      events_to_timeseries times_ms values rate interpolation = Return [] [])
  /\ ((0 < rate)%Z -> times_ms <> [] -> values <> [] -> length times_ms <> length values ->
      events_to_timeseries times_ms values rate interpolation
        = ValueError "times_ms and values must have same length")
  /\ ((0 < rate)%Z -> times_ms <> [] -> length times_ms = length values ->
      interpolation <> "forward_fill"%string -> interpolation <> "linear"%string ->
      events_to_timeseries times_ms values rate interpolation
        = ValueError "Unknown interpolation method")
  /\ ((0 < rate)%Z -> (max_time_ms <= 0)%Z ->
      buttons_to_timeseries presses_ms releases_ms max_time_ms rate = Return [] []).
Proof.
  unfold events_to_timeseries, buttons_to_timeseries, __init__.
  split; [|split; [|split; [|split]]].
  - intros Hrate. rewrite (proj2 (Z.leb_le rate 0)) by exact Hrate. auto.
  - intros Hrate Hempty. rewrite (proj2 (Z.leb_gt rate 0)) by exact Hrate.
    unfold convert_axis_events.
    destruct Hempty as [-> | ->]; [reflexivity | destruct times_ms; reflexivity].
  - intros Hrate Ht Hv Hlen. rewrite (proj2 (Z.leb_gt rate 0)) by exact Hrate.
    unfold convert_axis_events.
    destruct times_ms as [|t0 times']; [congruence|].
    destruct values as [|v0 values']; [congruence|].
    rewrite (proj2 (Nat.eqb_neq _ _) Hlen). reflexivity.
  - intros Hrate Ht Hlen Hff Hlin. rewrite (proj2 (Z.leb_gt rate 0)) by exact Hrate.
    unfold convert_axis_events.
    destruct times_ms as [|t0 times']; [congruence|].
    destruct values as [|v0 values']; [discriminate|].
    rewrite Hlen, Nat.eqb_refl. cbn [negb]. cbv zeta.
    rewrite (proj2 (String.eqb_neq _ _) Hff), (proj2 (String.eqb_neq _ _) Hlin).
    reflexivity.
  - intros Hrate Hmax. rewrite (proj2 (Z.leb_gt rate 0)) by exact Hrate.
    unfold convert_button_events. rewrite (proj2 (Z.leb_le _ 0)) by exact Hmax.
    reflexivity.
Qed.

(** *** The example of the docstring: a button pressed at 100 and 500 ms
        and released at 200 and 600 ms, sampled at 30 Hz up to 700 ms *)

Definition thirty_hz : TimeSeriesConverter :=
  {| sampling_rate_hz := 30; interval_ms := 1000 / inject_Z 30 |}.

Lemma button_state_follows_last_change_witness :
  exists button_states,
    convert_button_events thirty_hz [100; 500]%Z [200; 600]%Z 700
    = Return [0; 33; 66; 100; 133; 166; 200; 233; 266; 300; 333; 366; 400; 433; 466;
              500; 533; 566; 600; 633; 666; 700]%Z button_states
    /\ button_states = [0; 0; 0; 1; 1; 1; 0; 0; 0; 0; 0; 0; 0; 0; 0; 1; 1; 1; 0; 0; 0; 0]%Z
    /\ Forall2 (button_state_at [100; 500]%Z [200; 600]%Z)
         [0; 33; 66; 100; 133; 166; 200; 233; 266; 300; 333; 366; 400; 433; 466;
          500; 533; 566; 600; 633; 666; 700]%Z button_states.
Proof.
  eexists. split; [vm_compute; reflexivity|]. split; [reflexivity|].
  apply (button_state_follows_last_change thirty_hz [100; 500]%Z [200; 600]%Z 700).
  - vm_compute. reflexivity.
  - vm_compute. reflexivity.
Defined.

Lemma button_series_shape_witness :
  get_time_axis thirty_hz 700
  = Some [0; 33; 66; 100; 133; 166; 200; 233; 266; 300; 333; 366; 400; 433; 466;
          500; 533; 566; 600; 633; 666; 700]%Z
  /\ get_sample_count thirty_hz 700 = 22%Z.
Proof.
  destruct (button_series_shape thirty_hz [100; 500]%Z [200; 600]%Z 700
              [0; 33; 66; 100; 133; 166; 200; 233; 266; 300; 333; 366; 400; 433; 466;
               500; 533; 566; 600; 633; 666; 700]%Z
              [0; 0; 0; 1; 1; 1; 0; 0; 0; 0; 0; 0; 0; 0; 0; 1; 1; 1; 0; 0; 0; 0]%Z)
    as (_ & Haxis & _ & Hcount).
  - vm_compute. reflexivity.
  - split; [exact Haxis|].
    destruct Hcount as [Hcount _]; [lia | vm_compute; reflexivity|].
    rewrite <- Hcount. reflexivity.
Defined.

(** Axis events up to 100 ms next to a button pressed at 40 ms. *)
Lemma axis_and_button_series_share_the_time_axis_witness :
  exists axis_values button_states,
    convert_axis_events thirty_hz [0; 100]%Z [5; 9]%Z "forward_fill"
    = Return [0; 33; 66; 100]%Z axis_values
    /\ convert_button_events thirty_hz [40]%Z [] 100
       = Return [0; 33; 66; 100]%Z button_states.
Proof.
  assert (exists ts vs, convert_axis_events thirty_hz [0; 100]%Z [5; 9]%Z "forward_fill"
                        = Return ts vs /\ ts = [0; 33; 66; 100]%Z) as (ts & vs & Haxis & Hts)
    by (eexists _, _; split; [vm_compute; reflexivity | reflexivity]).
  assert (exists bt bs, convert_button_events thirty_hz [40]%Z [] 100 = Return bt bs)
    as (bt & bs & Hbuttons) by (eexists _, _; vm_compute; reflexivity).
  destruct (axis_and_button_series_share_the_time_axis thirty_hz [0; 100]%Z [5; 9]%Z
              "forward_fill" [40]%Z [] ts vs bt bs) as (Hsame & _ & _);
    [discriminate | discriminate | exact Haxis | exact Hbuttons |].
  exists vs, bs. rewrite Haxis, Hbuttons, Hsame, Hts by (vm_compute; reflexivity).
  split; reflexivity.
Defined.

End SeriesFacts.

(** ** More of [convergence.py]: the millisecond grid, the windowed
       distances and the events read off them *)

Module ConvergenceFacts.

Import PyNum Numpy Analyzer.
Local Open Scope Q_scope.

(** The settings of a [ConvergenceAnalyzer]. *)
Record ConvergenceAnalyzer : Type := {
  window_ms : Z;
  convergence_level : Q;        (* self.convergence_threshold *)
  divergence_level : Q;         (* self.divergence_threshold *)
  min_event_duration_ms : Z
}.

(** [ConvergenceAnalyzer()] with the defaults of its constructor. *)
Definition default_analyzer : ConvergenceAnalyzer :=
  {| window_ms := 2000; convergence_level := 3 # 10; divergence_level := 7 # 10;
     min_event_duration_ms := 500 |}.

(** The fields of [ConvergenceEvent] that are computed; the participants
    and the description are left out. *)
Record ConvergenceEvent : Type := {
  start_ms : Z;
  end_ms : Z;
  event_type : string;
  strength : Q;
  distance : Q
}.

(** [mask.astype(int)] *)
Definition astype_int (mask : list bool) : list Z :=
  map (fun b : bool => if b then 1%Z else 0%Z) mask.

(** [np.diff] on integers. *)
Fixpoint np_diff_int (a : list Z) : list Z :=
  match a with
  | x :: ((y :: _) as a') => (y - x)%Z :: np_diff_int a'
  | _ => []
  end.

(** The positions, counted from [k], at which [a] holds [v]. *)
Fixpoint positions_from (v : Z) (k : nat) (a : list Z) : list nat :=
  match a with
  | [] => []
  | x :: a' =>
      if (x =? v)%Z then k :: positions_from v (S k) a' else positions_from v (S k) a'
  end.

(** [np.where(a == v)[0]] *)
Definition np_where_eq (v : Z) (a : list Z) : list nat := positions_from v 0%nat a.

Definition _extract_regions (self : ConvergenceAnalyzer) (times distances : list Q)
    (mask : list bool) (kind : string) : list ConvergenceEvent :=
  let padded := (false :: mask ++ [false])%list in
  let diff := np_diff_int (astype_int padded) in
  let starts := np_where_eq 1 diff in
  let ends := np_where_eq (-1) diff in
  omap (fun '(start_idx, end_idx) =>
          if (end_idx <=? start_idx)%nat then None
          else
            let start := py_int (nth start_idx times 0) in
            let stop := py_int (nth (end_idx - 1) times 0) in
            let duration := (stop - start)%Z in
            if (duration <? min_event_duration_ms self)%Z then None
            else
              let region_distances := py_slice distances start_idx end_idx in
              let mean_distance := np_mean region_distances in
              Some {| start_ms := start; end_ms := stop; event_type := kind;
                      strength :=
                        if String.eqb kind "convergence" then 1 - mean_distance
                        else mean_distance;
                      distance := mean_distance |})
       (zip starts ends).

Definition _detect_events (self : ConvergenceAnalyzer) (times distances : list Q)
    : list ConvergenceEvent :=
  match distances with
  | [] => []
  | _ =>
      let convergent := map (fun d => Qltb d (convergence_level self)) distances in
      let divergent := map (fun d => Qltb (divergence_level self) d) distances in
      let conv_events := _extract_regions self times distances convergent "convergence" in
      let div_events := _extract_regions self times distances divergent "divergence" in
      SeriesFacts.py_sorted start_ms (conv_events ++ div_events)
  end.

(** [range(0, stop, step)] for a positive [step]. *)
Definition py_range (stop step : Z) : list nat :=
  map (fun k : nat => (k * Z.to_nat step)%nat)
      (seq 0%nat (Z.to_nat ((stop + step - 1) / step))).

(** [signals[p]]; [None] is the [KeyError]. *)
Definition signal_of (signals : list (string * list Q)) (p : string) : option (list Q) :=
  snd <$> List.find (fun s => String.eqb s.1 p) signals.

(** The loop of [_compute_windowed_distances] over the window starts
    still to come. *)
Fixpoint windows (window_samples : nat) (times signal1 signal2 : list Q)
    (starts : list nat) : list (Q * Q) :=
  match starts with
  | [] => []
  | start_idx :: starts' =>
      let end_idx := (start_idx + window_samples)%nat in
      if (length times <? end_idx)%nat then []
      else
        let window1 := py_slice signal1 start_idx end_idx in
        let window2 := py_slice signal2 start_idx end_idx in
        let dist :=
          q_sqrt (np_mean (map (fun '(a, b) => (a - b) * (a - b)) (zip window1 window2))) in
        let signal_range := qmax (qmax (np_std window1) (np_std window2)) (1 # 100) in
        let normalized_dist := qmin (dist / signal_range) 1 in
        (normalized_dist, nth (start_idx + window_samples / 2) times 0)
          :: windows window_samples times signal1 signal2 starts'
  end.

(** [_compute_windowed_distances]; [None] is the [KeyError] for a
    participant without aligned signal, or the [ValueError] of [range]
    with step zero. *)
Definition _compute_windowed_distances (self : ConvergenceAnalyzer) (times : list Q)
    (signals : list (string * list Q)) (participants : list string)
    : option (list Q * list Q) :=
  match participants with
  | p1 :: p2 :: _ =>
      signal1 ← signal_of signals p1;
      signal2 ← signal_of signals p2;
      let window_samples := window_ms self in
      let hop_samples := (window_samples / 4)%Z in
      if (hop_samples =? 0)%Z then None
      else
        let found :=
          windows (Z.to_nat window_samples) times signal1 signal2
            (py_range (Z.of_nat (length times) - window_samples) hop_samples) in
        Some (found.*1, found.*2)
  | _ => Some ([], [])
  end.

(** The distances from position [s] up to, not including, position [e]
    are a longest stretch on which [holds] is true. *)
Definition run_of (holds : Q -> Prop) (distances : list Q) (s e : nat) : Prop :=
  (s < e <= length distances)%nat
  /\ (forall j d, (s <= j < e)%nat -> distances !! j = Some d -> holds d)
  /\ (s = 0%nat \/ exists d, distances !! (s - 1)%nat = Some d /\ ~ holds d)
  /\ (e = length distances \/ exists d, distances !! e = Some d /\ ~ holds d).

(** In the padded 0/1 list [P], read from position [k] on: [s] is a
    step up and [e] the next step down. *)
Definition step_pair (k : nat) (P : list Z) (se : nat * nat) : Prop :=
  (k <= se.1 < se.2)%nat
  /\ (forall j, (se.1 < j <= se.2)%nat -> P !! (j - k)%nat = Some 1%Z)
  /\ P !! (se.1 - k)%nat = Some 0%Z
  /\ P !! (S se.2 - k)%nat = Some 0%Z.

(** *** The millisecond grid of [_align_time_series] *)

Lemma foldl_qmax_elem (l : list Q) : forall x, foldl qmax x l = x \/ foldl qmax x l ∈ l.
Proof.
  induction l as [|y l IH]; intros x; cbn [foldl]; [auto|].
  destruct (IH (qmax x y)) as [-> | Hin].
  - destruct (AlignmentFacts.qmax_cases x y) as [-> | ->];
      [auto | right; apply list_elem_of_here].
  - right. apply list_elem_of_further, Hin.
Qed.

Lemma foldl_qmin_elem (l : list Q) : forall x, foldl qmin x l = x \/ foldl qmin x l ∈ l.
Proof.
  induction l as [|y l IH]; intros x; cbn [foldl]; [auto|].
  destruct (IH (qmin x y)) as [-> | Hin].
  - destruct (AlignmentFacts.qmin_cases x y) as [-> | ->];
      [auto | right; apply list_elem_of_here].
  - right. apply list_elem_of_further, Hin.
Qed.

Lemma py_max_elem (l : list Q) (x : Q) : py_max l = Some x -> x ∈ l.
Proof.
  destruct l as [|y l]; [discriminate|]. intros [= <-].
  destruct (foldl_qmax_elem l y) as [-> | Hin];
    [apply list_elem_of_here | apply list_elem_of_further, Hin].
Qed.

Lemma py_min_elem (l : list Q) (x : Q) : py_min l = Some x -> x ∈ l.
Proof.
  destruct l as [|y l]; [discriminate|]. intros [= <-].
  destruct (foldl_qmin_elem l y) as [-> | Hin];
    [apply list_elem_of_here | apply list_elem_of_further, Hin].
Qed.

Lemma lookup_np_arange (start stop : Q) (k : nat) (t : Q) :
  np_arange start stop !! k = Some t ->
  t == start + inject_Z (Z.of_nat k) /\ t < stop.
Proof.
  unfold np_arange. change (@map nat Q) with (@fmap list _ nat Q).
  rewrite list_lookup_fmap. intros Hk.
  destruct (seq 0 (Z.to_nat (Qceiling (stop - start))) !! k) as [i|] eqn:Hi; [|discriminate].
  apply lookup_seq in Hi as [-> Hlt]. injection Hk as <-.
  rewrite Qred_correct. split; [reflexivity|].
  pose proof (Qceiling_lt (stop - start)) as Hc.
  assert (inject_Z (Z.of_nat k) <= inject_Z (Qceiling (stop - start) - 1)) as Hk
    by (rewrite <- Zle_Qle; lia).
  cbn [Nat.add] in *. lra.
Qed.

Lemma omap_sublist {A B} (f : A -> option B) (g : A -> string) (h : B -> string)
    (l : list A) :
  (forall x y, f x = Some y -> h y = g x) ->
  sublist (h <$> omap f l) (g <$> l).
Proof.
  intros Hname. induction l as [|x l IH]; [constructor|].
  cbn [omap list_omap]. destruct (f x) as [y|] eqn:Hx.
  - rewrite !fmap_cons, (Hname x y Hx). apply sublist_skip, IH.
  - rewrite fmap_cons. apply sublist_cons, IH.
Qed.

(** X28.  When [_align_time_series] returns a timeline, it is a
    millisecond grid: it is not empty, starts at the first sample of some
    participant, advances by 1 ms from point to point and stays below the
    last sample of some participant; at least two signals are returned,
    in the order of the participants they belong to, each with one value
    for every point of the timeline. *)
Theorem time_series_grid (participant_data : list (string * trace))
    (common_times : list Q) (aligned_signals : list (string * list Q)) :
  _align_time_series participant_data = Aligned common_times aligned_signals ->
  (2 <= length aligned_signals)%nat
  /\ Forall (fun s => length s.2 = length common_times) aligned_signals
  /\ sublist aligned_signals.*1 participant_data.*1
  /\ common_times <> []
  /\ exists a b min_time max_time,
       a ∈ participant_data /\ head (times_ms a.2) = Some min_time
       /\ b ∈ participant_data /\ last (times_ms b.2) = Some max_time
       /\ min_time < max_time
       /\ forall k t, common_times !! k = Some t ->
            t == min_time + inject_Z (Z.of_nat k) /\ t < max_time.
Proof.
  unfold _align_time_series.
  destruct participant_data as [|d0 data']; [discriminate|].
  set (participant_data := d0 :: data').
  set (firsts := omap (fun d => head (times_ms d.2)) participant_data).
  set (lasts := omap (fun d => last (times_ms d.2)) participant_data).
  destruct (py_max firsts) as [narrow_min|] eqn:H1; [|discriminate].
  destruct (py_min lasts) as [narrow_max|] eqn:H2; [|discriminate].
  destruct (py_min firsts) as [broad_min|] eqn:H3; [|discriminate].
  destruct (py_max lasts) as [broad_max|] eqn:H4; [|discriminate].
  assert (forall x, x ∈ firsts ->
            exists a, a ∈ participant_data /\ head (times_ms a.2) = Some x) as Hfirst.
  { intros x Hx. apply list_elem_of_omap in Hx as (a & Ha & Hx). eauto. }
  assert (forall x, x ∈ lasts ->
            exists b, b ∈ participant_data /\ last (times_ms b.2) = Some x) as Hlast.
  { intros x Hx. apply list_elem_of_omap in Hx as (b & Hb & Hx). eauto. }
  apply py_max_elem in H1, H4. apply py_min_elem in H2, H3.
  destruct (if Qle_bool narrow_max narrow_min then _ else _) as [min_time max_time] eqn:Hrange.
  assert (min_time ∈ firsts /\ max_time ∈ lasts) as [Hmin Hmax].
  { destruct (Qle_bool narrow_max narrow_min); injection Hrange as <- <-; auto. }
  destruct (Qle_bool max_time min_time) eqn:Hempty; [discriminate|].
  apply AlignmentFacts.Qle_bool_false_lt in Hempty.
  set (signals := omap _ participant_data).
  destruct (Nat.ltb_spec (length signals) 2) as [|Htwo]; [discriminate|].
  intros [= <- <-]. split; [exact Htwo|]. split; [|split; [|split]].
  - apply Forall_forall. intros s Hs. apply list_elem_of_omap in Hs as (d & _ & Hs).
    destruct (length (times_ms d.2) <? 2)%nat; [discriminate|]. injection Hs as <-.
    cbn [snd]. unfold np_interp. apply length_map.
  - apply (omap_sublist _ fst fst). intros d s Hs.
    destruct (length (times_ms d.2) <? 2)%nat; [discriminate|]. injection Hs as <-.
    reflexivity.
  - unfold np_arange. intros Hnil. apply (f_equal length) in Hnil.
    rewrite length_map, length_seq in Hnil. cbn [length] in Hnil.
    pose proof (Qle_ceiling (max_time - min_time)) as Hc.
    assert (0 < inject_Z (Qceiling (max_time - min_time))) as Hpos by lra.
    change 0 with (inject_Z 0) in Hpos. rewrite <- Zlt_Qlt in Hpos. lia.
  - destruct (Hfirst _ Hmin) as (a & Ha & Hhead). destruct (Hlast _ Hmax) as (b & Hb & Htail).
    exists a, b, min_time, max_time. do 5 (split; [assumption|]).
    apply lookup_np_arange.
Qed.

(** *** Regions of a mask *)

Lemma step_pair_lift (k : nat) (p : Z) (rest : list Z) (se : nat * nat) :
  step_pair (S k) rest se -> step_pair k (p :: rest) se.
Proof.
  destruct se as [s e]. unfold step_pair. cbn [fst snd].
  intros (Hse & Hones & Hs & He). split; [lia|]. split; [|split].
  - intros j Hj. replace (j - k)%nat with (S (j - S k)) by lia. apply Hones, Hj.
  - replace (s - k)%nat with (S (s - S k)) by lia. exact Hs.
  - replace (S e - k)%nat with (S (S e - S k)) by lia. exact He.
Qed.

Lemma pairs_are_runs : forall (rest : list Z) (p : Z) (k : nat),
  Forall (fun x => x = 0%Z \/ x = 1%Z) (p :: rest) ->
  last (p :: rest) = Some 0%Z ->
  (p = 0%Z ->
   Forall (step_pair k (p :: rest))
     (zip (positions_from 1 k (np_diff_int (p :: rest)))
          (positions_from (-1) k (np_diff_int (p :: rest)))))
  /\ (p = 1%Z ->
      exists e0 ends',
        positions_from (-1) k (np_diff_int (p :: rest)) = e0 :: ends'
        /\ (k <= e0)%nat
        /\ (forall j, (k <= j <= e0)%nat -> (p :: rest) !! (j - k)%nat = Some 1%Z)
        /\ (p :: rest) !! (S e0 - k)%nat = Some 0%Z
        /\ Forall (step_pair k (p :: rest))
             (zip (positions_from 1 k (np_diff_int (p :: rest))) ends')).
Proof.
  induction rest as [|q rest IH]; intros p k Hbits Hlast.
  - injection Hlast as ->. split; [intros _; constructor | discriminate].
  - apply Forall_cons in Hbits as [Hp Hbits].
    pose proof (Forall_inv Hbits) as Hq. cbv beta in Hq.
    change (last (p :: q :: rest)) with (last (q :: rest)) in Hlast.
    destruct (IH q (S k) Hbits Hlast) as [IH0 IH1].
    change (np_diff_int (p :: q :: rest)) with ((q - p)%Z :: np_diff_int (q :: rest)).
    cbn [positions_from].
    destruct Hp as [-> | ->], Hq as [-> | ->]; cbn [Z.sub Z.add Z.opp Z.eqb Pos.eqb Z.pos_sub];
      (split; [intros Hp; try discriminate Hp | intros Hp; try discriminate Hp]).
    + eapply Forall_impl; [apply IH0; reflexivity|]. intros se. apply step_pair_lift.
    + destruct (IH1 eq_refl) as (e0 & ends' & -> & Hk & Hones & Hzero & Hgood).
      change (zip (k :: ?l) (e0 :: ends')) with ((k, e0) :: zip l ends').
      constructor.
      * unfold step_pair. cbn [fst snd]. split; [lia|]. split; [|split].
        -- intros j Hj. replace (j - k)%nat with (S (j - S k)) by lia. apply Hones. lia.
        -- rewrite Nat.sub_diag. reflexivity.
        -- replace (S e0 - k)%nat with (S (S e0 - S k)) by lia. exact Hzero.
      * eapply Forall_impl; [exact Hgood|]. intros se. apply step_pair_lift.
    + exists k, (positions_from (-1) (S k) (np_diff_int (0%Z :: rest))).
      split; [reflexivity|]. split; [lia|]. split; [|split].
      * intros j Hj. replace (j - k)%nat with 0%nat by lia. reflexivity.
      * replace (S k - k)%nat with 1%nat by lia. reflexivity.
      * eapply Forall_impl; [apply IH0; reflexivity|]. intros se. apply step_pair_lift.
    + destruct (IH1 eq_refl) as (e0 & ends' & -> & Hk & Hones & Hzero & Hgood).
      exists e0, ends'. split; [reflexivity|]. split; [lia|]. split; [|split].
      * intros j Hj. destruct (Nat.eq_dec j k) as [-> | Hne].
        -- rewrite Nat.sub_diag. reflexivity.
        -- replace (j - k)%nat with (S (j - S k)) by lia. apply Hones. lia.
      * replace (S e0 - k)%nat with (S (S e0 - S k)) by lia. exact Hzero.
      * eapply Forall_impl; [exact Hgood|]. intros se. apply step_pair_lift.
Qed.

Lemma lookup_astype_int (mask : list bool) (i : nat) (b : bool) :
  (astype_int mask ++ [0%Z])%list !! i = Some (if b then 1%Z else 0%Z) ->
  mask !! i = Some b \/ (b = false /\ i = length mask).
Proof.
  intros Hi. destruct (lt_dec i (length mask)) as [Hlt | Hge].
  - left. rewrite lookup_app_l in Hi by (unfold astype_int; rewrite length_map; exact Hlt).
    unfold astype_int in Hi. change (@map bool Z) with (@fmap list _ bool Z) in Hi.
    rewrite list_lookup_fmap in Hi.
    destruct (mask !! i) as [[|]|]; destruct b; try discriminate; reflexivity.
  - right. rewrite lookup_app_r in Hi by (unfold astype_int; rewrite length_map; lia).
    unfold astype_int in Hi. rewrite length_map in Hi.
    destruct (i - length mask)%nat as [|n] eqn:Hn; [|discriminate].
    destruct b; [discriminate|]. split; [reflexivity | lia].
Qed.

Lemma region_of_mask (mask : list bool) (s e : nat) :
  (s, e) ∈ zip (np_where_eq 1 (np_diff_int (astype_int (false :: mask ++ [false]))))
             (np_where_eq (-1) (np_diff_int (astype_int (false :: mask ++ [false])))) ->
  (s < e <= length mask)%nat
  /\ (forall j, (s <= j < e)%nat -> mask !! j = Some true)
  /\ (s = 0%nat \/ mask !! (s - 1)%nat = Some false)
  /\ (e = length mask \/ mask !! e = Some false).
Proof.
  intros Hin. unfold np_where_eq in Hin.
  assert (astype_int (false :: mask ++ [false]) = 0%Z :: (astype_int mask ++ [0%Z])%list)
    as HP by (unfold astype_int; cbn [map]; rewrite map_app; reflexivity).
  rewrite HP in Hin.
  destruct (pairs_are_runs (astype_int mask ++ [0%Z]) 0%Z 0%nat) as [Hruns _].
  { constructor; [auto|]. apply Forall_app. split; [|repeat constructor; auto].
    unfold astype_int. apply Forall_forall. intros x Hx.
    apply (proj1 (list_elem_of_In _ _)), in_map_iff in Hx as ([|] & <- & _); auto. }
  { change (last (0%Z :: astype_int mask ++ [0%Z])%list)
      with (last ((0%Z :: astype_int mask) ++ [0%Z])%list). apply last_snoc. }
  specialize (Hruns eq_refl). rewrite Forall_forall in Hruns.
  destruct (Hruns _ Hin) as (Hse & Hones & Hs & He). cbn [fst snd] in *.
  rewrite ?Nat.sub_0_r in Hs. change (S e - 0)%nat with (S e) in He.
  assert (forall j, (s <= j < e)%nat -> mask !! j = Some true) as Hrun.
  { intros j Hj. specialize (Hones (S j) ltac:(lia)).
    change (S j - 0)%nat with (S j) in Hones. cbn [lookup list_lookup] in Hones.
    apply (lookup_astype_int mask j true) in Hones as [Hm | [Hb _]];
      [exact Hm | discriminate]. }
  assert (e <= length mask)%nat as Hlen.
  { specialize (Hrun (e - 1)%nat ltac:(lia)). apply lookup_lt_Some in Hrun. lia. }
  split; [lia|]. split; [exact Hrun|]. split.
  - destruct s as [|s]; [auto|]. right. cbn [lookup list_lookup] in Hs.
    apply (lookup_astype_int mask s false) in Hs as [Hm | [_ Hs]]; [|lia].
    replace (S s - 1)%nat with s by lia. exact Hm.
  - cbn [lookup list_lookup] in He.
    apply (lookup_astype_int mask e false) in He as [Hm | [_ He]]; auto.
Qed.

(** *** Means of a region *)

Lemma np_sum_le (bound : Q) (l : list Q) :
  Forall (fun d => d <= bound) l -> np_sum l <= inject_Z (Z.of_nat (length l)) * bound.
Proof.
  induction 1 as [|x l Hx _ IH];
    [change (np_sum []) with 0; change (inject_Z (Z.of_nat (length (@nil Q)))) with 0; lra|].
  change (np_sum (x :: l)) with (x + np_sum l). cbn [length].
  rewrite Nat2Z.inj_succ. unfold Z.succ. rewrite inject_Z_plus.
  change (inject_Z 1) with 1. lra.
Qed.

Lemma np_sum_ge (bound : Q) (l : list Q) :
  Forall (fun d => bound <= d) l -> inject_Z (Z.of_nat (length l)) * bound <= np_sum l.
Proof.
  induction 1 as [|x l Hx _ IH];
    [change (np_sum []) with 0; change (inject_Z (Z.of_nat (length (@nil Q)))) with 0; lra|].
  change (np_sum (x :: l)) with (x + np_sum l). cbn [length].
  rewrite Nat2Z.inj_succ. unfold Z.succ. rewrite inject_Z_plus.
  change (inject_Z 1) with 1. lra.
Qed.

Lemma length_positive {A} (l : list A) : l <> [] -> 0 < inject_Z (Z.of_nat (length l)).
Proof.
  intros Hne. change 0 with (inject_Z 0). rewrite <- Zlt_Qlt.
  destruct l; [congruence | cbn; lia].
Qed.

Lemma mean_below (bound : Q) (l : list Q) :
  l <> [] -> Forall (fun d => d < bound) l -> np_mean l < bound.
Proof.
  intros Hne Hall. unfold np_mean.
  apply Qlt_shift_div_r; [apply length_positive, Hne|].
  destruct l as [|x l]; [congruence|]. apply Forall_cons in Hall as [Hx Hall].
  assert (np_sum l <= inject_Z (Z.of_nat (length l)) * bound) as Hrest.
  { apply np_sum_le. eapply Forall_impl; [exact Hall|]. intros d. apply Qlt_le_weak. }
  change (np_sum (x :: l)) with (x + np_sum l). cbn [length].
  rewrite Nat2Z.inj_succ. unfold Z.succ. rewrite inject_Z_plus.
  change (inject_Z 1) with 1. lra.
Qed.

Lemma mean_above (bound : Q) (l : list Q) :
  l <> [] -> Forall (fun d => bound < d) l -> bound < np_mean l.
Proof.
  intros Hne Hall. unfold np_mean.
  apply Qlt_shift_div_l; [apply length_positive, Hne|].
  destruct l as [|x l]; [congruence|]. apply Forall_cons in Hall as [Hx Hall].
  assert (inject_Z (Z.of_nat (length l)) * bound <= np_sum l) as Hrest.
  { apply np_sum_ge. eapply Forall_impl; [exact Hall|]. intros d. apply Qlt_le_weak. }
  change (np_sum (x :: l)) with (x + np_sum l). cbn [length].
  rewrite Nat2Z.inj_succ. unfold Z.succ. rewrite inject_Z_plus.
  change (inject_Z 1) with 1. lra.
Qed.

Lemma py_slice_region (P : Q -> Prop) (a : list Q) (s e : nat) :
  (s < e <= length a)%nat ->
  (forall j d, (s <= j < e)%nat -> a !! j = Some d -> P d) ->
  py_slice a s e <> [] /\ Forall P (py_slice a s e).
Proof.
  intros Hse Hall. unfold py_slice. split.
  - intros Hnil. apply (f_equal length) in Hnil.
    rewrite length_take, length_drop in Hnil. cbn [length] in Hnil. lia.
  - apply Forall_forall. intros d Hd. apply list_elem_of_lookup in Hd as [i Hi].
    apply lookup_take_Some in Hi as [Hi Hlt]. rewrite lookup_drop in Hi.
    apply (Hall (s + i)%nat); [lia | exact Hi].
Qed.

(** *** The events *)

Lemma extract_regions_event (self : ConvergenceAnalyzer) (times distances : list Q)
    (holds : Q -> bool) (kind : string) (ev : ConvergenceEvent) :
  ev ∈ _extract_regions self times distances (map holds distances) kind ->
  exists s e,
    run_of (fun d => holds d = true) distances s e
    /\ start_ms ev = py_int (nth s times 0)
    /\ end_ms ev = py_int (nth (e - 1) times 0)
    /\ (min_event_duration_ms self <= end_ms ev - start_ms ev)%Z
    /\ distance ev = np_mean (py_slice distances s e)
    /\ event_type ev = kind
    /\ strength ev = (if String.eqb kind "convergence" then 1 - distance ev
                      else distance ev).
Proof.
  unfold _extract_regions. cbv zeta. intros Hev.
  apply list_elem_of_omap in Hev as ([s e] & Hin & Hev).
  apply region_of_mask in Hin as (Hse & Hrun & Hbefore & Hafter).
  rewrite length_map in Hse, Hafter.
  destruct (e <=? s)%nat; [discriminate|].
  destruct (Z.ltb_spec (py_int (nth (e - 1) times 0) - py_int (nth s times 0))
              (min_event_duration_ms self)) as [|Hlong]; [discriminate|].
  injection Hev as <-. cbn [start_ms end_ms distance event_type strength].
  exists s, e. split; [|repeat split; exact Hlong].
  assert (forall j b, map holds distances !! j = Some b ->
            exists d, distances !! j = Some d /\ holds d = b) as Hmask.
  { intros j b Hj. change (@map Q bool) with (@fmap list _ Q bool) in Hj.
    rewrite list_lookup_fmap in Hj. destruct (distances !! j) as [d|]; [|discriminate].
    injection Hj as <-. eauto. }
  split; [exact Hse|]. split; [|split].
  - intros j d Hj Hd. destruct (Hmask j true (Hrun j Hj)) as (d' & Hd' & Hholds).
    congruence.
  - destruct Hbefore as [-> | Hfalse]; [auto|]. right.
    destruct (Hmask _ _ Hfalse) as (d & Hd & Hholds). exists d. split; [exact Hd|].
    congruence.
  - destruct Hafter as [-> | Hfalse]; [auto|]. right.
    destruct (Hmask _ _ Hfalse) as (d & Hd & Hholds). exists d. split; [exact Hd|].
    congruence.
Qed.

Lemma insert_by_sorted {A} (key : A -> Z) (x : A) (l : list A) :
  StronglySorted (fun a b => (key a <= key b)%Z) l ->
  StronglySorted (fun a b => (key a <= key b)%Z) (SeriesFacts.insert_by key x l).
Proof.
  induction l as [|y l IH]; intros Hs; cbn [SeriesFacts.insert_by].
  - repeat constructor.
  - apply StronglySorted_inv in Hs as [Hs Hy]. rewrite Forall_forall in Hy.
    destruct (Z.leb_spec (key x) (key y)) as [Hle | Hgt].
    + constructor; [constructor; [exact Hs | apply Forall_forall, Hy]|].
      constructor; [exact Hle|]. apply Forall_forall. intros z Hz.
      specialize (Hy z Hz). cbv beta in Hy. lia.
    + constructor; [apply IH, Hs|]. apply Forall_forall. intros z Hz.
      apply SeriesFacts.elem_of_insert_by in Hz as [-> | Hz]; [lia | apply Hy, Hz].
Qed.

Lemma py_sorted_sorted {A} (key : A -> Z) (l : list A) :
  StronglySorted (fun a b => (key a <= key b)%Z) (SeriesFacts.py_sorted key l).
Proof.
  unfold SeriesFacts.py_sorted. induction l as [|x l IH]; cbn [foldr]; [constructor|].
  apply insert_by_sorted, IH.
Qed.

Lemma Qltb_lt (x y : Q) : Qltb x y = true <-> x < y.
Proof.
  unfold Qltb. rewrite negb_true_iff. split.
  - apply AlignmentFacts.Qle_bool_false_lt.
  - intros Hlt. destruct (Qle_bool y x) eqn:Hle; [|reflexivity].
    apply Qle_bool_iff in Hle. lra.
Qed.

(** X29.  The events [_detect_events] returns are ordered by their start.
    Each of them comes from a longest stretch of window distances that
    are all below the convergence threshold (a convergence event) or all
    above the divergence threshold (a divergence event): it starts at the
    time of the first and ends at the time of the last window of the
    stretch, lasts at least the minimum event duration, and reports the
    mean distance of the stretch, which is below the convergence
    threshold with strength [1 - distance], or above the divergence
    threshold with the distance as strength. *)
Theorem detected_events_are_threshold_runs (self : ConvergenceAnalyzer)
    (times distances : list Q) :
  length times = length distances ->
  StronglySorted (fun a b => (start_ms a <= start_ms b)%Z)
    (_detect_events self times distances)
  /\ forall ev, ev ∈ _detect_events self times distances ->
       exists s e,
         start_ms ev = py_int (nth s times 0)
         /\ end_ms ev = py_int (nth (e - 1) times 0)
         /\ (min_event_duration_ms self <= end_ms ev - start_ms ev)%Z
         /\ distance ev = np_mean (py_slice distances s e)
         /\ ((event_type ev = "convergence"%string
              /\ strength ev = 1 - distance ev
              /\ distance ev < convergence_level self
              /\ run_of (fun d => d < convergence_level self) distances s e)
             \/ (event_type ev = "divergence"%string
                 /\ strength ev = distance ev
                 /\ divergence_level self < distance ev
                 /\ run_of (fun d => divergence_level self < d) distances s e)).
Proof.
  intros _. unfold _detect_events.
  destruct distances as [|d0 distances']; [split; [constructor | intros ev Hev]|].
  { apply elem_of_nil in Hev. contradiction. }
  set (distances := d0 :: distances'). cbv zeta.
  split; [apply py_sorted_sorted|]. intros ev Hev.
  apply SeriesFacts.elem_of_py_sorted, elem_of_app in Hev as [Hev | Hev];
    apply extract_regions_event in Hev
      as (s & e & Hrun & Hstart & Hend & Hlong & Hdist & Hkind & Hstrength);
    exists s, e; do 4 (split; [assumption|]); [left | right];
    (split; [exact Hkind|]); (split; [exact Hstrength|]);
    destruct Hrun as (Hse & Hall & Hbefore & Hafter).
  - assert (run_of (fun d => d < convergence_level self) distances s e) as Hrun'.
    { split; [exact Hse|]. split; [|split].
      - intros j d Hj Hd. apply Qltb_lt, (Hall j d Hj Hd).
      - destruct Hbefore as [-> | (d & Hd & Hnot)]; [auto|]. right. exists d.
        split; [exact Hd|]. rewrite <- Qltb_lt. exact Hnot.
      - destruct Hafter as [-> | (d & Hd & Hnot)]; [auto|]. right. exists d.
        split; [exact Hd|]. rewrite <- Qltb_lt. exact Hnot. }
    split; [|exact Hrun']. rewrite Hdist.
    destruct (py_slice_region (fun d => d < convergence_level self) distances s e Hse)
      as [Hne Hbelow]; [apply Hrun'|].
    apply mean_below; assumption.
  - assert (run_of (fun d => divergence_level self < d) distances s e) as Hrun'.
    { split; [exact Hse|]. split; [|split].
      - intros j d Hj Hd. apply Qltb_lt, (Hall j d Hj Hd).
      - destruct Hbefore as [-> | (d & Hd & Hnot)]; [auto|]. right. exists d.
        split; [exact Hd|]. rewrite <- Qltb_lt. exact Hnot.
      - destruct Hafter as [-> | (d & Hd & Hnot)]; [auto|]. right. exists d.
        split; [exact Hd|]. rewrite <- Qltb_lt. exact Hnot. }
    split; [|exact Hrun']. rewrite Hdist.
    destruct (py_slice_region (fun d => divergence_level self < d) distances s e Hse)
      as [Hne Habove]; [apply Hrun'|].
    apply mean_above; assumption.
Qed.

(** *** The windows *)

Lemma q_sqrt_nonneg (x : Q) : 0 <= q_sqrt x.
Proof.
  unfold q_sqrt. rewrite Qred_correct. unfold Qle. cbn [Qnum Qden].
  pose proof (Z.sqrt_nonneg (Qfloor (x * inject_Z (2 ^ 106)))). lia.
Qed.

Lemma normalised_distance (dist range1 range2 : Q) :
  0 <= dist ->
  0 <= qmin (dist / qmax (qmax range1 range2) (1 # 100)) 1
  /\ qmin (dist / qmax (qmax range1 range2) (1 # 100)) 1 <= 1.
Proof.
  intros Hdist. set (signal_range := qmax (qmax range1 range2) (1 # 100)).
  assert (0 < signal_range) as Hpos.
  { destruct (AlignmentFacts.qmax_bounds (qmax range1 range2) (1 # 100)) as [_ H].
    fold signal_range in H. lra. }
  assert (0 <= dist / signal_range) as Hratio
    by (apply Qle_shift_div_l; [exact Hpos | lra]).
  split; [|apply AlignmentFacts.qmin_bounds].
  destruct (AlignmentFacts.qmin_cases (dist / signal_range) 1) as [-> | ->]; lra.
Qed.

Lemma windows_spec (window_samples : nat) (times signal1 signal2 : list Q) :
  (0 < window_samples)%nat ->
  forall starts,
    Forall (fun dt => (0 <= dt.1 /\ dt.1 <= 1) /\ dt.2 ∈ times)
      (windows window_samples times signal1 signal2 starts).
Proof.
  intros Hw. induction starts as [|start_idx starts IH]; cbn [windows]; [constructor|].
  destruct (Nat.ltb_spec (length times) (start_idx + window_samples)) as [|Hfits];
    [constructor|].
  constructor; [|exact IH]. cbn [fst snd]. split.
  - apply normalised_distance, q_sqrt_nonneg.
  - assert (start_idx + window_samples / 2 < length times)%nat as Hin.
    { pose proof (Nat.div_lt window_samples 2 Hw ltac:(lia)). lia. }
    apply lookup_lt_is_Some_2 in Hin as [t Ht].
    rewrite nth_lookup, Ht. cbn [default]. eapply list_elem_of_lookup_2, Ht.
Qed.

Lemma py_range_nothing (stop step : Z) : (stop <= 0)%Z -> (0 < step)%Z -> py_range stop step = [].
Proof.
  intros Hstop Hstep. unfold py_range.
  assert ((stop + step - 1) / step <= 0)%Z as Hnone.
  { apply Z.lt_succ_r. apply Z.div_lt_upper_bound; lia. }
  replace (Z.to_nat ((stop + step - 1) / step)) with 0%nat by lia. reflexivity.
Qed.

(** X30.  For a window of at least 4 samples, the windowed distances
    that [_compute_windowed_distances] returns all lie between 0 and 1,
    there is one window time for each of them, and every window time is
    a point of the timeline.  On a timeline with no more points than the
    window is long there is no window at all, and [_detect_events] then
    finds no event. *)
Theorem windowed_distances_are_normalised (self : ConvergenceAnalyzer) (times : list Q)
    (signals : list (string * list Q)) (participants : list string)
    (distances window_times : list Q) :
  (4 <= window_ms self)%Z ->
  _compute_windowed_distances self times signals participants
    = Some (distances, window_times) ->
  length distances = length window_times
  /\ Forall (fun d => 0 <= d /\ d <= 1) distances
  /\ Forall (fun t => t ∈ times) window_times
  /\ ((Z.of_nat (length times) <= window_ms self)%Z ->
      distances = [] /\ window_times = []
      /\ _detect_events self window_times distances = []).
Proof.
  intros Hwindow. unfold _compute_windowed_distances.
  destruct participants as [|p1 [|p2 others]];
    try (intros [= <- <-]; repeat split; constructor).
  destruct (signal_of signals p1) as [signal1|]; [|discriminate].
  destruct (signal_of signals p2) as [signal2|]; [|discriminate].
  cbn [mbind option_bind]. cbv zeta.
  assert (1 <= window_ms self / 4)%Z as Hhop
    by (apply Z.div_le_lower_bound; lia).
  destruct (Z.eqb_spec (window_ms self / 4) 0) as [|_]; [lia|].
  set (found := windows _ _ _ _ _). intros [= <- <-].
  pose proof (windows_spec (Z.to_nat (window_ms self)) times signal1 signal2
                ltac:(lia)
                (py_range (Z.of_nat (length times) - window_ms self) (window_ms self / 4)))
    as Hfound.
  fold found in Hfound. rewrite Forall_forall in Hfound.
  split; [rewrite !length_fmap; reflexivity|]. split; [|split].
  - apply Forall_forall. intros d Hd. apply list_elem_of_fmap in Hd as (dt & -> & Hdt).
    apply Hfound, Hdt.
  - apply Forall_forall. intros t Ht. apply list_elem_of_fmap in Ht as (dt & -> & Hdt).
    apply Hfound, Hdt.
  - intros Hshort. assert (found = []) as ->; [|auto].
    unfold found. rewrite py_range_nothing by lia. reflexivity.
Qed.

(** *** Two participants, a few milliseconds *)

Definition steady : trace := {| times_ms := [0; 2; 4]; values := [1; 1; 1] |}.
Definition climbing : trace := {| times_ms := [1; 3; 5]; values := [0; 2; 4] |}.

Lemma time_series_grid_witness :
  exists common_times aligned_signals,
    _align_time_series [("a", steady); ("b", climbing)]%string
    = Aligned common_times aligned_signals
    /\ common_times = [1; 2; 3]
    /\ (2 <= length aligned_signals)%nat
    /\ Forall (fun s => length s.2 = length common_times) aligned_signals.
Proof.
  eexists _, _. split; [vm_compute; reflexivity|]. split; [reflexivity|].
  destruct (time_series_grid [("a", steady); ("b", climbing)]%string [1; 2; 3]
              [("a", [1; 1; 1]); ("b", [0; 1; 2])]%string) as (Htwo & Hlen & _).
  - vm_compute. reflexivity.
  - split; [exact Htwo | exact Hlen].
Defined.

(** Five windows a quarter of a second apart: three close ones, then two
    far ones. *)
Definition five_times : list Q := [0; 250; 500; 750; 1000].
Definition five_distances : list Q := [1 # 10; 2 # 10; 1 # 10; 9 # 10; 95 # 100].

Lemma detected_events_are_threshold_runs_witness :
  exists ev,
    _detect_events default_analyzer five_times five_distances = [ev]
    /\ start_ms ev = 0%Z /\ end_ms ev = 500%Z
    /\ event_type ev = "convergence"%string
    /\ distance ev < 3 # 10.
Proof.
  destruct (detected_events_are_threshold_runs default_analyzer five_times five_distances
              eq_refl) as [_ Hall].
  assert (exists ev, _detect_events default_analyzer five_times five_distances = [ev]
                     /\ start_ms ev = 0%Z /\ end_ms ev = 500%Z
                     /\ event_type ev = "convergence"%string)
    as (ev & Hrun & Hstart & Hend & Hkind)
    by (eexists; split; [vm_compute; reflexivity | repeat split]).
  exists ev. do 4 (split; [assumption|]).
  destruct (Hall ev) as (s & e & _ & _ & _ & _ & [(_ & _ & Hbelow & _) | (Hdiv & _)]).
  - rewrite Hrun. apply list_elem_of_here.
  - exact Hbelow.
  - rewrite Hkind in Hdiv. discriminate.
Defined.

(** A timeline of three points under the default window of 2000. *)
Lemma windowed_distances_are_normalised_witness :
  _compute_windowed_distances default_analyzer [1; 2; 3]
    [("a", [1; 1; 1]); ("b", [0; 1; 2])]%string ["a"; "b"]%string = Some ([], [])
  /\ _detect_events default_analyzer [] [] = [].
Proof.
  assert (_compute_windowed_distances default_analyzer [1; 2; 3]
            [("a", [1; 1; 1]); ("b", [0; 1; 2])]%string ["a"; "b"]%string = Some ([], []))
    as Hrun by (vm_compute; reflexivity).
  split; [exact Hrun|].
  destruct (windowed_distances_are_normalised default_analyzer [1; 2; 3]
              [("a", [1; 1; 1]); ("b", [0; 1; 2])]%string ["a"; "b"]%string [] []
              ltac:(vm_compute; discriminate) Hrun) as (_ & _ & _ & Hshort).
  apply Hshort. vm_compute. discriminate.
Defined.

End ConvergenceFacts.
